(** * CHILL language server: semantic parser and query layer

    A shallow embedding of [chill_semantic_parser.py] (lexical cleanup,
    symbol table, declaration scanner, completion and hover) and of the
    reference search of [chill_lsp_server.py], with the properties of the
    specification stated and settled against it.

    Text model.  Python strings are modelled by [string]; a character is an
    [ascii].  The character predicates ([isspace], [isalnum], [upper], the
    regex classes [\s], [\d], [\w], [\b] and case-insensitive matching) are
    the ones Python applies to the ASCII range; characters of code 128 and
    above are treated as caseless non-letters.

    Integers.  A Python [int] is a [Z].  The conversions between [int] and
    decimal text refuse more than 4300 digits with [ValueError]:
    [int_of_str] has that case; [str_of_int] is the rendering of an
    integer within the limit, and a statement that renders one says so
    ([int_renders]).  *)

From Stdlib Require Import Bool Arith Lia List ZArith Ascii String.
From Stdlib Require Import Sorted Permutation.
Import ListNotations.
Open Scope string_scope.
Open Scope list_scope.

(** ** Python string primitives *)

Module PyStr.

Definition code (c : ascii) : nat := nat_of_ascii c.

Definition in_range (lo hi c : ascii) : bool :=
  Nat.leb (code lo) (code c) && Nat.leb (code c) (code hi).

(** [str.isspace] on one ASCII character: TAB, LF, VT, FF, CR,
    FS, GS, RS, US and the blank. *)
Definition is_space (c : ascii) : bool :=
  (Nat.leb 9 (code c) && Nat.leb (code c) 13)
  || (Nat.leb 28 (code c) && Nat.leb (code c) 32).

Definition is_digit (c : ascii) : bool := in_range "0" "9" c.
Definition is_upper_letter (c : ascii) : bool := in_range "A" "Z" c.
Definition is_lower_letter (c : ascii) : bool := in_range "a" "z" c.

(** [str.isalnum] on one character. *)
Definition is_alnum (c : ascii) : bool :=
  is_upper_letter c || is_lower_letter c || is_digit c.

(** The regex class [\w]. *)
Definition is_word (c : ascii) : bool :=
  is_alnum c || Ascii.eqb c "_".

Definition upper_char (c : ascii) : ascii :=
  if is_lower_letter c then ascii_of_nat (code c - 32) else c.

Definition lower_char (c : ascii) : ascii :=
  if is_upper_letter c then ascii_of_nat (code c + 32) else c.

(** [str.upper] *)
Fixpoint upper (s : string) : string :=
  match s with
  | EmptyString => EmptyString
  | String c t => String (upper_char c) (upper t)
  end.

Definition is_empty (s : string) : bool :=
  match s with EmptyString => true | _ => false end.

Fixpoint lstrip_by (p : ascii -> bool) (s : string) : string :=
  match s with
  | EmptyString => EmptyString
  | String c t => if p c then lstrip_by p t else s
  end.

Fixpoint rstrip_by (p : ascii -> bool) (s : string) : string :=
  match s with
  | EmptyString => EmptyString
  | String c t =>
      let t' := rstrip_by p t in
      if is_empty t' && p c then EmptyString else String c t'
  end.

(** [str.strip()] *)
Definition strip (s : string) : string :=
  rstrip_by is_space (lstrip_by is_space s).

(** [str.rstrip(chars)] for a one-character set. *)
Definition rstrip_char (ch : ascii) (s : string) : string :=
  rstrip_by (Ascii.eqb ch) s.

(** [str.split(sep)] for a one-character separator: never empty. *)
Fixpoint split_on (sep : ascii) (s : string) : list string :=
  match s with
  | EmptyString => [EmptyString]
  | String c t =>
      if Ascii.eqb c sep then EmptyString :: split_on sep t
      else match split_on sep t with
           | h :: r => String c h :: r
           | [] => [String c EmptyString]
           end
  end.

(** [sep.join(parts)] *)
Fixpoint join (sep : string) (parts : list string) : string :=
  match parts with
  | [] => EmptyString
  | [p] => p
  | p :: rest => (p ++ sep ++ join sep rest)%string
  end.

(** [str.split()] with no argument: runs of whitespace separate the
    fields and no empty field is produced. *)
Fixpoint split_ws (s : string) : list string :=
  match s with
  | EmptyString => []
  | String c t =>
      if is_space c then split_ws t
      else match t with
           | EmptyString => [String c EmptyString]
           | String c' _ =>
               if is_space c' then String c EmptyString :: split_ws t
               else match split_ws t with
                    | h :: r => String c h :: r
                    | [] => [String c EmptyString]
                    end
           end
  end.

(** [s.startswith(p)] *)
Definition startswith (s p : string) : bool := String.prefix p s.

(** [sub in s] *)
Fixpoint contains (sub s : string) : bool :=
  String.prefix sub s
  || match s with
     | EmptyString => false
     | String _ t => contains sub t
     end.

(** [s.find(sub)]: the first index, -1 when there is none. *)
Fixpoint find_from (sub s : string) (i : Z) : Z :=
  if String.prefix sub s then i
  else match s with
       | EmptyString => (-1)%Z
       | String _ t => find_from sub t (i + 1)%Z
       end.

Definition find (s sub : string) : Z := find_from sub s 0%Z.

(** [s[:s.index(sub)]], used only under the guard [sub in s]. *)
Fixpoint before (sub s : string) : string :=
  if String.prefix sub s then EmptyString
  else match s with
       | EmptyString => EmptyString
       | String c t => String c (before sub t)
       end.

(** [c in s] for one character. *)
Fixpoint has_char (c : ascii) (s : string) : bool :=
  match s with
  | EmptyString => false
  | String c' t => Ascii.eqb c c' || has_char c t
  end.

(** Number of lines of a text: [len(text.split('\n'))]. *)
Definition line_count (s : string) : nat :=
  List.length (split_on "010"%char s).

(** Decimal rendering of an [int] of at most [max_str_digits] digits, as
    an f-string does. *)
Fixpoint digits_of (fuel : nat) (n : N) (acc : string) : string :=
  match fuel with
  | O => acc
  | S f =>
      let d := ascii_of_N (48 + N.modulo n 10) in
      let q := N.div n 10 in
      if N.eqb q 0 then String d acc else digits_of f q (String d acc)
  end.

Definition str_of_int (z : Z) : string :=
  match z with
  | Z0 => "0"
  | Zpos p => digits_of (S (N.to_nat (N.log2 (Npos p)))) (Npos p) ""
  | Zneg p => String "-" (digits_of (S (N.to_nat (N.log2 (Npos p)))) (Npos p) "")
  end.

(** The value of a string matching [-?\d+]. *)
Fixpoint nat_of_digits (s : string) (acc : N) : N :=
  match s with
  | EmptyString => acc
  | String c t => nat_of_digits t (10 * acc + (N_of_ascii c - 48))%N
  end.

Definition int_value (s : string) : Z :=
  match s with
  | String "-" t => Z.opp (Z.of_N (nat_of_digits t 0%N))
  | _ => Z.of_N (nat_of_digits s 0%N)
  end.

(** The digits of a string matching [-?\d+]: the sign does not count. *)
Definition int_digits (s : string) : string :=
  match s with
  | String "-" t => t
  | _ => s
  end.

(** [sys.int_info.default_max_str_digits]: [int] converts no decimal
    string with more digits than this. *)
Definition max_str_digits : nat := 4300.

End PyStr.

(** ** A backtracking matcher for the regular expressions of the source

    The fragment of Python's [re] that the two files use: literals,
    character classes, greedy [*], [+] and [?], the lazy [*?], alternation,
    numbered groups, [^] and [\b], with the flag [re.IGNORECASE] as the
    boolean [ic] and [re.DOTALL] as the class [CDotAll].  Matching is by
    continuation passing, so that a quantifier gives back characters, and a
    group the span it captured, exactly when Python's matcher backtracks. *)

Module Re.
Import PyStr.

Inductive item : Type :=
| IChr (c : ascii)              (* a literal character in a set *)
| IRange (lo hi : ascii)        (* lo-hi *)
| ISpace                        (* \s *)
| IDigit.                       (* \d *)

Inductive cclass : Type :=
| CDot                          (* .  without DOTALL *)
| CDotAll                       (* .  with DOTALL *)
| CSet (negated : bool) (items : list item).

Definition item_matches (ic : bool) (c : ascii) (it : item) : bool :=
  match it with
  | IChr a =>
      if ic then Ascii.eqb (lower_char a) (lower_char c) else Ascii.eqb a c
  | IRange lo hi =>
      in_range lo hi c
      || (ic && (in_range lo hi (upper_char c) || in_range lo hi (lower_char c)))
  | ISpace => is_space c
  | IDigit => is_digit c
  end.

Definition class_matches (ic : bool) (cl : cclass) (c : ascii) : bool :=
  match cl with
  | CDot => negb (Ascii.eqb c "010")
  | CDotAll => true
  | CSet neg items => xorb neg (existsb (item_matches ic c) items)
  end.

Inductive regex : Type :=
| Eps
| Lit (s : string)
| Cls (cl : cclass)
| Star (cl : cclass)            (* cl*   greedy *)
| Plus (cl : cclass)            (* cl+   greedy *)
| LazyStar (cl : cclass)        (* cl*?  *)
| Opt (r : regex)               (* (?:r)?  greedy *)
| Cat (r1 r2 : regex)
| Alt (r1 r2 : regex)
| Grp (n : nat) (r : regex)     (* capturing group number n *)
| Bol                           (* ^ *)
| WordB.                        (* \b *)

(** The matcher's position: the offset in the subject, the character
    before it, the text still to read and the spans captured so far
    (most recent first). *)
Record mstate : Type := MState {
  m_pos : nat;
  m_prev : option ascii;
  m_rest : string;
  m_caps : list (nat * (nat * nat))
}.

Definition kont : Type := mstate -> option mstate.

Definition char_eq (ic : bool) (a c : ascii) : bool :=
  if ic then Ascii.eqb (lower_char a) (lower_char c) else Ascii.eqb a c.

Fixpoint lit_match (ic : bool) (lit : string) (k : kont)
         (pos : nat) (prev : option ascii) (rest : string)
         (caps : list (nat * (nat * nat))) : option mstate :=
  match lit with
  | EmptyString => k (MState pos prev rest caps)
  | String a lit' =>
      match rest with
      | String c t =>
          if char_eq ic a c then lit_match ic lit' k (S pos) (Some c) t caps
          else None
      | EmptyString => None
      end
  end.

Fixpoint star_greedy (ic : bool) (cl : cclass) (k : kont)
         (pos : nat) (prev : option ascii) (rest : string)
         (caps : list (nat * (nat * nat))) : option mstate :=
  match rest with
  | String c t =>
      if class_matches ic cl c then
        match star_greedy ic cl k (S pos) (Some c) t caps with
        | Some r => Some r
        | None => k (MState pos prev rest caps)
        end
      else k (MState pos prev rest caps)
  | EmptyString => k (MState pos prev rest caps)
  end.

Fixpoint star_lazy (ic : bool) (cl : cclass) (k : kont)
         (pos : nat) (prev : option ascii) (rest : string)
         (caps : list (nat * (nat * nat))) : option mstate :=
  match k (MState pos prev rest caps) with
  | Some r => Some r
  | None =>
      match rest with
      | String c t =>
          if class_matches ic cl c
          then star_lazy ic cl k (S pos) (Some c) t caps
          else None
      | EmptyString => None
      end
  end.

Definition word_before (st : mstate) : bool :=
  match m_prev st with Some c => is_word c | None => false end.

Definition word_after (st : mstate) : bool :=
  match m_rest st with String c _ => is_word c | EmptyString => false end.

Definition one_char (ic : bool) (cl : cclass) (k : kont) (st : mstate)
  : option mstate :=
  match m_rest st with
  | String c t =>
      if class_matches ic cl c
      then k (MState (S (m_pos st)) (Some c) t (m_caps st))
      else None
  | EmptyString => None
  end.

Fixpoint rmatch (ic : bool) (r : regex) (k : kont) (st : mstate)
         {struct r} : option mstate :=
  match r with
  | Eps => k st
  | Lit s => lit_match ic s k (m_pos st) (m_prev st) (m_rest st) (m_caps st)
  | Cls cl => one_char ic cl k st
  | Star cl =>
      star_greedy ic cl k (m_pos st) (m_prev st) (m_rest st) (m_caps st)
  | Plus cl =>
      one_char ic cl
        (fun st1 => star_greedy ic cl k (m_pos st1) (m_prev st1)
                                (m_rest st1) (m_caps st1)) st
  | LazyStar cl =>
      star_lazy ic cl k (m_pos st) (m_prev st) (m_rest st) (m_caps st)
  | Opt r1 =>
      match rmatch ic r1 k st with
      | Some res => Some res
      | None => k st
      end
  | Cat r1 r2 => rmatch ic r1 (rmatch ic r2 k) st
  | Alt r1 r2 =>
      match rmatch ic r1 k st with
      | Some res => Some res
      | None => rmatch ic r2 k st
      end
  | Grp n r1 =>
      rmatch ic r1
        (fun st1 =>
           k (MState (m_pos st1) (m_prev st1) (m_rest st1)
                     ((n, (m_pos st, m_pos st1)) :: m_caps st1)))
        st
  | Bol => if Nat.eqb (m_pos st) 0 then k st else None
  | WordB => if xorb (word_before st) (word_after st) then k st else None
  end.

(** A successful match: where it ends and what the groups captured. *)
Record mresult : Type := MResult {
  r_subject : string;
  r_end : nat;
  r_caps : list (nat * (nat * nat))
}.

(** [re.match(pattern, s, flags)]: anchored at the start of [s]. *)
Definition re_match (ic : bool) (r : regex) (s : string) : option mresult :=
  match rmatch ic r Some (MState 0 None s []) with
  | Some st => Some (MResult s (m_pos st) (m_caps st))
  | None => None
  end.

Fixpoint lookup_cap (n : nat) (caps : list (nat * (nat * nat)))
  : option (nat * nat) :=
  match caps with
  | [] => None
  | (n', sp) :: rest => if Nat.eqb n n' then Some sp else lookup_cap n rest
  end.

(** [match.group(n)]: [None] for a group that took no part in the match. *)
Definition group (res : mresult) (n : nat) : option string :=
  match lookup_cap n (r_caps res) with
  | Some (b, e) => Some (substring b (e - b) (r_subject res))
  | None => None
  end.

Definition is_match (ic : bool) (r : regex) (s : string) : bool :=
  match re_match ic r s with Some _ => true | None => false end.

(** [pattern.finditer(s)]: the spans [(start, end)] of the matches, left
    to right and not overlapping.  [skip] counts the characters of the
    last match still to step over. *)
Fixpoint finditer_from (ic : bool) (r : regex) (skip : nat) (pos : nat)
         (prev : option ascii) (s : string) : list (nat * nat) :=
  match skip with
  | S n =>
      match s with
      | String c t => finditer_from ic r n (S pos) (Some c) t
      | EmptyString => []
      end
  | O =>
      match rmatch ic r Some (MState pos prev s []) with
      | Some st =>
          (pos, m_pos st)
            :: match s with
               | String c t =>
                   finditer_from ic r (m_pos st - pos - 1) (S pos) (Some c) t
               | EmptyString => []
               end
      | None =>
          match s with
          | String c t => finditer_from ic r 0 (S pos) (Some c) t
          | EmptyString => []
          end
      end
  end.

Definition finditer (ic : bool) (r : regex) (s : string) : list (nat * nat) :=
  finditer_from ic r 0 0 None s.

(** [re.sub(pattern, '', s)]: every match deleted. *)
Fixpoint sub_del_from (ic : bool) (r : regex) (skip : nat) (pos : nat)
         (prev : option ascii) (s : string) : string :=
  match skip with
  | S n =>
      match s with
      | String c t => sub_del_from ic r n (S pos) (Some c) t
      | EmptyString => EmptyString
      end
  | O =>
      match s with
      | String c t =>
          match rmatch ic r Some (MState pos prev s []) with
          | Some st =>
              if Nat.eqb (m_pos st) pos
              then String c (sub_del_from ic r 0 (S pos) (Some c) t)
              else sub_del_from ic r (m_pos st - pos - 1) (S pos) (Some c) t
          | None => String c (sub_del_from ic r 0 (S pos) (Some c) t)
          end
      | EmptyString => EmptyString
      end
  end.

Definition sub_del (ic : bool) (r : regex) (s : string) : string :=
  sub_del_from ic r 0 0 None s.

Declare Scope re_scope.
Delimit Scope re_scope with re.
Bind Scope re_scope with regex.
Infix ";;" := Cat (at level 61, right associativity) : re_scope.
Infix "<|>" := Alt (at level 62, right associativity) : re_scope.

(** The classes that the patterns of the source are made of. *)
Definition ws : cclass := CSet false [ISpace].                       (* \s *)
Definition digit : cclass := CSet false [IDigit].                    (* \d *)
Definition id_first : cclass := CSet false [IRange "A" "Z"; IChr "_"].
Definition id_next : cclass :=
  CSet false [IRange "A" "Z"; IRange "0" "9"; IChr "_"].
Definition none_of (cs : list ascii) : cclass := CSet true (map IChr cs).

(** [[A-Z_][A-Z0-9_]*] *)
Definition ident : regex := (Cls id_first ;; Star id_next)%re.

End Re.

(** ** Python dictionaries

    A [dict] keeps its keys in insertion order and assigning to a key
    that is present replaces the value in place: an association list
    without repeated keys. *)

Module Dict.

Definition t (V : Type) : Type := list (string * V).

Definition empty {V : Type} : t V := [].

(** [d.get(k)] *)
Fixpoint get {V : Type} (d : t V) (k : string) : option V :=
  match d with
  | [] => None
  | (k', v) :: rest => if String.eqb k k' then Some v else get rest k
  end.

(** [d[k] = v] *)
Fixpoint set {V : Type} (d : t V) (k : string) (v : V) : t V :=
  match d with
  | [] => [(k, v)]
  | (k', v') :: rest =>
      if String.eqb k k' then (k', v) :: rest else (k', v') :: set rest k v
  end.

(** [k in d] *)
Definition mem {V : Type} (d : t V) (k : string) : bool :=
  match get d k with Some _ => true | None => false end.

(** [d.keys()] and [d.items()], in iteration order. *)
Definition keys {V : Type} (d : t V) : list string := map fst d.
Definition items {V : Type} (d : t V) : list (string * V) := d.

Definition is_empty {V : Type} (d : t V) : bool :=
  match d with [] => true | _ => false end.

(** [del d[k]], used under the guard [k in d]. *)
Fixpoint del {V : Type} (d : t V) (k : string) : t V :=
  match d with
  | [] => []
  | (k', v) :: rest =>
      if String.eqb k k' then rest else (k', v) :: del rest k
  end.

End Dict.

(** ** Exceptions *)

Inductive exn : Type :=
| IndexError
| ValueError.

Inductive result (A : Type) : Type :=
| Ok (a : A)
| Raise (e : exn).

Arguments Ok {A} a.
Arguments Raise {A} e.

Definition bind {A B : Type} (x : result A) (f : A -> result B) : result B :=
  match x with
  | Ok a => f a
  | Raise e => Raise e
  end.

Notation "x <- e1 ;;; e2" := (bind e1 (fun x => e2))
  (at level 100, e1 at next level, right associativity).

(** [int(s)] on a string matching [-?\d+]: [ValueError] when [s] has more
    than [max_str_digits] digits, its value otherwise. *)
Definition int_of_str (s : string) : result Z :=
  if Nat.ltb PyStr.max_str_digits (String.length (PyStr.int_digits s))
  then Raise ValueError
  else Ok (PyStr.int_value s).

(** ** Data model *)

Inductive ChillMode : Type :=
| INT | BOOL | CHAR | CHARS | BOOLS | SET | RANGE | POWERSET | REF | STRUCT
| ARRAY | PROC | PROCESS | BUFFER | EVENT | SIGNAL | ASSOCIATION | ACCESS
| TEXT | DURATION | TIME | USER_DEFINED | UNKNOWN.

(** [mode.value] *)
Definition mode_value (m : ChillMode) : string :=
  match m with
  | INT => "INT" | BOOL => "BOOL" | CHAR => "CHAR" | CHARS => "CHARS"
  | BOOLS => "BOOLS" | SET => "SET" | RANGE => "RANGE"
  | POWERSET => "POWERSET" | REF => "REF" | STRUCT => "STRUCT"
  | ARRAY => "ARRAY" | PROC => "PROC" | PROCESS => "PROCESS"
  | BUFFER => "BUFFER" | EVENT => "EVENT" | SIGNAL => "SIGNAL"
  | ASSOCIATION => "ASSOCIATION" | ACCESS => "ACCESS" | TEXT => "TEXT"
  | DURATION => "DURATION" | TIME => "TIME" | USER_DEFINED => "USER"
  | UNKNOWN => "UNKNOWN"
  end.

Definition CHILL_RESERVED_WORDS : list string :=
  [ "ABSTRACT"; "ACCESS"; "AFTER"; "ALL"; "AND"; "ANDIF"; "ANY";
    "ARRAY"; "ASSERT"; "AT"; "BASED_ON"; "BEGIN"; "BIN"; "BODY";
    "BOOLS"; "BUFFER"; "BY"; "CASE"; "CAUSE"; "CHARS"; "CONTEXT";
    "CONTINUE"; "CYCLE"; "DCL"; "DELAY"; "DO"; "DOWN"; "DYNAMIC";
    "ELSE"; "ELSIF"; "END"; "ESAC"; "EVENT"; "EVER"; "EXCEPTIONS";
    "EXIT"; "FI"; "FINAL"; "FOR"; "FORBID"; "GENERAL"; "GENERIC";
    "GOTO"; "GRANT"; "IF"; "IMPLEMENTS"; "IN"; "INCOMPLETE"; "INIT";
    "INLINE"; "INOUT"; "INTERFACE"; "INVARIANT"; "LOC"; "MOD";
    "MODE"; "MODULE"; "NEW"; "NEWMODE"; "NONREF"; "NOPACK"; "NOT";
    "OD"; "OF"; "ON"; "OR"; "ORIF"; "OUT"; "PACK"; "POS"; "POST";
    "POWERSET"; "PRE"; "PREFIXED"; "PRIORITY"; "PROC"; "PROCESS";
    "RANGE"; "READ"; "RECEIVE"; "REF"; "REGION"; "REM"; "REMOTE";
    "RESULT"; "RETURN"; "RETURNS"; "ROW"; "SEIZE"; "SELF"; "SEND";
    "SET"; "SIGNAL"; "SIMPLE"; "SPEC"; "START"; "STATIC"; "STEP";
    "STOP"; "STRUCT"; "SYN"; "SYNMODE"; "TASK"; "TEXT"; "THEN";
    "THIS"; "TIMEOUT"; "TO"; "UP"; "VARYING"; "WCHARS"; "WHILE";
    "WITH"; "WTEXT"; "XOR"; "NOT_ASSIGNABLE"; "ANY_ASSIGN";
    "ANY_DISCRETE"; "ANY_INT"; "ANY_REAL"; "ASSIGNABLE"; "CONSTR";
    "DESTR"; "REIMPLEMENT" ].

Definition CHILL_PREDEFINED : list string :=
  [ "ABS"; "ABSTIME"; "ALLOCATE"; "ARCCOS"; "ARCSIN"; "ARCTAN";
    "ASSOCIATE"; "CARD"; "CONNECT"; "COS"; "CREATE"; "DELETE";
    "DISCONNECT"; "DISSOCIATE"; "EOLN"; "EXISTING"; "EXP"; "EXPIRED";
    "FIRST"; "FLOAT"; "GETASSOCIATION"; "GETSTACK"; "GETTEXTACCESS";
    "GETTEXTINDEX"; "GETTEXTRECORD"; "GETUSAGE"; "INDEXABLE";
    "INTTIME"; "ISASSOCIATED"; "LAST"; "LENGTH"; "LN"; "LOG"; "LOWER";
    "MAX"; "MIN"; "MODIFY"; "NUM"; "OUTOFFILE"; "PRED"; "PTR";
    "READABLE"; "READONLY"; "READRECORD"; "READTEXT"; "READWRITE";
    "SAME"; "SEQUENCIBLE"; "SETTEXTACCESS"; "SETTEXTINDEX";
    "SETTEXTRECORD"; "SIN"; "SIZE"; "SQRT"; "SUCC"; "TAN"; "TERMINATE";
    "UPPER"; "USAGE"; "VARIABLE"; "WAIT"; "WCHAR"; "WHERE";
    "WRITEABLE"; "WRITEONLY"; "WRITERECORD"; "WRITETEXT";
    "INT"; "BOOL"; "CHAR"; "DURATION"; "TIME"; "ASSOCIATION"; "INSTANCE";
    "BYTE"; "UBYTE"; "UINT"; "LONG"; "ULONG"; "REAL"; "LONG_REAL";
    "TRUE"; "FALSE"; "NULL";
    "DAYS"; "HOURS"; "MILLISECS"; "MINUTES"; "SECS";
    "SECONDS"; "MICROSECS" ].

(** [w in S] for a set of strings. *)
Definition in_set (w : string) (S : list string) : bool :=
  existsb (String.eqb w) S.

Record DclDefinition : Type := mkDcl {
  d_name : string;
  d_mode : ChillMode;
  d_mode_name : option string;
  d_size : option Z;
  d_dimensions : list (Z * Z);
  d_initial_value : option string;
  d_is_static : bool;
  d_is_dynamic : bool;
  d_is_loc : bool;
  d_is_read : bool;
  d_line_number : nat;
  d_column_start : Z;
  d_column_end : Z;
  d_parent_scope : option string
}.

Record NewmodeDefinition : Type := mkNewmode {
  n_name : string;
  n_base_mode : ChillMode;
  n_base_mode_name : option string;
  n_fields : Dict.t DclDefinition;
  n_enum_values : list string;
  n_range_low : option Z;
  n_range_high : option Z;
  n_element_mode : option string;
  n_dimensions : list (Z * Z);
  n_ref_mode : option string;
  n_is_packed : bool;
  n_line_number : nat;
  n_column_start : Z;
  n_column_end : Z
}.

Record SynDefinition : Type := mkSyn {
  s_name : string;
  s_value : string;
  s_mode : option string;
  s_line_number : nat
}.

(** A parameter [(name, mode, direction)]. *)
Definition parameter : Type := (string * string * string)%type.

Record ProcDefinition : Type := mkProc {
  p_name : string;
  p_parameters : list parameter;
  p_returns_mode : option string;
  p_is_general : bool;
  p_is_inline : bool;
  p_is_recursive : bool;
  p_exceptions : list string;
  p_local_dcls : Dict.t DclDefinition;
  p_local_modes : Dict.t NewmodeDefinition;
  p_line_start : nat;
  p_line_end : nat;
  p_body_start : nat
}.

Record ProcessDefinition : Type := mkProcess {
  ps_name : string;
  ps_parameters : list parameter;
  ps_priority : option Z;
  ps_local_dcls : Dict.t DclDefinition;
  ps_local_modes : Dict.t NewmodeDefinition;
  ps_line_start : nat;
  ps_line_end : nat
}.

Record ModuleDefinition : Type := mkModule {
  md_name : string;
  md_is_spec : bool;
  md_is_body : bool;
  md_grants : list string;
  md_seizes : list string;
  md_line_start : nat;
  md_line_end : nat
}.

Record SignalDefinition : Type := mkSignal {
  sg_name : string;
  sg_parameters : list (string * string);
  sg_line_number : nat
}.

(** ** The semantic model (symbol table) *)

Record ChillSemanticModel : Type := mkModel {
  dcls : Dict.t DclDefinition;
  modes : Dict.t NewmodeDefinition;
  synonyms : Dict.t SynDefinition;
  procs : Dict.t ProcDefinition;
  processes : Dict.t ProcessDefinition;
  modules : Dict.t ModuleDefinition;
  signals : Dict.t SignalDefinition;
  regions : Dict.t unit;
  current_scope : string;
  scope_stack : list string;
  module_name : option string
}.

(** [ChillSemanticModel()] *)
Definition new_model : ChillSemanticModel :=
  mkModel Dict.empty Dict.empty Dict.empty Dict.empty Dict.empty Dict.empty
          Dict.empty Dict.empty "GLOBAL" [] None.

Definition set_dcls (m : ChillSemanticModel) (d : Dict.t DclDefinition) :=
  mkModel d (modes m) (synonyms m) (procs m) (processes m) (modules m)
          (signals m) (regions m) (current_scope m) (scope_stack m)
          (module_name m).

Definition set_parent_scope (dcl : DclDefinition) (sc : string) :=
  mkDcl (d_name dcl) (d_mode dcl) (d_mode_name dcl) (d_size dcl)
        (d_dimensions dcl) (d_initial_value dcl) (d_is_static dcl)
        (d_is_dynamic dcl) (d_is_loc dcl) (d_is_read dcl) (d_line_number dcl)
        (d_column_start dcl) (d_column_end dcl) (Some sc).

Definition add_dcl (m : ChillSemanticModel) (dcl : DclDefinition)
  : ChillSemanticModel :=
  let dcl := set_parent_scope dcl (current_scope m) in
  let key := if negb (String.eqb (current_scope m) "GLOBAL")
             then (current_scope m ++ "." ++ d_name dcl)%string
             else d_name dcl in
  set_dcls m (Dict.set (Dict.set (dcls m) (d_name dcl) dcl) key dcl).

Definition get_dcl (m : ChillSemanticModel) (name : string)
  : option DclDefinition :=
  let scoped_name := (current_scope m ++ "." ++ name)%string in
  if Dict.mem (dcls m) scoped_name then Dict.get (dcls m) scoped_name
  else if Dict.mem (dcls m) name then Dict.get (dcls m) name
  else None.

Definition add_mode (m : ChillSemanticModel) (mode : NewmodeDefinition) :=
  mkModel (dcls m) (Dict.set (modes m) (n_name mode) mode) (synonyms m)
          (procs m) (processes m) (modules m) (signals m) (regions m)
          (current_scope m) (scope_stack m) (module_name m).

Definition get_mode (m : ChillSemanticModel) (name : string) :=
  Dict.get (modes m) name.

Definition add_proc (m : ChillSemanticModel) (proc : ProcDefinition) :=
  mkModel (dcls m) (modes m) (synonyms m)
          (Dict.set (procs m) (p_name proc) proc) (processes m) (modules m)
          (signals m) (regions m) (current_scope m) (scope_stack m)
          (module_name m).

Definition get_proc (m : ChillSemanticModel) (name : string) :=
  Dict.get (procs m) name.

Definition add_process (m : ChillSemanticModel) (process : ProcessDefinition) :=
  mkModel (dcls m) (modes m) (synonyms m) (procs m)
          (Dict.set (processes m) (ps_name process) process) (modules m)
          (signals m) (regions m) (current_scope m) (scope_stack m)
          (module_name m).

Definition add_module (m : ChillSemanticModel) (module : ModuleDefinition) :=
  mkModel (dcls m) (modes m) (synonyms m) (procs m) (processes m)
          (Dict.set (modules m) (md_name module) module)
          (signals m) (regions m) (current_scope m) (scope_stack m)
          (module_name m).

Definition add_synonym (m : ChillSemanticModel) (syn : SynDefinition) :=
  mkModel (dcls m) (modes m) (Dict.set (synonyms m) (s_name syn) syn)
          (procs m) (processes m) (modules m) (signals m) (regions m)
          (current_scope m) (scope_stack m) (module_name m).

Definition add_signal (m : ChillSemanticModel) (sig : SignalDefinition) :=
  mkModel (dcls m) (modes m) (synonyms m) (procs m) (processes m) (modules m)
          (Dict.set (signals m) (sg_name sig) sig) (regions m)
          (current_scope m) (scope_stack m) (module_name m).

Definition set_module_name (m : ChillSemanticModel) (name : string) :=
  mkModel (dcls m) (modes m) (synonyms m) (procs m) (processes m) (modules m)
          (signals m) (regions m) (current_scope m) (scope_stack m)
          (Some name).

Definition push_scope (m : ChillSemanticModel) (name : string) :=
  mkModel (dcls m) (modes m) (synonyms m) (procs m) (processes m) (modules m)
          (signals m) (regions m) name (scope_stack m ++ [current_scope m])
          (module_name m).

Definition pop_scope (m : ChillSemanticModel) : ChillSemanticModel :=
  match rev (scope_stack m) with
  | [] => m
  | top :: below =>
      mkModel (dcls m) (modes m) (synonyms m) (procs m) (processes m)
              (modules m) (signals m) (regions m) top (rev below)
              (module_name m)
  end.

(** [sorted(symbols, key=lambda x: x[2])]: a stable sort on the line. *)
Definition symbol : Type := (string * string * nat * nat)%type.

Definition sym_line (x : symbol) : nat := snd (fst x).

Fixpoint insert_by_line (x : symbol) (l : list symbol) : list symbol :=
  match l with
  | [] => [x]
  | y :: rest =>
      if Nat.leb (sym_line x) (sym_line y) then x :: l
      else y :: insert_by_line x rest
  end.

Definition sorted_by_line (l : list symbol) : list symbol :=
  fold_right insert_by_line [] l.

Definition get_all_symbols (m : ChillSemanticModel) : list symbol :=
  let symbols :=
    map (fun '(name, mode) =>
           (name, "MODE", n_line_number mode, n_line_number mode))
        (Dict.items (modes m))
    ++ map (fun '(name, dcl) =>
              (name, "DCL", d_line_number dcl, d_line_number dcl))
           (filter (fun '(name, _) => negb (PyStr.has_char "." name))
                   (Dict.items (dcls m)))
    ++ map (fun '(name, syn) =>
              (name, "SYN", s_line_number syn, s_line_number syn))
           (Dict.items (synonyms m))
    ++ map (fun '(name, proc) =>
              (name, "PROC", p_line_start proc, p_line_end proc))
           (Dict.items (procs m))
    ++ map (fun '(name, process) =>
              (name, "PROCESS", ps_line_start process, ps_line_end process))
           (Dict.items (processes m))
    ++ map (fun '(name, module) =>
              (name, "MODULE", md_line_start module, md_line_end module))
           (Dict.items (modules m))
    ++ map (fun '(name, sig) =>
              (name, "SIGNAL", sg_line_number sig, sg_line_number sig))
           (Dict.items (signals m)) in
  sorted_by_line symbols.

(** ** The parser *)

Import PyStr.
Import Re.

(** Truth value of an optional string: [None] and [''] are false. *)
Definition truthy (o : option string) : bool :=
  match o with
  | Some s => negb (is_empty s)
  | None => false
  end.

(** The patterns of [chill_semantic_parser.py], in order of appearance.
    In the comments ID abbreviates the identifier pattern [[A-Z_][A-Z0-9_]*]
    and ARGS the pattern [[^)]*]; every pattern but [re_block_comment],
    [re_is_proc], [re_is_process] and [re_nested] is used with
    [re.IGNORECASE]. *)

(* /\*.*?\*/ with DOTALL *)
Definition re_block_comment : regex :=
  (Lit "/*" ;; LazyStar CDotAll ;; Lit "*/")%re.

(* ^ID\s*:\s*PROC *)
Definition re_is_proc : regex :=
  (Bol ;; ident ;; Star ws ;; Lit ":" ;; Star ws ;; Lit "PROC")%re.

(* ^ID\s*:\s*PROCESS *)
Definition re_is_process : regex :=
  (Bol ;; ident ;; Star ws ;; Lit ":" ;; Star ws ;; Lit "PROCESS")%re.

(* MODULE\s+(ID) *)
Definition re_module : regex :=
  (Lit "MODULE" ;; Plus ws ;; Grp 1 ident)%re.

(* (?:NEWMODE|SYNMODE)\s+(ID)\s*=\s*(.+) *)
Definition re_newmode : regex :=
  ((Lit "NEWMODE" <|> Lit "SYNMODE") ;; Plus ws ;; Grp 1 ident ;; Star ws ;;
   Lit "=" ;; Star ws ;; Grp 2 (Plus CDot))%re.

(* SET\s*\(([^)]+)\) *)
Definition re_set : regex :=
  (Lit "SET" ;; Star ws ;; Lit "(" ;; Grp 1 (Plus (none_of [")"%char])) ;;
   Lit ")")%re.

(* RANGE\s*\(\s*(-?\d+)\s*:\s*(-?\d+)\s*\) *)
Definition re_range : regex :=
  (Lit "RANGE" ;; Star ws ;; Lit "(" ;; Star ws ;;
   Grp 1 (Opt (Lit "-") ;; Plus digit) ;; Star ws ;; Lit ":" ;; Star ws ;;
   Grp 2 (Opt (Lit "-") ;; Plus digit) ;; Star ws ;; Lit ")")%re.

(* STRUCT\s*\((.+)\) with DOTALL *)
Definition re_struct : regex :=
  (Lit "STRUCT" ;; Star ws ;; Lit "(" ;; Grp 1 (Plus CDotAll) ;; Lit ")")%re.

(* DCL\s+(ID)\s+([^:;]+)(?:\s*:=\s*([^;]+))?\s*;? *)
Definition re_dcl : regex :=
  (Lit "DCL" ;; Plus ws ;; Grp 1 ident ;; Plus ws ;;
   Grp 2 (Plus (none_of [":"%char; ";"%char])) ;;
   Opt (Star ws ;; Lit ":=" ;; Star ws ;; Grp 3 (Plus (none_of [";"%char]))) ;;
   Star ws ;; Opt (Lit ";"))%re.

(* SYN\s+(ID)(?:\s+(ID))?\s*=\s*([^;]+)\s*;? *)
Definition re_syn : regex :=
  (Lit "SYN" ;; Plus ws ;; Grp 1 ident ;; Opt (Plus ws ;; Grp 2 ident) ;;
   Star ws ;; Lit "=" ;; Star ws ;; Grp 3 (Plus (none_of [";"%char])) ;;
   Star ws ;; Opt (Lit ";"))%re.

(* (ID)\s*:\s*PROC\s*(?:\((ARGS)\))?\s*(?:RETURNS\s*\(([^)]+)\))? *)
Definition re_proc : regex :=
  (Grp 1 ident ;; Star ws ;; Lit ":" ;; Star ws ;; Lit "PROC" ;; Star ws ;;
   Opt (Lit "(" ;; Grp 2 (Star (none_of [")"%char])) ;; Lit ")") ;; Star ws ;;
   Opt (Lit "RETURNS" ;; Star ws ;; Lit "(" ;;
        Grp 3 (Plus (none_of [")"%char])) ;; Lit ")"))%re.

(* (ID)\s*:\s*PROCESS\s*(?:\((ARGS)\))? *)
Definition re_process : regex :=
  (Grp 1 ident ;; Star ws ;; Lit ":" ;; Star ws ;; Lit "PROCESS" ;; Star ws ;;
   Opt (Lit "(" ;; Grp 2 (Star (none_of [")"%char])) ;; Lit ")"))%re.

(* SIGNAL\s+(ID)(?:\s*\((ARGS)\))?\s*;? *)
Definition re_signal : regex :=
  (Lit "SIGNAL" ;; Plus ws ;; Grp 1 ident ;;
   Opt (Star ws ;; Lit "(" ;; Grp 2 (Star (none_of [")"%char])) ;; Lit ")") ;;
   Star ws ;; Opt (Lit ";"))%re.

(* \bINOUT\b, \bOUT\b, \bIN\b *)
Definition re_keyword (kw : string) : regex := (WordB ;; Lit kw ;; WordB)%re.

(* ^ID\s*:\s*(PROC|PROCESS|MODULE|REGION) *)
Definition re_nested : regex :=
  (Bol ;; ident ;; Star ws ;; Lit ":" ;; Star ws ;;
   Grp 1 (Lit "PROC" <|> Lit "PROCESS" <|> Lit "MODULE" <|> Lit "REGION"))%re.

(** [group(n)] of a group that always takes part in the match. *)
Definition group' (res : mresult) (n : nat) : string :=
  match group res n with Some s => s | None => EmptyString end.

Definition _preprocess (source : string) : string :=
  let source := sub_del false re_block_comment source in
  let lines := split_on "010" source in
  let result :=
    map (fun line => if contains "--" line then before "--" line else line)
        lines in
  join (String "010" EmptyString) result.

Definition _mode_str_to_enum (mode_str : string) : result ChillMode :=
  mode_upper <-
    (if negb (is_empty mode_str)
     then match split_ws (strip (upper mode_str)) with
          | first :: _ => Ok first
          | [] => Raise IndexError
          end
     else Ok "UNKNOWN") ;;;
  Ok (if String.eqb mode_upper "INT" then INT
      else if String.eqb mode_upper "BOOL" then BOOL
      else if String.eqb mode_upper "CHAR" then CHAR
      else if String.eqb mode_upper "CHARS" then CHARS
      else if String.eqb mode_upper "BOOLS" then BOOLS
      else if String.eqb mode_upper "SET" then SET
      else if String.eqb mode_upper "RANGE" then RANGE
      else if String.eqb mode_upper "POWERSET" then POWERSET
      else if String.eqb mode_upper "REF" then REF
      else if String.eqb mode_upper "STRUCT" then STRUCT
      else if String.eqb mode_upper "ARRAY" then ARRAY
      else if String.eqb mode_upper "PROC" then PROC
      else if String.eqb mode_upper "PROCESS" then PROCESS
      else if String.eqb mode_upper "BUFFER" then BUFFER
      else if String.eqb mode_upper "EVENT" then EVENT
      else if String.eqb mode_upper "SIGNAL" then SIGNAL
      else if String.eqb mode_upper "ASSOCIATION" then ASSOCIATION
      else if String.eqb mode_upper "ACCESS" then ACCESS
      else if String.eqb mode_upper "TEXT" then TEXT
      else if String.eqb mode_upper "DURATION" then DURATION
      else if String.eqb mode_upper "TIME" then TIME
      else if String.eqb mode_upper "BYTE" then INT
      else if String.eqb mode_upper "UBYTE" then INT
      else if String.eqb mode_upper "UINT" then INT
      else if String.eqb mode_upper "LONG" then INT
      else if String.eqb mode_upper "ULONG" then INT
      else if String.eqb mode_upper "REAL" then INT
      else if String.eqb mode_upper "LONG_REAL" then INT
      else USER_DEFINED).

Definition _is_builtin_mode (mode_str : string) : result bool :=
  match split_ws (upper mode_str) with
  | first :: _ =>
      Ok (in_set first
            [ "INT"; "BOOL"; "CHAR"; "CHARS"; "BOOLS"; "BYTE"; "UBYTE";
              "UINT"; "LONG"; "ULONG"; "REAL"; "LONG_REAL"; "DURATION";
              "TIME"; "ASSOCIATION"; "INSTANCE" ])
  | [] => Raise IndexError
  end.

Definition _infer_base_mode (mode_str : string) : result ChillMode :=
  let mode_upper := strip (upper mode_str) in
  if startswith mode_upper "SET" then Ok SET
  else if startswith mode_upper "RANGE" then Ok RANGE
  else if startswith mode_upper "STRUCT" then Ok STRUCT
  else if startswith mode_upper "ARRAY" then Ok ARRAY
  else if startswith mode_upper "REF" then Ok REF
  else if startswith mode_upper "POWERSET" then Ok POWERSET
  else if startswith mode_upper "CHARS" then Ok CHARS
  else if startswith mode_upper "BOOLS" then Ok BOOLS
  else if startswith mode_upper "PROC" then Ok PROC
  else if startswith mode_upper "BUFFER" then Ok BUFFER
  else if startswith mode_upper "EVENT" then Ok EVENT
  else if startswith mode_upper "SIGNAL" then Ok SIGNAL
  else _mode_str_to_enum mode_upper.

(** The loop of [_find_end]: [i] is the index of the first line of [rest]. *)
Fixpoint _find_end_loop (rest : list string) (i : nat) (depth : Z)
         (start_idx : nat) : nat :=
  match rest with
  | [] => start_idx + 1
  | l :: rest' =>
      let line := upper (strip l) in
      if is_match false re_nested line
      then _find_end_loop rest' (S i) (depth + 1)%Z start_idx
      else if startswith line "BEGIN"
      then _find_end_loop rest' (S i) (depth + 1)%Z start_idx
      else if startswith line "END"
      then let depth := (depth - 1)%Z in
           if Z.eqb depth 0 then i + 1
           else _find_end_loop rest' (S i) depth start_idx
      else _find_end_loop rest' (S i) depth start_idx
  end.

Definition _find_end (lines : list string) (start_idx : nat)
           (construct : string) : nat :=
  _find_end_loop (skipn (start_idx + 1) lines) (start_idx + 1) 1%Z start_idx.

Definition _parse_parameters_entry (param : string) : list parameter :=
  let param := strip param in
  if is_empty param then []
  else
    let '(direction, param) :=
      if contains "INOUT" (upper param)
      then ("INOUT", sub_del true (re_keyword "INOUT") param)
      else if contains "OUT" (upper param)
      then ("OUT", sub_del true (re_keyword "OUT") param)
      else if contains "IN" (upper param)
      then ("IN", sub_del true (re_keyword "IN") param)
      else ("IN", param) in
    let parts := split_ws (strip param) in
    if Nat.leb 2 (List.length parts)
    then [(hd EmptyString parts, last parts EmptyString, direction)]
    else if Nat.eqb (List.length parts) 1
    then [(hd EmptyString parts, "UNKNOWN", direction)]
    else [].

Definition _parse_parameters (params_str : string) : list parameter :=
  flat_map _parse_parameters_entry (split_on "," params_str).

Definition _parse_module (line : string) (line_num : nat)
           (m : ChillSemanticModel) : ChillSemanticModel :=
  match re_match true re_module line with
  | Some mt =>
      let name := group' mt 1 in
      let is_spec := contains "SPEC" (upper line) in
      let module := mkModule name is_spec false [] [] line_num 0 in
      let m := add_module m module in
      let m := set_module_name m name in
      push_scope m name
  | None => m
  end.

Definition new_field (name : string) (mode : ChillMode) : DclDefinition :=
  mkDcl name mode None None [] None false false false false 0 0%Z 0%Z None.

Fixpoint _parse_struct_fields_loop (fields : list string)
         (acc : Dict.t DclDefinition) : result (Dict.t DclDefinition) :=
  match fields with
  | [] => Ok acc
  | field :: rest =>
      let field := strip field in
      let parts := split_ws field in
      if Nat.leb 2 (List.length parts) then
        let field_name := hd EmptyString parts in
        let field_mode := if Nat.ltb 1 (List.length parts)
                          then last parts EmptyString else "UNKNOWN" in
        md <- _mode_str_to_enum field_mode ;;;
        _parse_struct_fields_loop rest
          (Dict.set acc field_name (new_field field_name md))
      else _parse_struct_fields_loop rest acc
  end.

(** Returns the [fields] dictionary of the mode, updated. *)
Definition _parse_struct_fields (mode_fields : Dict.t DclDefinition)
           (fields_str : string) : result (Dict.t DclDefinition) :=
  _parse_struct_fields_loop (split_on "," fields_str) mode_fields.

Definition _parse_newmode (line : string) (line_num : nat)
           (m : ChillSemanticModel) : result ChillSemanticModel :=
  match re_match true re_newmode line with
  | Some mt =>
      let name := group' mt 1 in
      let mode_def := strip (rstrip_char ";" (group' mt 2)) in
      base <- _infer_base_mode mode_def ;;;
      let enum_values :=
        match re_match true re_set mode_def with
        | Some set_match => map strip (split_on "," (group' set_match 1))
        | None => []
        end in
      range <-
        match re_match true re_range mode_def with
        | Some range_match =>
            range_low <- int_of_str (group' range_match 1) ;;;
            range_high <- int_of_str (group' range_match 2) ;;;
            Ok (Some range_low, Some range_high)
        | None => Ok (None, None)
        end ;;;
      let '(range_low, range_high) := range in
      fields <-
        match re_match true re_struct mode_def with
        | Some struct_match =>
            _parse_struct_fields Dict.empty (group' struct_match 1)
        | None => Ok Dict.empty
        end ;;;
      Ok (add_mode m
            (mkNewmode name base None fields enum_values range_low range_high
                       None [] None false line_num 0%Z 0%Z))
  | None => Ok m
  end.

Definition _parse_dcl (line : string) (line_num : nat)
           (m : ChillSemanticModel) : result ChillSemanticModel :=
  match re_match true re_dcl line with
  | Some mt =>
      let name := group' mt 1 in
      let mode_str := strip (group' mt 2) in
      let init_value :=
        if truthy (group mt 3) then Some (strip (group' mt 3)) else None in
      mode <- _mode_str_to_enum mode_str ;;;
      builtin <- _is_builtin_mode mode_str ;;;
      let dcl :=
        mkDcl name mode
              (if negb builtin then Some mode_str else None)
              None [] init_value
              (contains "STATIC" (upper mode_str))
              false false false line_num
              (find (upper line) (upper name))
              (find (upper line) (upper name) + Z.of_nat (String.length name))%Z
              None in
      Ok (add_dcl m dcl)
  | None => Ok m
  end.

Definition _parse_syn (line : string) (line_num : nat)
           (m : ChillSemanticModel) : ChillSemanticModel :=
  match re_match true re_syn line with
  | Some mt =>
      add_synonym m
        (mkSyn (group' mt 1) (strip (group' mt 3)) (group mt 2) line_num)
  | None => m
  end.

Definition _parse_proc (line : string) (line_num : nat)
           (all_lines : list string) (start_idx : nat)
           (m : ChillSemanticModel) : ChillSemanticModel :=
  match re_match true re_proc line with
  | Some mt =>
      let name := group' mt 1 in
      let params_str := group mt 2 in
      let returns := group mt 3 in
      let parameters :=
        if truthy params_str then _parse_parameters (group' mt 2) else [] in
      let line_end := _find_end all_lines start_idx "PROC" in
      add_proc m
        (mkProc name parameters
                (if truthy returns then Some (strip (group' mt 3)) else None)
                (contains "GENERAL" (upper line))
                false false [] Dict.empty Dict.empty line_num line_end 0)
  | None => m
  end.

Definition _parse_process (line : string) (line_num : nat)
           (all_lines : list string) (start_idx : nat)
           (m : ChillSemanticModel) : ChillSemanticModel :=
  match re_match true re_process line with
  | Some mt =>
      let name := group' mt 1 in
      let params_str := group mt 2 in
      let parameters :=
        if truthy params_str then _parse_parameters (group' mt 2) else [] in
      let line_end := _find_end all_lines start_idx "PROCESS" in
      add_process m
        (mkProcess name parameters None Dict.empty Dict.empty line_num line_end)
  | None => m
  end.

Definition _parse_signal_entry (param : string) : list (string * string) :=
  let parts := split_ws (strip param) in
  if Nat.leb 2 (List.length parts)
  then [(hd EmptyString parts, last parts EmptyString)]
  else [].

Definition _parse_signal (line : string) (line_num : nat)
           (m : ChillSemanticModel) : ChillSemanticModel :=
  match re_match true re_signal line with
  | Some mt =>
      let name := group' mt 1 in
      let params_str := group mt 2 in
      let parameters :=
        if truthy params_str
        then flat_map _parse_signal_entry (split_on "," (group' mt 2))
        else [] in
      add_signal m (mkSignal name parameters line_num)
  | None => m
  end.

(** One turn of the loop of [_parse_declarations], on line [i] of [lines]. *)
Definition _parse_line (lines : list string) (i : nat) (line : string)
           (m : ChillSemanticModel) : result ChillSemanticModel :=
  let line_num := i + 1 in
  let stripped := upper (strip line) in
  if startswith stripped "MODULE"
  then Ok (_parse_module stripped line_num m)
  else if startswith stripped "NEWMODE" || startswith stripped "SYNMODE"
  then _parse_newmode (strip line) line_num m
  else if startswith stripped "DCL"
  then _parse_dcl (strip line) line_num m
  else if startswith stripped "SYN"
  then Ok (_parse_syn (strip line) line_num m)
  else if is_match false re_is_proc stripped
  then Ok (_parse_proc (strip line) line_num lines i m)
  else if is_match false re_is_process stripped
  then Ok (_parse_process (strip line) line_num lines i m)
  else if startswith stripped "SIGNAL"
  then Ok (_parse_signal (strip line) line_num m)
  else Ok m.

(** The loop over [enumerate(lines)], from index [i] on; on an exception
    the model is left as the lines before had built it. *)
Fixpoint _parse_declarations_loop (lines rest : list string) (i : nat)
         (m : ChillSemanticModel) : ChillSemanticModel * result unit :=
  match rest with
  | [] => (m, Ok tt)
  | line :: rest' =>
      match _parse_line lines i line m with
      | Ok m' => _parse_declarations_loop lines rest' (S i) m'
      | Raise e => (m, Raise e)
      end
  end.

Definition _parse_declarations (source : string) (m : ChillSemanticModel)
  : ChillSemanticModel * result unit :=
  let lines := split_on "010" source in
  _parse_declarations_loop lines lines 0 m.

(** The parser object: its fields are the state that outlives a call. *)
Record ChillParser : Type := mkParser {
  model : ChillSemanticModel;
  lines : list string;
  current_line : nat
}.

(** [ChillParser()] *)
Definition new_parser : ChillParser := mkParser new_model [] 0.

(** [self.parse(source)]: the parser after the call and what the call
    returns or raises. *)
Definition parse (self : ChillParser) (source : string)
  : ChillParser * result ChillSemanticModel :=
  let self := mkParser new_model (lines self) (current_line self) in
  let self := mkParser (model self) (split_on "010" source) (current_line self) in
  let self := mkParser (model self) (lines self) 0 in
  let clean_lines := _preprocess source in
  let '(m, r) := _parse_declarations clean_lines (model self) in
  let self := mkParser m (lines self) (current_line self) in
  (self, match r with Ok _ => Ok (model self) | Raise e => Raise e end).

(** ** The query layer *)

(** [c.isalnum() or c == '_'] *)
Definition is_ident_char (c : ascii) : bool :=
  is_alnum c || Ascii.eqb c "_".

(** The loop [for i in range(column - 1, -1, -1)] of
    [get_completions_at_position], with [n] turns left: the next index
    is [n - 1]. *)
Fixpoint prefix_loop (line : string) (n : nat) (prefix : string) : string :=
  match n with
  | O => prefix
  | S i =>
      match String.get i line with
      | Some c =>
          if is_ident_char c then prefix_loop line i (String c prefix)
          else prefix
      | None => prefix
      end
  end.

Definition completion_prefix (line : string) (column : Z) : string :=
  prefix_loop line (Z.to_nat column) EmptyString.

Definition get_completions_at_position (m : ChillSemanticModel)
           (line : string) (column : Z) : list (string * string) :=
  let prefix := completion_prefix line column in
  let prefix_upper := upper prefix in
  map (fun kw => (kw, "keyword"))
      (filter (fun kw => startswith kw prefix_upper) CHILL_RESERVED_WORDS)
  ++ map (fun pred => (pred, "builtin"))
         (filter (fun pred => startswith pred prefix_upper) CHILL_PREDEFINED)
  ++ map (fun '(name, dcl) => (name, ("DCL " ++ mode_value (d_mode dcl))%string))
         (filter (fun '(name, _) =>
                    negb (has_char "." name)
                    && startswith (upper name) prefix_upper)
                 (Dict.items (dcls m)))
  ++ map (fun name => (name, "mode"))
         (filter (fun name => startswith (upper name) prefix_upper)
                 (Dict.keys (modes m)))
  ++ map (fun name => (name, "procedure"))
         (filter (fun name => startswith (upper name) prefix_upper)
                 (Dict.keys (procs m)))
  ++ map (fun name => (name, "constant"))
         (filter (fun name => startswith (upper name) prefix_upper)
                 (Dict.keys (synonyms m))).

Definition nl2 : string := String "010" (String "010" EmptyString).

(** An optional [int] inside an f-string. *)
Definition str_of_opt_int (o : option Z) : string :=
  match o with
  | Some z => str_of_int z
  | None => "None"
  end.

Definition hover_reserved (word : string) : string :=
  ("**" ++ word ++ "** - CHILL reserved word")%string.

Definition hover_predefined (word : string) : string :=
  ("**" ++ word ++ "** - CHILL predefined name")%string.

Definition hover_dcl (word : string) (dcl : DclDefinition) : string :=
  let info := ("**" ++ word ++ "** - DCL " ++ mode_value (d_mode dcl))%string in
  let info :=
    if truthy (d_mode_name dcl)
    then (info ++ " (" ++ match d_mode_name dcl with
                          | Some s => s | None => EmptyString
                          end ++ ")")%string
    else info in
  if truthy (d_initial_value dcl)
  then (info ++ nl2 ++ "Initial value: "
        ++ match d_initial_value dcl with
           | Some s => s | None => EmptyString
           end)%string
  else info.

Definition hover_mode (word : string) (mode : NewmodeDefinition) : string :=
  let info :=
    ("**" ++ word ++ "** - NEWMODE " ++ mode_value (n_base_mode mode))%string in
  let info :=
    match n_enum_values mode with
    | [] => info
    | _ => (info ++ nl2 ++ "Values: " ++ join ", " (n_enum_values mode))%string
    end in
  let info :=
    match n_range_low mode with
    | Some lo =>
        (info ++ nl2 ++ "Range: " ++ str_of_int lo ++ ":"
         ++ str_of_opt_int (n_range_high mode))%string
    | None => info
    end in
  if negb (Dict.is_empty (n_fields mode))
  then (info ++ nl2 ++ "Fields: " ++ join ", " (Dict.keys (n_fields mode)))%string
  else info.

Definition hover_proc (word : string) (proc : ProcDefinition) : string :=
  let params :=
    join ", "
         (map (fun p : parameter =>
                 let '(p0, p1, p2) := p in (p0 ++ " " ++ p2 ++ " " ++ p1)%string)
              (p_parameters proc)) in
  let info := ("**" ++ word ++ "** - PROC(" ++ params ++ ")")%string in
  if truthy (p_returns_mode proc)
  then (info ++ " RETURNS(" ++ match p_returns_mode proc with
                               | Some s => s | None => EmptyString
                               end ++ ")")%string
  else info.

Definition hover_syn (word : string) (syn : SynDefinition) : string :=
  ("**" ++ word ++ "** - SYN = " ++ s_value syn)%string.

Definition get_hover_info (m : ChillSemanticModel) (word : string)
  : option string :=
  let word_upper := upper word in
  if in_set word_upper CHILL_RESERVED_WORDS then Some (hover_reserved word)
  else if in_set word_upper CHILL_PREDEFINED then Some (hover_predefined word)
  else match get_dcl m word with
  | Some dcl => Some (hover_dcl word dcl)
  | None =>
  match get_mode m word with
  | Some mode => Some (hover_mode word mode)
  | None =>
  match get_proc m word with
  | Some proc => Some (hover_proc word proc)
  | None =>
  match Dict.get (synonyms m) word with
  | Some syn => Some (hover_syn word syn)
  | None => None
  end end end end.

(** ** Reference search of the language server *)

Record LSPPosition : Type := mkPosition { line : nat; character : nat }.
Record LSPRange : Type := mkRange { range_start : LSPPosition; range_end : LSPPosition }.

(** [while start > 0 and is_ident_char(line_text[start - 1]): start -= 1] *)
Fixpoint word_start (line_text : string) (start : nat) : nat :=
  match start with
  | O => O
  | S start' =>
      match String.get start' line_text with
      | Some c => if is_ident_char c then word_start line_text start' else start
      | None => start
      end
  end.

(** [while end < len(line_text) and is_ident_char(line_text[end]): end += 1];
    [rest] is [line_text[end:]]. *)
Fixpoint word_end (rest : string) (e : nat) : nat :=
  match rest with
  | String c t => if is_ident_char c then word_end t (S e) else e
  | EmptyString => e
  end.

Fixpoint drop (n : nat) (s : string) : string :=
  match n, s with
  | O, _ => s
  | S n', String _ t => drop n' t
  | S _, EmptyString => EmptyString
  end.

Definition _get_word_at_position (text : string) (line char : nat) : string :=
  let lines := split_on "010" text in
  match nth_error lines line with
  | None => EmptyString
  | Some line_text =>
      let char := if Nat.ltb (String.length line_text) char
                  then String.length line_text else char in
      let start := word_start line_text char in
      let e := word_end (drop char line_text) char in
      substring start (e - start) line_text
  end.

(** [re.compile(r'\b' + re.escape(word) + r'\b', re.IGNORECASE)]; the
    word is made of letters, digits and underscores, which [re.escape]
    leaves as they are. *)
Definition reference_pattern (word : string) : regex := re_keyword word.

Fixpoint references_loop (r : regex) (lines : list string) (i : nat)
  : list LSPRange :=
  match lines with
  | [] => []
  | line_text :: rest =>
      map (fun '(s, e) => mkRange (mkPosition i s) (mkPosition i e))
          (finditer true r line_text)
      ++ references_loop r rest (S i)
  end.

(** The result list of [_handle_references] for the document [text] and
    the cursor [position]. *)
Definition _handle_references (text : string) (position : LSPPosition)
  : list LSPRange :=
  let word := _get_word_at_position text (line position) (character position) in
  if is_empty word then []
  else references_loop (reference_pattern word) (split_on "010" text) 0.

(** ** Documents used as concrete inputs *)

(** A two-line block comment between two declarations. *)
Definition doc_block_comment : string :=
  "DCL a INT; /* first
second */
DCL b INT;".

(** A declaration of [x] at global scope and another in the body of [p]. *)
Definition doc_two_x : string :=
  "DCL x INT;
p: PROC();
  DCL x BOOL;
END p;".



(** The model that [parse] returns on a fresh parser, the empty model
    standing in when it raises. *)
Definition parsed (source : string) : ChillSemanticModel :=
  match snd (parse new_parser source) with
  | Ok m => m
  | Raise _ => new_model
  end.

(** Every character of [s] is a letter, a digit or an underscore. *)
Fixpoint all_ident (s : string) : bool :=
  match s with
  | EmptyString => true
  | String c t => is_ident_char c && all_ident t
  end.

(** [p] is the maximal run of letters, digits and underscores of [line]
    that ends just before offset [column]: it is made of such characters,
    it is the text of [line] from [column - len p] to [column], and the
    character before it, if there is one, is not of that kind.  (Past the
    end of the line the run is empty.) *)
Definition is_run_before (line : string) (column : nat) (p : string) : Prop :=
  all_ident p = true
  /\ String.length p <= column
  /\ substring (column - String.length p) (String.length p) line = p
  /\ (String.length p < column ->
      match String.get (column - String.length p - 1) line with
      | Some c => is_ident_char c = false
      | None => True
      end).

(** A model that holds the name [worker] as a process only. *)
Definition worker_process : ProcessDefinition :=
  mkProcess "worker" [("id", "INT", "IN")] None Dict.empty Dict.empty 7 9.

Definition model_with_process : ChillSemanticModel :=
  add_process new_model worker_process.

(** The test program at the end of [chill_semantic_parser.py]. *)
Definition test_code : string :=
"
    MODULE example;

    NEWMODE counter = RANGE(0:65535);
    NEWMODE status = SET(idle, active, error);
    NEWMODE point = STRUCT(x INT, y INT);

    SYN max_size = 100;

    DCL count counter := 0;
    DCL state status := idle;
    DCL position point;

    handler: PROC(input INT) RETURNS(INT);
      DCL result INT;
      result := input * 2;
      RETURN result;
    END handler;

    worker: PROCESS(id INT);
      DO WHILE TRUE;
        DELAY 1 SECONDS;
      OD;
    END worker;

    END example;
    ".

(** A procedure with a nested block. *)
Definition lines_nested_block : list string :=
  ["p: PROC();"; "  BEGIN"; "  END;"; "END p;"; "DCL z INT;"].

(** What a line does to the nesting depth: a header of a nested procedure,
    process, module or region and a line beginning with [BEGIN] open a
    level, a line beginning with [END] closes one.  (A header line counts
    as a header whatever its label begins with.) *)
Definition line_delta (l : string) : Z :=
  let line := upper (strip l) in
  if is_match false re_nested line || startswith line "BEGIN" then 1%Z
  else if startswith line "END" then (-1)%Z
  else 0%Z.

(** The depth after the first [n] lines of [rest], from depth [d]. *)
Definition depth_run (d : Z) (rest : list string) (n : nat) : Z :=
  fold_left (fun d l => (d + line_delta l)%Z) (firstn n rest) d.

(** The depth counter after the lines [start_idx + 1 .. k] (0-based) that
    follow the header at index [start_idx], starting from 1. *)
Definition depth_after (lines : list string) (start_idx k : nat) : Z :=
  depth_run 1%Z (skipn (start_idx + 1) lines) (k - start_idx).

(** Line [k] is the first line after the header at which the depth is 0. *)
Definition closes_at (lines : list string) (start_idx k : nat) : Prop :=
  start_idx < k < List.length lines
  /\ depth_after lines start_idx k = 0%Z
  /\ forall j, start_idx < j < k -> depth_after lines start_idx j <> 0%Z.

(** [word] stands in [line_text] at offset [j] as a whole word, case
    ignored: the [len word] characters from [j] on are those of [word] up
    to case, and neither the character before them nor the one after
    them, where there is one, is a letter, a digit or an underscore. *)
Definition whole_word_at (word line_text : string) (j : nat) : Prop :=
  upper (substring j (String.length word) line_text) = upper word
  /\ match j with
     | O => True
     | S j' => match String.get j' line_text with
               | Some c => is_word c = false
               | None => True
               end
     end
  /\ match String.get (j + String.length word) line_text with
     | Some c => is_word c = false
     | None => True
     end.

(** [lit] is a prefix of [s], case ignored. *)
Fixpoint prefix_ci (lit s : string) : bool :=
  match lit with
  | EmptyString => true
  | String a lit' =>
      match s with
      | String c t => char_eq true a c && prefix_ci lit' t
      | EmptyString => false
      end
  end.

(** The character before offset [n] of [s], [prev] being the one before
    [s]. *)
Definition prev_at (n : nat) (prev : option ascii) (s : string)
  : option ascii :=
  match n with
  | O => prev
  | S n' => String.get n' s
  end.

Definition is_word_opt (o : option ascii) : bool :=
  match o with Some c => is_word c | None => false end.

Definition first_char (s : string) : option ascii :=
  match s with String c _ => Some c | EmptyString => None end.

(** The pattern [\bword\b] matches at the head of [s], the character
    before being [prev]. *)
Definition match_here (word : string) (prev : option ascii) (s : string)
  : bool :=
  xorb (is_word_opt prev) (is_word_opt (first_char s))
  && prefix_ci word s
  && xorb (is_word_opt (prev_at (String.length word) prev s))
          (is_word_opt (first_char (drop (String.length word) s))).

(** The spans of [\bword\b] in [s], every offset tried in turn. *)
Fixpoint occurrences (word : string) (pos : nat) (prev : option ascii)
         (s : string) : list (nat * nat) :=
  (if match_here word prev s then [(pos, pos + String.length word)] else [])
  ++ match s with
     | String c t => occurrences word (S pos) (Some c) t
     | EmptyString => []
     end.

(** A search for [count] with the cursor on line 0. *)
Definition doc_count : string :=
  "n := count + 1;
Count accounting COUNT_2 (count)".

(** The same count with the three kinds of line taken apart: what the
    headers and the [BEGIN] lines add, less what the [END] lines take. *)
Definition line_delta_sum (l : string) : Z :=
  let line := upper (strip l) in
  ((if is_match false re_nested line || startswith line "BEGIN"
    then 1 else 0)
   - (if startswith line "END" then 1 else 0))%Z.

(** A module that is closed before a declaration follows. *)
Definition doc_after_module : string :=
  "MODULE a;
END a;
DCL x INT;".

(** No line of [ls] is a module header for the scanner. *)
Definition no_module_line (ls : list string) : Prop :=
  Forall (fun l => startswith (upper (strip l)) "MODULE" = false) ls.

(** Every character of [s] is white space ([s.isspace()], or [s] empty). *)
Fixpoint all_space (s : string) : bool :=
  match s with
  | EmptyString => true
  | String c t => is_space c && all_space t
  end.

(** A line that the scanner reads as a declaration, that the declaration
    pattern matches, and whose mode text (group 2) is blank. *)
Definition blank_mode_dcl (line_text : string) : bool :=
  let stripped := upper (strip line_text) in
  negb (startswith stripped "MODULE")
  && negb (startswith stripped "NEWMODE" || startswith stripped "SYNMODE")
  && startswith stripped "DCL"
  && match re_match true re_dcl (strip line_text) with
     | Some mt => is_empty (strip (group' mt 2))
     | None => false
     end.

(** What [_preprocess] does to one line once the block comments are gone:
    the text from the first [--] on is cut. *)
Definition cut_line_comment (l : string) : string :=
  if contains "--" l then before "--" l else l.

(** The symbols of [get_all_symbols] before they are sorted. *)
Definition unsorted_symbols (m : ChillSemanticModel) : list symbol :=
  map (fun '(name, mode) =>
         (name, "MODE", n_line_number mode, n_line_number mode))
      (Dict.items (modes m))
  ++ map (fun '(name, dcl) =>
            (name, "DCL", d_line_number dcl, d_line_number dcl))
         (filter (fun '(name, _) => negb (has_char "." name))
                 (Dict.items (dcls m)))
  ++ map (fun '(name, syn) =>
            (name, "SYN", s_line_number syn, s_line_number syn))
         (Dict.items (synonyms m))
  ++ map (fun '(name, proc) =>
            (name, "PROC", p_line_start proc, p_line_end proc))
         (Dict.items (procs m))
  ++ map (fun '(name, process) =>
            (name, "PROCESS", ps_line_start process, ps_line_end process))
         (Dict.items (processes m))
  ++ map (fun '(name, module) =>
            (name, "MODULE", md_line_start module, md_line_end module))
         (Dict.items (modules m))
  ++ map (fun '(name, sig) =>
            (name, "SIGNAL", sg_line_number sig, sg_line_number sig))
         (Dict.items (signals m)).

(** The start lines of a list of symbols do not decrease. *)
Definition by_line (a b : symbol) : Prop := sym_line a <= sym_line b.

(** [s] holds no white space. *)
Fixpoint no_space (s : string) : bool :=
  match s with
  | EmptyString => true
  | String c t => negb (is_space c) && no_space t
  end.

(** A token: not empty and without white space. *)
Definition is_token (t : string) : Prop := t <> "" /\ no_space t = true.

(** A parameter as [_parse_parameters] may produce it. *)
Definition parameter_ok (p : parameter) : Prop :=
  let '(name, mode, direction) := p in
  is_token name /\ is_token mode
  /\ (direction = "IN" \/ direction = "OUT" \/ direction = "INOUT").

(** An identifier: letters, digits and underscores, at least one, the
    first not a digit. *)
Definition is_identifier (t : string) : Prop :=
  all_ident t = true
  /\ match t with
     | String c _ => is_digit c = false
     | EmptyString => False
     end.

(** In the pattern [r], group 1, where it occurs, is the identifier
    pattern. *)
Inductive names_by_ident : regex -> Prop :=
| nbi_name : names_by_ident (Grp 1 ident)
| nbi_grp n r : n <> 1 -> names_by_ident r -> names_by_ident (Grp n r)
| nbi_eps : names_by_ident Eps
| nbi_lit s : names_by_ident (Lit s)
| nbi_cls cl : names_by_ident (Cls cl)
| nbi_star cl : names_by_ident (Star cl)
| nbi_plus cl : names_by_ident (Plus cl)
| nbi_lazy cl : names_by_ident (LazyStar cl)
| nbi_bol : names_by_ident Bol
| nbi_wordb : names_by_ident WordB
| nbi_opt r : names_by_ident r -> names_by_ident (Opt r)
| nbi_cat r1 r2 :
    names_by_ident r1 -> names_by_ident r2 -> names_by_ident (Cat r1 r2)
| nbi_alt r1 r2 :
    names_by_ident r1 -> names_by_ident r2 -> names_by_ident (Alt r1 r2).

(** Every match of [r] goes through group 1. *)
Inductive binds_name : regex -> Prop :=
| bn_name r : binds_name (Grp 1 r)
| bn_cat_l r1 r2 : binds_name r1 -> binds_name (Cat r1 r2)
| bn_cat_r r1 r2 : binds_name r2 -> binds_name (Cat r1 r2).

(** The matcher stands at offset [m_pos] of the subject [s]. *)
Definition at_offset (s : string) (st : mstate) : Prop :=
  m_rest st = drop (m_pos st) s.

(** What group 1 has captured so far is an identifier of [s]. *)
Definition name_captured (s : string) (st : mstate) : Prop :=
  forall b e, lookup_cap 1 (m_caps st) = Some (b, e) ->
              is_identifier (substring b (e - b) s).

Definition has_name (st : mstate) : Prop :=
  lookup_cap 1 (m_caps st) <> None.

(** The entity [name], recorded with the 1-based line number [n], stands
    on a line of [ls] whose stripped, upper-cased text passes [test], and
    its name is an identifier. *)
Definition recorded_at (ls : list string) (test : string -> bool)
           (name : string) (n : nat) : Prop :=
  is_identifier name
  /\ 1 <= n
  /\ exists l, nth_error ls (n - 1) = Some l /\ test (upper (strip l)) = true.

(** What the scanner keeps true of the seven tables while it reads the
    lines [ls]. *)
Definition model_wf (ls : list string) (m : ChillSemanticModel) : Prop :=
  (forall k d, In (k, d) (Dict.items (dcls m)) ->
     recorded_at ls (fun u => startswith u "DCL") (d_name d) (d_line_number d)
     /\ (k = d_name d \/ exists sc, k = (sc ++ "." ++ d_name d)%string)
     /\ In (d_name d) (Dict.keys (dcls m)))
  /\ (forall k v, In (k, v) (Dict.items (modes m)) ->
        k = n_name v
        /\ recorded_at ls (fun u => startswith u "NEWMODE"
                                    || startswith u "SYNMODE")
                       k (n_line_number v))
  /\ (forall k v, In (k, v) (Dict.items (synonyms m)) ->
        k = s_name v
        /\ recorded_at ls (fun u => startswith u "SYN") k (s_line_number v))
  /\ (forall k v, In (k, v) (Dict.items (procs m)) ->
        k = p_name v
        /\ recorded_at ls (is_match false re_is_proc) k (p_line_start v)
        /\ p_line_start v <= p_line_end v <= List.length ls)
  /\ (forall k v, In (k, v) (Dict.items (processes m)) ->
        k = ps_name v
        /\ recorded_at ls (is_match false re_is_process) k (ps_line_start v)
        /\ ps_line_start v <= ps_line_end v <= List.length ls)
  /\ (forall k v, In (k, v) (Dict.items (modules m)) ->
        k = md_name v
        /\ recorded_at ls (fun u => startswith u "MODULE") k (md_line_start v)
        /\ upper k = k)
  /\ (forall k v, In (k, v) (Dict.items (signals m)) ->
        k = sg_name v
        /\ recorded_at ls (fun u => startswith u "SIGNAL") k
                       (sg_line_number v)).

(** ** The language server: documents, hover and definition *)

Definition KEYWORD_DOCS : Dict.t string :=
  [
    ("MODULE", "Defines a module - the basic unit of CHILL program structure");
    ("DCL", "Declares a variable with a specified mode (type)");
    ("NEWMODE", "Defines a new mode (type) derived from existing modes");
    ("SYNMODE", "Defines a synonym mode (type alias)");
    ("SYN", "Defines a synonym (named constant)");
    ("PROC", "Defines a procedure");
    ("PROCESS", "Defines a concurrent process");
    ("SIGNAL", "Defines a signal for inter-process communication");
    ("BUFFER", "Declares a buffer for inter-process message passing");
    ("EVENT", "Declares an event for process synchronization");
    ("REGION", "Defines a protected region for mutual exclusion");
    ("IF", "Conditional statement");
    ("THEN", "Introduces the consequent of IF");
    ("ELSE", "Introduces the alternative of IF");
    ("ELSIF", "Introduces an alternative condition");
    ("FI", "Terminates IF statement");
    ("CASE", "Case selection statement");
    ("ESAC", "Terminates CASE statement");
    ("DO", "Begins a loop construct");
    ("OD", "Terminates a DO loop");
    ("WHILE", "Loop while condition is true");
    ("FOR", "Counted loop");
    ("EXIT", "Exit from a loop");
    ("RETURN", "Return from procedure with optional value");
    ("GOTO", "Unconditional jump (discouraged)");
    ("SEND", "Send a signal to a process");
    ("RECEIVE", "Receive a signal from a process");
    ("DELAY", "Delay process execution for a duration");
    ("START", "Start a new process instance");
    ("STOP", "Stop the current process");
    ("BEGIN", "Begin a block");
    ("END", "End a block or construct");
    ("GRANT", "Make names visible outside module");
    ("SEIZE", "Access names from another module");
    ("INT", "Integer mode");
    ("BOOL", "Boolean mode (TRUE/FALSE)");
    ("CHAR", "Character mode");
    ("CHARS", "Character string mode");
    ("BOOLS", "Bit string mode");
    ("SET", "Enumeration mode");
    ("RANGE", "Integer subrange mode");
    ("POWERSET", "Set of discrete values mode");
    ("REF", "Reference (pointer) mode");
    ("STRUCT", "Structure mode (record)");
    ("ARRAY", "Array mode");
    ("STATIC", "Static storage duration");
    ("INIT", "Initialize with value");
    ("LOC", "Local (stack) storage");
    ("READ", "Read-only attribute");
    ("AND", "Logical AND operator");
    ("OR", "Logical OR operator");
    ("NOT", "Logical NOT operator");
    ("XOR", "Logical exclusive OR operator");
    ("ANDIF", "Short-circuit AND (evaluates right only if left is TRUE)");
    ("ORIF", "Short-circuit OR (evaluates right only if left is FALSE)");
    ("MOD", "Modulo operator");
    ("REM", "Remainder operator");
    ("TRUE", "Boolean true value");
    ("FALSE", "Boolean false value");
    ("NULL", "Null reference value") ].

(** The state of the server: the open documents and their models, by URI. *)
Record ChillLSPServer : Type := mkServer {
  documents : Dict.t string;
  models : Dict.t ChillSemanticModel
}.

(** [ChillLSPServer()] *)
Definition new_server : ChillLSPServer := mkServer Dict.empty Dict.empty.

(** [_parse_document]: the server after the call and whether the call
    returned or raised. *)
Definition _parse_document (self : ChillLSPServer) (uri : string)
  : ChillLSPServer * result unit :=
  match Dict.get (documents self) uri with
  | None => (self, Ok tt)
  | Some text =>
      match snd (parse new_parser text) with
      | Ok m => (mkServer (documents self) (Dict.set (models self) uri m), Ok tt)
      | Raise e => (self, Raise e)
      end
  end.

(** [_handle_did_open], for the parameters [textDocument.uri] and
    [textDocument.text]. *)
Definition _handle_did_open (self : ChillLSPServer) (uri text : string)
  : ChillLSPServer * result unit :=
  let self := mkServer (Dict.set (documents self) uri text) (models self) in
  _parse_document self uri.

(** [_handle_did_change]; a change is its [text] field, [None] when the
    field is missing. *)
Definition _handle_did_change (self : ChillLSPServer) (uri : string)
           (changes : list (option string)) : ChillLSPServer * result unit :=
  match changes with
  | [] => (self, Ok tt)
  | _ =>
      let text := match last changes None with
                  | Some t => t
                  | None => EmptyString
                  end in
      let self := mkServer (Dict.set (documents self) uri text) (models self) in
      _parse_document self uri
  end.

Definition _handle_did_close (self : ChillLSPServer) (uri : string)
  : ChillLSPServer :=
  let self :=
    if Dict.mem (documents self) uri
    then mkServer (Dict.del (documents self) uri) (models self)
    else self in
  if Dict.mem (models self) uri
  then mkServer (documents self) (Dict.del (models self) uri)
  else self.

(** [self.models.get(uri, ChillSemanticModel())] *)
Definition model_of (self : ChillLSPServer) (uri : string)
  : ChillSemanticModel :=
  match Dict.get (models self) uri with
  | Some m => m
  | None => new_model
  end.

(** The [contents.value] of the answer of [_handle_hover], [None] for the
    answer [result: null]. *)
Definition _handle_hover (self : ChillLSPServer) (uri : string)
           (position : LSPPosition) : option string :=
  match Dict.get (documents self) uri with
  | None => None
  | Some text =>
      let word :=
        _get_word_at_position text (line position) (character position) in
      if is_empty word then None
      else
        let m := model_of self uri in
        let hover_info := get_hover_info m word in
        if truthy hover_info then hover_info
        else
          match Dict.get KEYWORD_DOCS (upper word) with
          | Some doc => Some ("**" ++ word ++ "** - " ++ doc)%string
          | None => None
          end
  end.

(** The line that [_handle_definition] finds for [word], 0-based. *)
Definition definition_line (m : ChillSemanticModel) (word : string)
  : option Z :=
  let def_line :=
    match get_dcl m word with
    | Some dcl => Some (Z.of_nat (d_line_number dcl) - 1)%Z
    | None => None
    end in
  let def_line :=
    match def_line with
    | Some _ => def_line
    | None => match get_mode m word with
              | Some mode => Some (Z.of_nat (n_line_number mode) - 1)%Z
              | None => None
              end
    end in
  let def_line :=
    match def_line with
    | Some _ => def_line
    | None => match get_proc m word with
              | Some proc => Some (Z.of_nat (p_line_start proc) - 1)%Z
              | None => None
              end
    end in
  let def_line :=
    match def_line with
    | Some _ => def_line
    | None => match Dict.get (processes m) word with
              | Some process => Some (Z.of_nat (ps_line_start process) - 1)%Z
              | None => None
              end
    end in
  match def_line with
  | Some _ => def_line
  | None => match Dict.get (synonyms m) word with
            | Some syn => Some (Z.of_nat (s_line_number syn) - 1)%Z
            | None => None
            end
  end.

(** The range of the location that [_handle_definition] answers with,
    [None] for the answer [result: null]. *)
Definition _handle_definition (self : ChillLSPServer) (uri : string)
           (position : LSPPosition) : option LSPRange :=
  match Dict.get (documents self) uri with
  | None => None
  | Some text =>
      let word :=
        _get_word_at_position text (line position) (character position) in
      if is_empty word then None
      else
        match definition_line (model_of self uri) word with
        | None => None
        | Some def_line =>
            if (def_line <? 0)%Z then None
            else Some (mkRange (mkPosition (Z.to_nat def_line) 0)
                               (mkPosition (Z.to_nat def_line) 100))
        end
  end.

(** The dictionaries of the server hold no key twice. *)
Definition server_wf (self : ChillLSPServer) : Prop :=
  NoDup (Dict.keys (documents self)) /\ NoDup (Dict.keys (models self)).

(** The range [r1] ends before [r2] begins: on an earlier line, or on the
    same line and no further than where [r2] starts. *)
Definition range_precedes (r1 r2 : LSPRange) : Prop :=
  line (range_start r1) < line (range_start r2)
  \/ (line (range_start r1) = line (range_start r2)
      /\ character (range_end r1) <= character (range_start r2)).

Definition span_precedes (x y : nat * nat) : Prop := snd x <= fst y.

(** The mode text is a range one of whose bounds has more digits than
    [int] converts. *)
Definition range_too_long (mode_def : string) : bool :=
  match re_match true re_range mode_def with
  | Some range_match =>
      Nat.ltb max_str_digits
              (String.length (int_digits (group' range_match 1)))
      || Nat.ltb max_str_digits
                 (String.length (int_digits (group' range_match 2)))
  | None => false
  end.

(** The line matches the pattern of a mode definition and its mode text is
    such a range. *)
Definition long_range_mode (line_text : string) : bool :=
  match re_match true re_newmode line_text with
  | Some mt => range_too_long (strip (rstrip_char ";" (group' mt 2)))
  | None => false
  end.

(** A line that the scanner reads as a mode definition with such a
    range. *)
Definition long_range_newmode (line_text : string) : bool :=
  let stripped := upper (strip line_text) in
  negb (startswith stripped "MODULE")
  && (startswith stripped "NEWMODE" || startswith stripped "SYNMODE")
  && long_range_mode (strip line_text).

(** What the line makes the scanner raise, if anything. *)
Definition raising_line (line_text : string) : option exn :=
  if blank_mode_dcl line_text then Some IndexError
  else if long_range_newmode line_text then Some ValueError
  else None.

(** What the first raising line of [ls] raises. *)
Fixpoint first_raise (ls : list string) : option exn :=
  match ls with
  | [] => None
  | l :: rest =>
      match raising_line l with
      | Some e => Some e
      | None => first_raise rest
      end
  end.

(** Every character of the text is an ASCII character. *)
Fixpoint is_ascii_text (s : string) : bool :=
  match s with
  | EmptyString => true
  | String c t => Nat.ltb (code c) 128 && is_ascii_text t
  end.

(** ['9' * n] *)
Fixpoint nines (n : nat) : string :=
  match n with
  | O => EmptyString
  | S n' => String "9" (nines n')
  end.

(** ** The body's end by keywords *)

(** A procedure whose body assigns to a variable named [endless]. *)
Definition doc_endless : string :=
  "handler: PROC(input INT) RETURNS(INT);
  endless := input * 2;
  RETURN endless;
END handler;".

(** A procedure whose body assigns to a variable named [beginning]. *)
Definition doc_beginning : string :=
  "handler: PROC(input INT) RETURNS(INT);
  beginning := 1;
END handler;".

(** [line] begins with the keyword [kw]: with its letters, and what comes
    after them, if anything, is no letter, digit or underscore. *)
Definition begins_with_keyword (line kw : string) : bool :=
  startswith line kw
  && negb (is_word_opt (String.get (String.length kw) line)).

(** What a line does to the nesting depth when the block-open and the
    block-close keyword are read as words: a header of a nested construct
    and a line that begins with the keyword [BEGIN] open a level, a line
    that begins with the keyword [END] closes one. *)
Definition keyword_delta (l : string) : Z :=
  let line := upper (strip l) in
  if is_match false re_nested line || begins_with_keyword line "BEGIN"
  then 1%Z
  else if begins_with_keyword line "END" then (-1)%Z
  else 0%Z.

(** The end of the body by that reading: the 1-based number of the first
    line after the header at which the depth, counted from 1, is 0, and
    the header's own line when there is none. *)
Fixpoint matching_end_loop (rest : list string) (i : nat) (depth : Z)
         (start_idx : nat) : nat :=
  match rest with
  | [] => start_idx + 1
  | l :: rest' =>
      let depth' := (depth + keyword_delta l)%Z in
      if (keyword_delta l =? -1)%Z && (depth' =? 0)%Z then i + 1
      else matching_end_loop rest' (S i) depth' start_idx
  end.

Definition matching_end (all_lines : list string) (start_idx : nat) : nat :=
  matching_end_loop (skipn (start_idx + 1) all_lines) (start_idx + 1) 1%Z
                    start_idx.

(** ** The parts of a hover text *)

(** An optional part of a description: [render s] when the field holds a
    text that is not empty, nothing otherwise. *)
Definition when_text (field : option string) (render : string -> string)
  : string :=
  match field with
  | Some s => if is_empty s then EmptyString else render s
  | None => EmptyString
  end.

(** [render items] when there is an item, nothing otherwise. *)
Definition when_items (items : list string)
           (render : list string -> string) : string :=
  match items with
  | [] => EmptyString
  | _ => render items
  end.

(** The integer, if there is one, has at most [max_str_digits] digits:
    [str] renders it.  (Beyond that [str] raises [ValueError], as [int]
    does; every integer that [int] returns is within the limit.) *)
Definition int_renders (o : option Z) : Prop :=
  match o with
  | Some z => (Z.abs z < 10 ^ Z.of_nat max_str_digits)%Z
  | None => True
  end.

(** A model with one entry in each of the tables that hover consults. *)
Definition model_hover : ChillSemanticModel :=
  add_synonym
    (add_proc
       (add_mode
          (add_dcl new_model
             (mkDcl "count" INT (Some "counter") None [] (Some "0") false
                    false false false 1 4%Z 9%Z None))
          (mkNewmode "counter" RANGE None Dict.empty [] (Some 0%Z)
                     (Some 65535%Z) None [] None false 2 0%Z 0%Z))
       (mkProc "handler" [("input", "INT", "IN")] (Some "INT") false false
               false [] Dict.empty Dict.empty 3 5 4))
    (mkSyn "max_size" "100" None 6).

(** * Properties *)

(** ** Dictionaries *)

Section DictFacts.
Context {V : Type}.
Implicit Types (d : Dict.t V) (k : string) (v : V).

Lemma dict_get_set_eq d k v : Dict.get (Dict.set d k v) k = Some v.
Proof.
  induction d as [|[k' v'] d IH]; simpl.
  - now rewrite String.eqb_refl.
  - destruct (String.eqb k k') eqn:E; simpl; rewrite E; auto.
Qed.

Lemma dict_get_set_ne d k k' v :
  k <> k' -> Dict.get (Dict.set d k v) k' = Dict.get d k'.
Proof.
  intros Hne. induction d as [|[k0 v0] d IH]; simpl.
  - destruct (String.eqb k' k) eqn:E; auto.
    apply String.eqb_eq in E. congruence.
  - destruct (String.eqb k k0) eqn:E; simpl.
    + apply String.eqb_eq in E. subst k0.
      destruct (String.eqb k' k) eqn:E'; auto.
      apply String.eqb_eq in E'. congruence.
    + destruct (String.eqb k' k0); auto.
Qed.

Lemma dict_get_in d k v : Dict.get d k = Some v -> In (k, v) (Dict.items d).
Proof.
  induction d as [|[k' v'] d IH]; simpl; [discriminate|].
  destruct (String.eqb k k') eqn:E.
  - apply String.eqb_eq in E. intros [= ->]. subst. now left.
  - intros H. right. auto.
Qed.

Lemma dict_in_get d k v :
  In (k, v) (Dict.items d) -> exists v', Dict.get d k = Some v'.
Proof.
  induction d as [|[k' v'] d IH]; simpl; [tauto|].
  intros [H | H].
  - inversion H; subst. rewrite String.eqb_refl. eauto.
  - destruct (String.eqb k k'); eauto.
Qed.

Lemma dict_get_none_not_key d k :
  Dict.get d k = None -> ~ In k (Dict.keys d).
Proof.
  intros Hg Hin. unfold Dict.keys in Hin. apply in_map_iff in Hin.
  destruct Hin as [[k' v] [Hk Hin]]. simpl in Hk. subst k'.
  apply dict_in_get in Hin. destruct Hin as [v' Hv]. congruence.
Qed.

Lemma dict_get_key d k v : Dict.get d k = Some v -> In k (Dict.keys d).
Proof.
  intros H. apply dict_get_in in H. unfold Dict.keys.
  apply in_map_iff. exists (k, v). auto.
Qed.

End DictFacts.

(** ** C1: lexical cleanup and the line count *)

(** C1 (fails on the code): [_preprocess] deletes a block comment together
    with the line breaks inside it, so the text [doc_block_comment], of
    three lines, comes back with two, and the declaration of [b], written
    on line 3, is recorded on line 2. *)
Theorem C1_block_comment_removes_line_breaks :
  line_count doc_block_comment = 3
  /\ _preprocess doc_block_comment = "DCL a INT; 
DCL b INT;"
  /\ line_count (_preprocess doc_block_comment) = 2
  /\ exists m,
       snd (parse new_parser doc_block_comment) = Ok m
       /\ option_map d_line_number (Dict.get (dcls m) "b") = Some 2.
Proof.
  split; [vm_compute; reflexivity|].
  split; [vm_compute; reflexivity|].
  split; [vm_compute; reflexivity|].
  exists (parsed doc_block_comment).
  vm_compute. split; reflexivity.
Qed.

(** What does hold: the pass that cuts line comments keeps every line,
    and so does [_preprocess] on a text without a block comment opener. *)

Lemma split_on_no_sep sep s :
  has_char sep s = false -> split_on sep s = [s].
Proof.
  induction s as [|c s IH]; [reflexivity|].
  cbn [has_char split_on]. intros H. apply orb_false_elim in H.
  destruct H as [H1 H2]. rewrite Ascii.eqb_sym, H1, (IH H2). reflexivity.
Qed.

Lemma split_on_app_sep sep a b :
  has_char sep a = false ->
  split_on sep (a ++ String sep b) = a :: split_on sep b.
Proof.
  induction a as [|c a IH]; intros H.
  - cbn [append split_on]. now rewrite Ascii.eqb_refl.
  - cbn [has_char] in H. apply orb_false_elim in H. destruct H as [H1 H2].
    cbn [append split_on]. rewrite Ascii.eqb_sym, H1, (IH H2). reflexivity.
Qed.

Lemma split_on_parts_no_sep sep s :
  Forall (fun l => has_char sep l = false) (split_on sep s).
Proof.
  induction s as [|c s IH]; cbn [split_on].
  - repeat constructor.
  - destruct (Ascii.eqb c sep) eqn:E.
    + constructor; [reflexivity|exact IH].
    + destruct (split_on sep s) as [|h r]; inversion IH; subst.
      * repeat constructor. cbn [has_char]. now rewrite Ascii.eqb_sym, E.
      * constructor; [|assumption].
        cbn [has_char]. rewrite Ascii.eqb_sym, E. assumption.
Qed.

Lemma split_on_length_pos sep s : 1 <= List.length (split_on sep s).
Proof.
  induction s as [|c s IH]; cbn [split_on]; [simpl; lia|].
  destruct (Ascii.eqb c sep); [simpl; lia|].
  destruct (split_on sep s); simpl in *; lia.
Qed.

Lemma line_count_join ls :
  ls <> [] ->
  Forall (fun l => has_char "010" l = false) ls ->
  line_count (join (String "010" "") ls) = List.length ls.
Proof.
  unfold line_count. induction ls as [|l ls IH]; [congruence|].
  intros _ H. inversion H as [|? ? Hl Hls]; subst.
  destruct ls as [|l' ls].
  - cbn [join]. now rewrite split_on_no_sep.
  - change (join (String "010" "") (l :: l' :: ls))
      with (l ++ String "010" (join (String "010" "") (l' :: ls)))%string.
    rewrite split_on_app_sep by exact Hl.
    cbn [List.length]. f_equal. apply IH; [discriminate|exact Hls].
Qed.

Lemma before_no_char c sub s :
  has_char c s = false -> has_char c (before sub s) = false.
Proof.
  induction s as [|a s IH]; intros H.
  - cbn [before]. destruct (String.prefix sub ""); reflexivity.
  - cbn [before]. destruct (String.prefix sub (String a s)); [reflexivity|].
    cbn [has_char] in *. apply orb_false_elim in H. destruct H as [H1 H2].
    now rewrite H1, (IH H2).
Qed.

(** Cutting the line comments keeps the number of lines. *)
Lemma line_comment_pass_keeps_lines (s : string) :
  line_count
    (join (String "010" "")
       (map (fun l => if contains "--" l then before "--" l else l)
            (split_on "010" s)))
  = line_count s.
Proof.
  rewrite line_count_join.
  - unfold line_count. apply length_map.
  - pose proof (split_on_length_pos "010" s) as H.
    destruct (split_on "010" s); [simpl in H; lia|discriminate].
  - apply Forall_map.
    eapply Forall_impl; [|apply split_on_parts_no_sep].
    intros l Hl. cbn beta. destruct (contains "--" l); [|exact Hl].
    now apply before_no_char.
Qed.

Lemma block_comment_needs_opener pos prev s :
  String.prefix "/*" s = false ->
  rmatch false re_block_comment Some (MState pos prev s []) = None.
Proof.
  intros H. unfold re_block_comment. cbn [rmatch m_pos m_prev m_rest m_caps].
  destruct s as [|c s]; [reflexivity|].
  cbn [lit_match]. unfold char_eq.
  destruct (Ascii.eqb "/" c) eqn:E1; [|reflexivity].
  apply Ascii.eqb_eq in E1. subst c.
  destruct s as [|c s]; [reflexivity|].
  destruct (Ascii.eqb "*" c) eqn:E2; [|reflexivity].
  apply Ascii.eqb_eq in E2. subst c.
  destruct s; vm_compute in H; discriminate H.
Qed.

Lemma sub_del_no_opener s : forall pos prev,
  contains "/*" s = false ->
  sub_del_from false re_block_comment 0 pos prev s = s.
Proof.
  induction s as [|c s IH]; intros pos prev H; [reflexivity|].
  cbn [contains] in H. apply orb_false_elim in H. destruct H as [H1 H2].
  cbn [sub_del_from]. rewrite (block_comment_needs_opener _ _ _ H1).
  now rewrite IH.
Qed.

(** On a text in which no block comment opens the cleanup keeps the
    number of lines. *)
Lemma preprocess_keeps_lines_without_block_comment (source : string) :
  contains "/*" source = false ->
  line_count (_preprocess source) = line_count source.
Proof.
  intros H. unfold _preprocess, sub_del.
  rewrite (sub_del_no_opener _ _ _ H).
  apply line_comment_pass_keeps_lines.
Qed.

(** ** C2: the scanner and exceptions *)

(** C2 (fails on the code): a [DCL] line whose mode text is blank passes
    the declaration pattern with group 2 a single blank; the mode text
    strips to the empty string, which [_mode_str_to_enum] guards against
    and [_is_builtin_mode] does not: [IndexError] escapes [parse]. *)
Theorem C2_blank_mode_text_raises :
  option_map (fun mt => (group mt 2, strip (group' mt 2)))
             (re_match true re_dcl "DCL x  ;")
  = Some (Some " ", "")
  /\ _mode_str_to_enum "" = Ok USER_DEFINED
  /\ _is_builtin_mode "" = Raise IndexError
  /\ snd (parse new_parser "DCL x  ;") = Raise IndexError.
Proof.
  repeat split; vm_compute; reflexivity.
Qed.

(** ** C5: parameter directions *)

(** C5 (fails on the code): the direction is chosen by a substring test on
    the upper-cased entry, while the keyword is removed as a whole word.
    The entry [output INT] holds no direction keyword, yet [OUT] occurs
    inside [OUTPUT] and the parameter gets direction [OUT]; likewise
    [pinout INT] gets [INOUT]. *)
Theorem C5_substring_direction :
  _parse_parameters "output INT" = [("output", "INT", "OUT")]
  /\ _parse_parameters "pinout INT" = [("pinout", "INT", "INOUT")]
  /\ (exists m,
        snd (parse new_parser "send: PROC(output INT);") = Ok m
        /\ option_map p_parameters (Dict.get (procs m) "send")
           = Some [("output", "INT", "OUT")])
  /\ _parse_parameters "a INT, IN b INT, OUT c INT, INOUT d INT, OUT IN e INT"
     = [("a", "INT", "IN"); ("b", "INT", "IN"); ("c", "INT", "OUT");
        ("d", "INT", "INOUT"); ("IN", "INT", "OUT")].
Proof.
  split; [vm_compute; reflexivity|].
  split; [vm_compute; reflexivity|].
  split; [|vm_compute; reflexivity].
  exists (parsed "send: PROC(output INT);").
  vm_compute. split; reflexivity.
Qed.

(** ** C4: two declarations of one name *)






(** ** C8: parsing twice *)

(** C8: what [parse] returns (a model, or the exception raised) and the
    model it leaves in the parser depend on the source text alone, not on
    the parser it is called on; so a second call on the same parser, after
    a first call on any text, gives a model with the same seven entity
    tables, field for field. *)
Theorem C8_parse_idempotent (p1 p2 : ChillParser) (source other : string) :
  snd (parse p1 source) = snd (parse p2 source)
  /\ model (fst (parse p1 source)) = model (fst (parse p2 source))
  /\ snd (parse (fst (parse p1 source)) source) = snd (parse p1 source)
  /\ snd (parse (fst (parse p1 other)) source) = snd (parse new_parser source)
  /\ (forall m1 m2,
        snd (parse p1 source) = Ok m1 ->
        snd (parse (fst (parse p1 source)) source) = Ok m2 ->
        dcls m1 = dcls m2 /\ modes m1 = modes m2
        /\ synonyms m1 = synonyms m2 /\ procs m1 = procs m2
        /\ processes m1 = processes m2 /\ modules m1 = modules m2
        /\ signals m1 = signals m2).
Proof.
  assert (H : forall q1 q2 s,
             snd (parse q1 s) = snd (parse q2 s)
             /\ model (fst (parse q1 s)) = model (fst (parse q2 s))).
  { intros q1 q2 s. unfold parse. simpl.
    destruct (_parse_declarations (_preprocess s) new_model) as [m r].
    split; reflexivity. }
  split; [apply H|]. split; [apply H|]. split; [apply H|].
  split; [apply H|].
  intros m1 m2 H1 H2.
  rewrite (proj1 (H (fst (parse p1 source)) p1 source)) in H2.
  rewrite H1 in H2. injection H2 as <-. repeat split.
Qed.

(** The statement at the sample document: the second call on the parser
    returns what the first one did. *)
Lemma C8_parse_idempotent_witness :
  snd (parse (fst (parse new_parser doc_two_x)) doc_two_x)
  = snd (parse new_parser doc_two_x).
Proof.
  exact (proj1 (proj2 (proj2 (C8_parse_idempotent new_parser new_parser
                                doc_two_x doc_two_x)))).
Defined.

(** ** C9: hover precedence *)

Lemma app_string_assoc (s t u : string) :
  ((s ++ t) ++ u = s ++ (t ++ u))%string.
Proof. induction s; simpl; congruence. Qed.

Lemma app_empty_r (s : string) : (s ++ "")%string = s.
Proof. induction s; simpl; congruence. Qed.

Lemma hover_nonempty_reserved word : hover_reserved word <> "".
Proof. unfold hover_reserved. simpl. discriminate. Qed.

Lemma dict_is_empty_keys {V : Type} (d : Dict.t V) :
  Dict.is_empty d = match Dict.keys d with [] => true | _ => false end.
Proof. destruct d; reflexivity. Qed.

(** C9: [get_hover_info] answers from the first of six sources that knows
    the word: the reserved words, the predefined names (both looked up by
    the upper-cased word), then the declarations, the modes, the
    procedures and the synonyms of the model; when none does it returns
    [None].  The answer is the description of that first match, which
    begins with the word in bold: for a reserved word and a predefined
    name a fixed text; for a declaration the mode category, the user mode
    name if it has one and the initial value if it has one; for a mode the
    base category, the enumerators if there are any, the range bounds if
    there is a lower bound and the field names if there are fields; for a
    procedure the parameters, each as name, direction and mode, and the
    mode it returns if there is one; for a synonym its value.  For a
    reserved word the answer is the same non-empty text on every model,
    the empty one included.  (The bounds of a range are rendered by [str],
    which needs them to be within the conversion limit.) *)
Theorem C9_hover_precedence (m : ChillSemanticModel) (word : string) :
  let R := in_set (upper word) CHILL_RESERVED_WORDS in
  let P := in_set (upper word) CHILL_PREDEFINED in
  let head := ("**" ++ word ++ "** - ")%string in
  (R = true ->
     get_hover_info m word = Some (head ++ "CHILL reserved word")%string
     /\ get_hover_info m word = get_hover_info new_model word
     /\ (head ++ "CHILL reserved word")%string <> "")
  /\ (R = false -> P = true ->
      get_hover_info m word = Some (head ++ "CHILL predefined name")%string)
  /\ (R = false -> P = false ->
      forall dcl, get_dcl m word = Some dcl ->
      get_hover_info m word
      = Some (head ++ "DCL " ++ mode_value (d_mode dcl)
              ++ when_text (d_mode_name dcl)
                           (fun s => " (" ++ s ++ ")")
              ++ when_text (d_initial_value dcl)
                           (fun s => nl2 ++ "Initial value: " ++ s))%string)
  /\ (R = false -> P = false -> get_dcl m word = None ->
      forall mode, get_mode m word = Some mode ->
      int_renders (n_range_low mode) -> int_renders (n_range_high mode) ->
      get_hover_info m word
      = Some (head ++ "NEWMODE " ++ mode_value (n_base_mode mode)
              ++ when_items (n_enum_values mode)
                            (fun vs => nl2 ++ "Values: " ++ join ", " vs)
              ++ match n_range_low mode with
                 | Some lo => nl2 ++ "Range: " ++ str_of_int lo ++ ":"
                              ++ str_of_opt_int (n_range_high mode)
                 | None => ""
                 end
              ++ when_items (Dict.keys (n_fields mode))
                            (fun ks => nl2 ++ "Fields: " ++ join ", " ks))%string)
  /\ (R = false -> P = false -> get_dcl m word = None ->
      get_mode m word = None ->
      forall proc, get_proc m word = Some proc ->
      get_hover_info m word
      = Some (head ++ "PROC("
              ++ join ", " (map (fun '(name, mode, direction) =>
                                   name ++ " " ++ direction ++ " " ++ mode)
                                (p_parameters proc))
              ++ ")"
              ++ when_text (p_returns_mode proc)
                           (fun s => " RETURNS(" ++ s ++ ")"))%string)
  /\ (R = false -> P = false -> get_dcl m word = None ->
      get_mode m word = None -> get_proc m word = None ->
      forall syn, Dict.get (synonyms m) word = Some syn ->
      get_hover_info m word = Some (head ++ "SYN = " ++ s_value syn)%string)
  /\ (R = false -> P = false -> get_dcl m word = None ->
      get_mode m word = None -> get_proc m word = None ->
      Dict.get (synonyms m) word = None ->
      get_hover_info m word = None).
Proof.
  intros R P head. unfold get_hover_info. fold R. fold P.
  repeat match goal with |- _ /\ _ => split end.
  - intros ->. unfold hover_reserved, head.
    split; [now rewrite !app_string_assoc|].
    split; [reflexivity|]. cbn [append]. discriminate.
  - intros -> ->. unfold hover_predefined, head. now rewrite !app_string_assoc.
  - intros -> -> dcl ->. f_equal.
    unfold hover_dcl, when_text, truthy, head.
    destruct (d_mode_name dcl) as [[|c s]|], (d_initial_value dcl) as [[|c' s']|];
      cbn [is_empty negb]; rewrite ?app_string_assoc, ?app_empty_r;
      reflexivity.
  - intros -> -> -> mode -> _ _. f_equal.
    unfold hover_mode, when_items, head. rewrite dict_is_empty_keys.
    destruct (n_enum_values mode) as [|v vs], (n_range_low mode) as [lo|],
             (Dict.keys (n_fields mode)) as [|k ks];
      cbn [negb]; rewrite ?app_string_assoc, ?app_empty_r; reflexivity.
  - intros -> -> -> -> proc ->. f_equal.
    unfold hover_proc, when_text, truthy, head.
    replace (map (fun p : parameter =>
                    let '(p0, p1, p2) := p in (p0 ++ " " ++ p2 ++ " " ++ p1)%string)
                 (p_parameters proc))
      with (map (fun '(name, mode, direction) =>
                   (name ++ " " ++ direction ++ " " ++ mode)%string)
                (p_parameters proc)) by reflexivity.
    destruct (p_returns_mode proc) as [[|c s]|];
      cbn [is_empty negb]; rewrite ?app_string_assoc, ?app_empty_r;
      reflexivity.
  - intros -> -> -> -> -> syn ->. unfold hover_syn, head.
    now rewrite !app_string_assoc.
  - intros -> -> -> -> -> ->. reflexivity.
Qed.

(** The precedence at work.  [module] is a reserved word, and the hover
    text on the empty model is the reserved-word text; on [model_hover] the
    mode [counter] is described by its base category and its range. *)
Lemma C9_hover_precedence_witness :
  get_hover_info new_model "module" = Some "**module** - CHILL reserved word"
  /\ get_hover_info new_model "nothing" = None
  /\ get_hover_info model_hover "counter"
     = Some "**counter** - NEWMODE RANGE

Range: 0:65535".
Proof.
  destruct (C9_hover_precedence new_model "module") as (H1 & _).
  destruct (C9_hover_precedence new_model "nothing")
    as (_ & _ & _ & _ & _ & _ & H7).
  destruct (C9_hover_precedence model_hover "counter")
    as (_ & _ & _ & H4 & _).
  split; [exact (proj1 (H1 eq_refl))|].
  split; [exact (H7 eq_refl eq_refl eq_refl eq_refl eq_refl eq_refl)|].
  refine (H4 eq_refl eq_refl eq_refl _ eq_refl _ _);
    vm_compute; reflexivity.
Defined.

(** ** Strings *)

Lemma in_set_In w S : in_set w S = true <-> In w S.
Proof.
  unfold in_set. rewrite existsb_exists. split.
  - intros (x & Hx & E). apply String.eqb_eq in E. now subst.
  - intros H. exists w. split; [assumption|apply String.eqb_refl].
Qed.

Lemma substring_0_0 s : substring 0 0 s = "".
Proof. destruct s; reflexivity. Qed.

Lemma substring_len0 n : forall s, substring n 0 s = "".
Proof.
  induction n as [|n IH]; intros [|c s]; simpl; auto.
Qed.

Lemma substring_snoc_0 k : forall s c,
  String.get k s = Some c ->
  substring 0 (S k) s = (substring 0 k s ++ String c "")%string.
Proof.
  induction k as [|k IH]; intros [|a s] c H; simpl in *; try discriminate.
  - injection H as ->. now rewrite substring_0_0.
  - rewrite (IH s c H). reflexivity.
Qed.

Lemma substring_snoc a : forall k s c,
  String.get (a + k) s = Some c ->
  substring a (S k) s = (substring a k s ++ String c "")%string.
Proof.
  induction a as [|a IH]; intros k s c H.
  - now apply substring_snoc_0.
  - destruct s as [|x s]; simpl in *; [discriminate|].
    rewrite (IH k s c H). destruct k; reflexivity.
Qed.

Lemma all_ident_app s t :
  all_ident (s ++ t) = all_ident s && all_ident t.
Proof.
  induction s as [|c s IH]; simpl; [reflexivity|].
  now rewrite IH, andb_assoc.
Qed.

Lemma length_app_string s t :
  String.length (s ++ t) = String.length s + String.length t.
Proof. induction s; simpl; auto. Qed.

(** ** C3: the completion prefix law *)

Lemma prefix_loop_spec line : forall n acc,
  exists r,
    prefix_loop line n acc = (r ++ acc)%string /\ is_run_before line n r.
Proof.
  induction n as [|i IH]; intros acc.
  - exists "". split; [reflexivity|].
    repeat split; simpl; try lia. apply substring_len0.
  - simpl. destruct (String.get i line) as [c|] eqn:G.
    + destruct (is_ident_char c) eqn:Hc.
      * destruct (IH (String c acc)) as (r & Hr & Ha & Hl & Hs & Hm).
        exists (r ++ String c "")%string.
        split; [rewrite Hr, app_string_assoc; reflexivity|].
        unfold is_run_before.
        rewrite all_ident_app, length_app_string. simpl.
        rewrite Ha, Hc. split; [reflexivity|]. split; [lia|].
        replace (S i - (String.length r + 1)) with (i - String.length r) by lia.
        replace (String.length r + 1) with (S (String.length r)) by lia.
        split.
        -- rewrite (substring_snoc _ _ _ c), Hs; [reflexivity|].
           replace (i - String.length r + String.length r) with i by lia.
           exact G.
        -- intros Hlt. apply Hm. lia.
      * exists "". split; [reflexivity|].
        repeat split; simpl; try lia; [apply substring_len0|].
        intros _. rewrite Nat.sub_0_r, G. exact Hc.
    + exists "". split; [reflexivity|].
      repeat split; simpl; try lia; [apply substring_len0|].
      intros _. now rewrite Nat.sub_0_r, G.
Qed.

Lemma completion_prefix_is_run line column :
  is_run_before line (Z.to_nat column) (completion_prefix line column).
Proof.
  unfold completion_prefix.
  destruct (prefix_loop_spec line (Z.to_nat column) "") as (r & Hr & H).
  rewrite Hr, app_empty_r. exact H.
Qed.

Lemma reserved_words_upper :
  forallb (fun w => String.eqb (upper w) w) CHILL_RESERVED_WORDS = true.
Proof. vm_compute. reflexivity. Qed.

Lemma predefined_upper :
  forallb (fun w => String.eqb (upper w) w) CHILL_PREDEFINED = true.
Proof. vm_compute. reflexivity. Qed.

Lemma upper_fixed_in S w :
  forallb (fun w => String.eqb (upper w) w) S = true -> In w S -> upper w = w.
Proof.
  intros H Hin. rewrite forallb_forall in H.
  apply String.eqb_eq. now apply H.
Qed.

(** Membership in the result of [get_completions_at_position], source by
    source. *)
Lemma completions_In m line column name kind :
  let P := upper (completion_prefix line column) in
  In (name, kind) (get_completions_at_position m line column) <->
  (In name CHILL_RESERVED_WORDS /\ startswith name P = true
   /\ kind = "keyword")
  \/ (In name CHILL_PREDEFINED /\ startswith name P = true
      /\ kind = "builtin")
  \/ (exists dcl, In (name, dcl) (Dict.items (dcls m))
                  /\ has_char "." name = false
                  /\ startswith (upper name) P = true
                  /\ kind = ("DCL " ++ mode_value (d_mode dcl))%string)
  \/ (In name (Dict.keys (modes m)) /\ startswith (upper name) P = true
      /\ kind = "mode")
  \/ (In name (Dict.keys (procs m)) /\ startswith (upper name) P = true
      /\ kind = "procedure")
  \/ (In name (Dict.keys (synonyms m)) /\ startswith (upper name) P = true
      /\ kind = "constant").
Proof.
  intros P. unfold get_completions_at_position. fold P.
  rewrite !in_app_iff, !in_map_iff.
  split.
  - intros [H|[H|[H|[H|[H|H]]]]].
    + destruct H as (x & [= <- <-] & Hx). apply filter_In in Hx. tauto.
    + destruct H as (x & [= <- <-] & Hx). apply filter_In in Hx. tauto.
    + destruct H as ([k d] & [= <- <-] & Hx). apply filter_In in Hx.
      destruct Hx as [Hin Hb]. apply andb_prop in Hb. destruct Hb as [Hb1 Hb2].
      right; right; left. exists d. rewrite negb_true_iff in Hb1. tauto.
    + destruct H as (x & [= <- <-] & Hx). apply filter_In in Hx. tauto.
    + destruct H as (x & [= <- <-] & Hx). apply filter_In in Hx. tauto.
    + destruct H as (x & [= <- <-] & Hx). apply filter_In in Hx.
      do 5 right. tauto.
  - intros [H|[H|[H|[H|[H|H]]]]].
    + destruct H as (Hin & Hs & ->). left. exists name.
      split; [reflexivity|]. apply filter_In. tauto.
    + destruct H as (Hin & Hs & ->). right; left. exists name.
      split; [reflexivity|]. apply filter_In. tauto.
    + destruct H as (d & Hin & Hd & Hs & ->). right; right; left.
      exists (name, d). split; [reflexivity|]. apply filter_In.
      split; [assumption|]. rewrite Hd, Hs. reflexivity.
    + destruct H as (Hin & Hs & ->). do 3 right; left. exists name.
      split; [reflexivity|]. apply filter_In. tauto.
    + destruct H as (Hin & Hs & ->). do 4 right; left. exists name.
      split; [reflexivity|]. apply filter_In. tauto.
    + destruct H as (Hin & Hs & ->). do 5 right. exists name.
      split; [reflexivity|]. apply filter_In. tauto.
Qed.

(** C3: the prefix that completion extracts is the maximal run of
    letters, digits and underscores ending at the cursor; every name
    returned upper-cases to a string that starts with the upper-cased
    prefix; and every reserved word, predefined name, declaration name (a
    key of the declaration table that is not a scope-qualified duplicate
    [scope.name]), mode name, procedure name and synonym name whose
    upper-case form starts with the upper-cased prefix is returned, with
    the label of its kind. *)
Theorem C3_completion_prefix_law
        (m : ChillSemanticModel) (line : string) (column : Z) :
  let prefix := completion_prefix line column in
  let P := upper prefix in
  let result := get_completions_at_position m line column in
  is_run_before line (Z.to_nat column) prefix
  /\ (forall name kind,
        In (name, kind) result -> startswith (upper name) P = true)
  /\ (forall kw,
        In kw CHILL_RESERVED_WORDS -> startswith (upper kw) P = true ->
        In (kw, "keyword") result)
  /\ (forall pred,
        In pred CHILL_PREDEFINED -> startswith (upper pred) P = true ->
        In (pred, "builtin") result)
  /\ (forall name dcl,
        In (name, dcl) (Dict.items (dcls m)) -> has_char "." name = false ->
        startswith (upper name) P = true ->
        In (name, ("DCL " ++ mode_value (d_mode dcl))%string) result)
  /\ (forall name,
        In name (Dict.keys (modes m)) -> startswith (upper name) P = true ->
        In (name, "mode") result)
  /\ (forall name,
        In name (Dict.keys (procs m)) -> startswith (upper name) P = true ->
        In (name, "procedure") result)
  /\ (forall name,
        In name (Dict.keys (synonyms m)) -> startswith (upper name) P = true ->
        In (name, "constant") result).
Proof.
  intros prefix P result.
  split; [apply completion_prefix_is_run|].
  split.
  { intros name kind H. apply completions_In in H. fold prefix P in H.
    destruct H as [H|[H|[H|[H|[H|H]]]]].
    - destruct H as (Hin & Hs & _).
      now rewrite (upper_fixed_in _ _ reserved_words_upper Hin).
    - destruct H as (Hin & Hs & _).
      now rewrite (upper_fixed_in _ _ predefined_upper Hin).
    - destruct H as (d & _ & _ & Hs & _). exact Hs.
    - tauto.
    - tauto.
    - tauto. }
  split.
  { intros kw Hin Hs. apply completions_In. left.
    rewrite (upper_fixed_in _ _ reserved_words_upper Hin) in Hs. tauto. }
  split.
  { intros pred Hin Hs. apply completions_In. right; left.
    rewrite (upper_fixed_in _ _ predefined_upper Hin) in Hs. tauto. }
  split.
  { intros name dcl Hin Hd Hs. apply completions_In. right; right; left.
    exists dcl. tauto. }
  split.
  { intros name Hin Hs. apply completions_In. do 3 right; left. tauto. }
  split.
  { intros name Hin Hs. apply completions_In. do 4 right; left. tauto. }
  intros name Hin Hs. apply completions_In. do 5 right. tauto.
Qed.

(** The law at a model with one declaration [x] and the cursor after the
    text [  x]: the declaration is offered. *)
Lemma C3_completion_prefix_law_witness :
  In ("x", "DCL BOOL")
     (get_completions_at_position (add_dcl new_model (new_field "x" BOOL))
                                  "  x" 3).
Proof.
  apply (proj1 (proj2 (proj2 (proj2 (proj2
           (C3_completion_prefix_law (add_dcl new_model (new_field "x" BOOL))
                                     "  x" 3)))))
           "x" (set_parent_scope (new_field "x" BOOL) "GLOBAL")).
  - vm_compute. left. reflexivity.
  - reflexivity.
  - reflexivity.
Defined.

(** ** C10: processes and signals in the query layer *)

Lemma insert_by_line_In x y l :
  In y (insert_by_line x l) <-> y = x \/ In y l.
Proof.
  induction l as [|z l IH]; simpl.
  - intuition congruence.
  - destruct (Nat.leb (sym_line x) (sym_line z)); simpl.
    + intuition congruence.
    + rewrite IH. intuition congruence.
Qed.

Lemma sorted_by_line_In y l : In y (sorted_by_line l) <-> In y l.
Proof.
  induction l as [|x l IH]; simpl; [tauto|].
  rewrite insert_by_line_In, IH. intuition congruence.
Qed.

Lemma get_dcl_none m name :
  get_dcl m name = None -> Dict.get (dcls m) name = None.
Proof.
  unfold get_dcl, Dict.mem.
  destruct (Dict.get (dcls m) (current_scope m ++ "." ++ name)) eqn:E1;
    [discriminate|].
  destruct (Dict.get (dcls m) name) eqn:E2; [discriminate|reflexivity].
Qed.

(** C10: a name that is neither a reserved word nor a predefined name
    (in upper case) and that the model knows neither as a declaration,
    nor as a mode, a procedure or a synonym gets no hover text and is in
    no completion list, whatever the line and the cursor; yet when the
    model holds it as a process or as a signal, [get_all_symbols] lists
    it, as [PROCESS] or as [SIGNAL]. *)
Theorem C10_process_signal_invisible (m : ChillSemanticModel) (name : string) :
  in_set (upper name) CHILL_RESERVED_WORDS = false ->
  in_set (upper name) CHILL_PREDEFINED = false ->
  get_dcl m name = None ->
  get_mode m name = None ->
  get_proc m name = None ->
  Dict.get (synonyms m) name = None ->
  get_hover_info m name = None
  /\ (forall line column kind,
        ~ In (name, kind) (get_completions_at_position m line column))
  /\ (forall process,
        In (name, process) (Dict.items (processes m)) ->
        In (name, "PROCESS", ps_line_start process, ps_line_end process)
           (get_all_symbols m))
  /\ (forall sig,
        In (name, sig) (Dict.items (signals m)) ->
        In (name, "SIGNAL", sg_line_number sig, sg_line_number sig)
           (get_all_symbols m)).
Proof.
  intros HR HP Hd Hm Hp Hs.
  split.
  { unfold get_hover_info. rewrite HR, HP, Hd, Hm, Hp, Hs. reflexivity. }
  split.
  { intros line column kind H. apply completions_In in H.
    destruct H as [H|[H|[H|[H|[H|H]]]]].
    - destruct H as (Hin & _).
      pose proof (upper_fixed_in _ _ reserved_words_upper Hin) as Hu.
      apply in_set_In in Hin. rewrite <- Hu in Hin at 1. congruence.
    - destruct H as (Hin & _).
      pose proof (upper_fixed_in _ _ predefined_upper Hin) as Hu.
      apply in_set_In in Hin. rewrite <- Hu in Hin at 1. congruence.
    - destruct H as (d & Hin & _). apply dict_in_get in Hin.
      destruct Hin as (v & Hv). rewrite (get_dcl_none _ _ Hd) in Hv.
      discriminate.
    - destruct H as (Hin & _).
      exact (dict_get_none_not_key _ _ Hm Hin).
    - destruct H as (Hin & _).
      exact (dict_get_none_not_key _ _ Hp Hin).
    - destruct H as (Hin & _).
      exact (dict_get_none_not_key _ _ Hs Hin). }
  split.
  - intros process Hin. unfold get_all_symbols. apply sorted_by_line_In.
    rewrite !in_app_iff. do 4 right. left.
    apply in_map_iff. exists (name, process). split; [reflexivity|exact Hin].
  - intros sig Hin. unfold get_all_symbols. apply sorted_by_line_In.
    rewrite !in_app_iff. do 6 right.
    apply in_map_iff. exists (name, sig). split; [reflexivity|exact Hin].
Qed.

(** The statement at a model that knows [worker] as a process only. *)
Lemma C10_process_signal_invisible_witness :
  get_hover_info model_with_process "worker" = None
  /\ ~ In ("worker", "procedure")
          (get_completions_at_position model_with_process "wor" 3)
  /\ In ("worker", "PROCESS", 7, 9) (get_all_symbols model_with_process).
Proof.
  destruct (C10_process_signal_invisible model_with_process "worker"
              eq_refl eq_refl eq_refl eq_refl eq_refl eq_refl)
    as (H1 & H2 & H3 & _).
  split; [exact H1|]. split; [apply H2|].
  apply (H3 worker_process). left. reflexivity.
Defined.

(** ** C7: the extent of a body *)

Lemma line_delta_bounds l : (-1 <= line_delta l <= 1)%Z.
Proof.
  unfold line_delta.
  destruct (is_match false re_nested (upper (strip l))
            || startswith (upper (strip l)) "BEGIN");
    [lia|].
  destruct (startswith (upper (strip l)) "END"); lia.
Qed.

(** The two ways of counting differ only on a header whose label begins
    with [END], which [_find_end] counts as a header. *)
Lemma line_delta_sum_agrees l :
  is_match false re_nested (upper (strip l))
  && startswith (upper (strip l)) "END" = false ->
  line_delta l = line_delta_sum l.
Proof.
  unfold line_delta, line_delta_sum.
  destruct (is_match false re_nested (upper (strip l))); cbn [orb andb].
  - intros ->. reflexivity.
  - intros _. destruct (upper (strip l)) as [|c s]; [reflexivity|].
    unfold startswith. cbn [String.prefix].
    destruct (ascii_dec "B" c) as [<-|Hb].
    + destruct (ascii_dec "E" "B") as [E|_]; [discriminate E|].
      destruct (String.prefix "EGIN" s); reflexivity.
    + destruct (ascii_dec "E" c); destruct (String.prefix "ND" s);
        reflexivity.
Qed.

Lemma depth_run_cons d l rest n :
  depth_run d (l :: rest) (S n) = depth_run (d + line_delta l)%Z rest n.
Proof. reflexivity. Qed.

(** One turn of the loop of [_find_end], in terms of [line_delta]. *)
Lemma find_end_loop_step l rest i d start_idx :
  _find_end_loop (l :: rest) i d start_idx =
  if (line_delta l =? -1)%Z && (d + line_delta l =? 0)%Z then i + 1
  else _find_end_loop rest (S i) (d + line_delta l)%Z start_idx.
Proof.
  simpl. unfold line_delta.
  destruct (is_match false re_nested (upper (strip l))); simpl.
  - reflexivity.
  - destruct (startswith (upper (strip l)) "BEGIN"); simpl.
    + reflexivity.
    + destruct (startswith (upper (strip l)) "END"); simpl.
      * replace (d + -1)%Z with (d - 1)%Z by lia. reflexivity.
      * replace (d + 0)%Z with d by lia. reflexivity.
Qed.

Lemma find_end_loop_spec rest : forall i d start_idx,
  (1 <= d)%Z ->
  (forall n, 1 <= n <= List.length rest ->
             depth_run d rest n = 0%Z ->
             (forall j, 1 <= j < n -> depth_run d rest j <> 0%Z) ->
             _find_end_loop rest i d start_idx = i + n)
  /\ ((forall n, 1 <= n <= List.length rest -> depth_run d rest n <> 0%Z) ->
      _find_end_loop rest i d start_idx = start_idx + 1).
Proof.
  induction rest as [|l rest IH]; intros i d start_idx Hd.
  - split; [simpl; intros n Hn; lia|reflexivity].
  - pose proof (line_delta_bounds l) as Hb.
    rewrite find_end_loop_step.
    destruct ((line_delta l =? -1)%Z && (d + line_delta l =? 0)%Z) eqn:E.
    + apply andb_prop in E. destruct E as [_ E]. apply Z.eqb_eq in E.
      split.
      * intros n Hn Hz Hmin. destruct (Nat.eq_dec n 1) as [->|Hne];
          [reflexivity|].
        exfalso. apply (Hmin 1); [lia|]. exact E.
      * intros Hnz. exfalso. apply (Hnz 1); [simpl; lia|]. exact E.
    + assert (Hd' : (1 <= d + line_delta l)%Z).
      { apply andb_false_iff in E. destruct E as [E|E].
        - apply Z.eqb_neq in E. lia.
        - apply Z.eqb_neq in E. lia. }
      assert (H1 : depth_run d (l :: rest) 1 <> 0%Z).
      { change (depth_run d (l :: rest) 1) with (d + line_delta l)%Z. lia. }
      destruct (IH (S i) (d + line_delta l)%Z start_idx Hd') as [IH1 IH2].
      split.
      * intros n Hn Hz Hmin.
        destruct n as [|n]; [lia|]. destruct n as [|n]; [contradiction|].
        rewrite depth_run_cons in Hz.
        rewrite (IH1 (S n)); [lia|simpl in Hn; lia|exact Hz|].
        intros j Hj. rewrite <- depth_run_cons. apply Hmin. lia.
      * intros Hnz. apply IH2. intros n Hn.
        rewrite <- depth_run_cons. apply Hnz. simpl. lia.
Qed.

(** X28: the counter of [_find_end] as the code has it.  It starts at 1
    on the line after the header, goes up by one at each header of a
    nested procedure, process, module or region and at each line whose
    text begins with the letters [BEGIN], and down by one at each line
    whose text begins with the letters [END], whatever follows them;
    [_find_end] returns the 1-based number of the first line at which it
    is 0, and the number of the header line when there is no such line.
    [_parse_proc] and [_parse_process] record that number as [line_end] of
    the entity they add.  On the test program of the source the procedure
    [handler] has the parameter list [(input, INT, IN)], returns [INT] and
    ends on line 18, the line of [END handler;]; the header of the
    process [worker], which the scanner files under the procedures, ends
    on line 24, the line of [END worker;]. *)
Theorem find_end_first_zero_depth
        (all_lines : list string) (start_idx : nat) (construct : string) :
  (forall k, closes_at all_lines start_idx k ->
             _find_end all_lines start_idx construct = k + 1)
  /\ ((forall k, start_idx < k < List.length all_lines ->
                 depth_after all_lines start_idx k <> 0%Z) ->
      _find_end all_lines start_idx construct = start_idx + 1)
  /\ (forall header line_num m mt,
        re_match true re_proc header = Some mt ->
        option_map (fun p => (p_line_start p, p_line_end p))
                   (Dict.get (procs (_parse_proc header line_num all_lines
                                                 start_idx m))
                             (group' mt 1))
        = Some (line_num, _find_end all_lines start_idx "PROC"))
  /\ (forall header line_num m mt,
        re_match true re_process header = Some mt ->
        option_map (fun p => (ps_line_start p, ps_line_end p))
                   (Dict.get (processes (_parse_process header line_num
                                                        all_lines start_idx m))
                             (group' mt 1))
        = Some (line_num, _find_end all_lines start_idx "PROCESS"))
  /\ option_map (fun p => (p_parameters p, p_returns_mode p,
                           p_line_start p, p_line_end p))
                (Dict.get (procs (parsed test_code)) "handler")
     = Some ([("input", "INT", "IN")], Some "INT", 14, 18)
  /\ option_map strip (nth_error (split_on "010" test_code) (18 - 1))
     = Some "END handler;"
  /\ option_map (fun p => (p_line_start p, p_line_end p))
                (Dict.get (procs (parsed test_code)) "worker")
     = Some (20, 24)
  /\ option_map strip (nth_error (split_on "010" test_code) (24 - 1))
     = Some "END worker;".
Proof.
  assert (Hlen : List.length (skipn (start_idx + 1) all_lines)
                 = List.length all_lines - (start_idx + 1))
    by apply length_skipn.
  destruct (find_end_loop_spec (skipn (start_idx + 1) all_lines)
              (start_idx + 1) 1%Z start_idx ltac:(lia)) as [L1 L2].
  split.
  { intros k (Hk & Hz & Hmin). unfold _find_end.
    rewrite (L1 (k - start_idx)); [lia|lia|exact Hz|].
    intros j Hj. specialize (Hmin (start_idx + j)).
    unfold depth_after in Hmin.
    replace (start_idx + j - start_idx) with j in Hmin by lia.
    apply Hmin. lia. }
  split.
  { intros Hnz. unfold _find_end. apply L2. intros n Hn.
    specialize (Hnz (start_idx + n)). unfold depth_after in Hnz.
    replace (start_idx + n - start_idx) with n in Hnz by lia.
    apply Hnz. lia. }
  split.
  { intros header line_num m mt Hmt. unfold _parse_proc. rewrite Hmt.
    unfold add_proc. cbn [procs p_name]. rewrite dict_get_set_eq.
    reflexivity. }
  split.
  { intros header line_num m mt Hmt. unfold _parse_process. rewrite Hmt.
    unfold add_process. cbn [processes ps_name]. rewrite dict_get_set_eq.
    reflexivity. }
  repeat split; vm_compute; reflexivity.
Qed.

(** The statement on [lines_nested_block]: the inner [BEGIN] and [END]
    cancel and the body of [p] ends on line 4. *)
Lemma find_end_first_zero_depth_witness :
  closes_at lines_nested_block 0 3
  /\ _find_end lines_nested_block 0 "PROC" = 4.
Proof.
  assert (H : closes_at lines_nested_block 0 3).
  { split; [simpl; lia|]. split; [vm_compute; reflexivity|].
    intros j Hj.
    assert (Hc : j = 1 \/ j = 2) by lia.
    destruct Hc as [-> | ->]; vm_compute; discriminate. }
  split; [exact H|].
  exact (proj1 (find_end_first_zero_depth lines_nested_block 0 "PROC") 3 H).
Defined.

(** C7 (fails on the code): the tests of [_find_end] are prefix tests, so
    a line of the body that begins with the letters [END] without being
    the keyword closes the body.  On [doc_endless] the procedure [handler]
    has the parameter list [(input, INT, IN)] and returns [INT], as the
    claim says, but its [line_end] is 2, the line of the assignment to
    [endless], and not 4, the line of [END handler;], which is where the
    depth counted by keywords first reaches 0.  In the same way a line
    that begins with the letters [BEGIN] opens a level: on [doc_beginning]
    the body of [handler] is found unterminated, [line_end] is the header
    line 1, although [END handler;] stands on line 3. *)
Theorem C7_end_prefix_closes_body :
  option_map (fun p => (p_parameters p, p_returns_mode p,
                        p_line_start p, p_line_end p))
             (Dict.get (procs (parsed doc_endless)) "handler")
  = Some ([("input", "INT", "IN")], Some "INT", 1, 2)
  /\ _find_end (split_on "010" (_preprocess doc_endless)) 0 "PROC" = 2
  /\ matching_end (split_on "010" (_preprocess doc_endless)) 0 = 4
  /\ nth_error (split_on "010" doc_endless) (2 - 1)
     = Some "  endless := input * 2;"
  /\ nth_error (split_on "010" doc_endless) (4 - 1) = Some "END handler;"
  /\ option_map (fun p => (p_line_start p, p_line_end p))
                (Dict.get (procs (parsed doc_beginning)) "handler")
     = Some (1, 1)
  /\ _find_end (split_on "010" (_preprocess doc_beginning)) 0 "PROC" = 1
  /\ matching_end (split_on "010" (_preprocess doc_beginning)) 0 = 3
  /\ nth_error (split_on "010" doc_beginning) (3 - 1) = Some "END handler;".
Proof.
  repeat match goal with |- _ /\ _ => split end; vm_compute; reflexivity.
Qed.

(** ** C6: reference search *)

(** *** Case of characters *)

Ltac all_chars c :=
  destruct c as [[] [] [] [] [] [] [] []]; vm_compute; reflexivity.

Lemma upper_lower_char c : upper_char (lower_char c) = upper_char c.
Proof. all_chars c. Qed.

Lemma lower_upper_char c : lower_char (upper_char c) = lower_char c.
Proof. all_chars c. Qed.

Lemma is_word_lower c : is_word (lower_char c) = is_word c.
Proof. all_chars c. Qed.

Lemma char_eq_upper a c :
  char_eq true a c = true <-> upper_char a = upper_char c.
Proof.
  unfold char_eq. rewrite Ascii.eqb_eq. split; intros H.
  - rewrite <- (upper_lower_char a), <- (upper_lower_char c). now rewrite H.
  - rewrite <- (lower_upper_char a), <- (lower_upper_char c). now rewrite H.
Qed.

Lemma char_eq_is_word a c :
  char_eq true a c = true -> is_word c = is_word a.
Proof.
  unfold char_eq. rewrite Ascii.eqb_eq. intros H.
  rewrite <- (is_word_lower c), <- (is_word_lower a). now rewrite H.
Qed.

(** *** Offsets *)

Lemma substring_drop j : forall n s,
  substring j n s = substring 0 n (drop j s).
Proof.
  induction j as [|j IH]; intros n [|c s]; simpl; auto;
    destruct n; reflexivity.
Qed.

Lemma get_drop j : forall n s, String.get (j + n) s = String.get n (drop j s).
Proof.
  induction j as [|j IH]; intros n [|c s]; simpl; auto;
    destruct n; reflexivity.
Qed.

Lemma drop_drop j : forall n s, drop n (drop j s) = drop (j + n) s.
Proof.
  induction j as [|j IH]; intros n [|c s]; simpl; auto;
    destruct n; reflexivity.
Qed.

Lemma first_char_drop n s : first_char (drop n s) = String.get n s.
Proof.
  revert s. induction n as [|n IH]; intros [|c s]; simpl; auto.
Qed.

Lemma prefix_ci_upper w : forall s,
  prefix_ci w s = true <->
  upper (substring 0 (String.length w) s) = upper w.
Proof.
  induction w as [|a w IH]; intros s.
  - simpl. rewrite substring_0_0. simpl. tauto.
  - destruct s as [|c s].
    + simpl. split; discriminate.
    + cbn [prefix_ci String.length substring upper].
      rewrite andb_true_iff, char_eq_upper, IH. split.
      * intros [H1 H2]. now rewrite H1, H2.
      * intros [= H1 H2]. now split.
Qed.

(** *** The matcher on [\bword\b] *)

Lemma lit_match_spec lit k : forall pos prev rest caps,
  lit_match true lit k pos prev rest caps =
  if prefix_ci lit rest
  then k (MState (pos + String.length lit)
                 (prev_at (String.length lit) prev rest)
                 (drop (String.length lit) rest) caps)
  else None.
Proof.
  induction lit as [|a lit IH]; intros pos prev rest caps.
  - simpl. now rewrite Nat.add_0_r.
  - destruct rest as [|c t]; [reflexivity|].
    cbn [lit_match prefix_ci].
    destruct (char_eq true a c); [|reflexivity].
    rewrite IH. cbn [andb].
    destruct (prefix_ci lit t); [|reflexivity].
    f_equal. cbn [String.length drop].
    f_equal; try lia; destruct (String.length lit); reflexivity.
Qed.

Lemma rmatch_wordb ic k st :
  rmatch ic WordB k st =
  if xorb (is_word_opt (m_prev st)) (is_word_opt (first_char (m_rest st)))
  then k st else None.
Proof.
  cbn [rmatch]. unfold word_before, word_after.
  destruct (m_prev st), (m_rest st); reflexivity.
Qed.

Lemma rmatch_keyword word pos prev s :
  rmatch true (re_keyword word) Some (MState pos prev s []) =
  if match_here word prev s
  then Some (MState (pos + String.length word)
                    (prev_at (String.length word) prev s)
                    (drop (String.length word) s) [])
  else None.
Proof.
  unfold re_keyword, match_here.
  change (rmatch true (WordB ;; Lit word ;; WordB)%re Some
                 (MState pos prev s []))
    with (rmatch true WordB
            (fun st => lit_match true word (rmatch true WordB Some)
                                 (m_pos st) (m_prev st) (m_rest st) (m_caps st))
            (MState pos prev s [])).
  rewrite rmatch_wordb. cbn [m_prev m_rest m_pos m_caps].
  destruct (xorb (is_word_opt prev) (is_word_opt (first_char s)));
    [|reflexivity].
  rewrite lit_match_spec. cbn [andb].
  destruct (prefix_ci word s); [|reflexivity].
  rewrite rmatch_wordb. cbn [m_prev m_rest].
  reflexivity.
Qed.

Lemma is_ident_char_word c : is_ident_char c = is_word c.
Proof. reflexivity. Qed.

Lemma prefix_ci_word_chars w : forall s n,
  all_ident w = true -> prefix_ci w s = true -> n < String.length w ->
  is_word_opt (String.get n s) = true.
Proof.
  induction w as [|a w IH]; intros s n Hw Hp Hn; [simpl in Hn; lia|].
  destruct s as [|c t]; [discriminate|].
  cbn [prefix_ci all_ident] in Hp, Hw.
  apply andb_prop in Hp. destruct Hp as [Hc Hp].
  apply andb_prop in Hw. destruct Hw as [Ha Hw].
  destruct n as [|n].
  - simpl. rewrite (char_eq_is_word _ _ Hc). exact Ha.
  - simpl. apply IH; [assumption|assumption|simpl in Hn; lia].
Qed.

Section Keyword.
Variable word : string.
Hypothesis word_ident : all_ident word = true.
Hypothesis word_nonempty : word <> "".

Lemma word_length_pos : 1 <= String.length word.
Proof. destruct word; [contradiction|simpl; lia]. Qed.

(** On a word of letters, digits and underscores the two [\b] ask for a
    character that is not of that kind before the match and after it. *)
Lemma match_here_word prev s :
  match_here word prev s =
  negb (is_word_opt prev) && prefix_ci word s
  && negb (is_word_opt (first_char (drop (String.length word) s))).
Proof.
  unfold match_here. destruct (prefix_ci word s) eqn:Hp.
  - pose proof word_length_pos as Hl.
    assert (H0 : is_word_opt (first_char s) = true).
    { rewrite <- (prefix_ci_word_chars word s 0 word_ident Hp) by lia.
      destruct s; reflexivity. }
    assert (H1 : is_word_opt (prev_at (String.length word) prev s) = true).
    { destruct (String.length word) as [|n] eqn:E; [lia|]. simpl.
      apply (prefix_ci_word_chars word); [exact word_ident|exact Hp|lia]. }
    rewrite H0, H1.
    destruct (is_word_opt prev),
             (is_word_opt (first_char (drop (String.length word) s)));
      reflexivity.
  - rewrite !andb_false_r. reflexivity.
Qed.

Lemma match_here_after_word prev s :
  is_word_opt prev = true -> match_here word prev s = false.
Proof. intros H. rewrite match_here_word, H. reflexivity. Qed.

(** [finditer] finds every occurrence: no occurrence starts among the
    characters of a match that it steps over. *)
Lemma finditer_occurrences s : forall skip pos prev,
  (0 < skip -> is_word_opt prev = true) ->
  (forall j, j < skip -> is_word_opt (String.get j s) = true) ->
  finditer_from true (re_keyword word) skip pos prev s
  = occurrences word pos prev s.
Proof.
  induction s as [|c t IH]; intros skip pos prev Hprev Hrun.
  - destruct skip as [|n].
    + cbn [finditer_from occurrences]. rewrite rmatch_keyword.
      destruct (match_here word prev ""); reflexivity.
    + specialize (Hrun 0 ltac:(lia)). discriminate.
  - destruct skip as [|n].
    + cbn [finditer_from occurrences]. rewrite rmatch_keyword.
      destruct (match_here word prev (String c t)) eqn:Hm.
      * cbn [m_pos app]. f_equal.
        rewrite match_here_word in Hm.
        apply andb_prop in Hm. destruct Hm as [Hm _].
        apply andb_prop in Hm. destruct Hm as [_ Hp].
        apply IH.
        -- intros _.
           exact (prefix_ci_word_chars word (String c t) 0 word_ident Hp
                                       word_length_pos).
        -- intros j Hj.
           apply (prefix_ci_word_chars word (String c t) (S j) word_ident Hp).
           lia.
      * cbn [app]. apply IH; [lia|intros j Hj; lia].
    + cbn [finditer_from occurrences].
      rewrite match_here_after_word by (apply Hprev; lia).
      cbn [app]. apply IH.
      * intros _. exact (Hrun 0 ltac:(lia)).
      * intros j Hj. exact (Hrun (S j) ltac:(lia)).
Qed.

Lemma drop_nonempty j : forall s, drop j s <> "" -> j < String.length s.
Proof.
  induction j as [|j IH]; intros [|c s] H; simpl in *; try congruence; try lia.
  specialize (IH s H). lia.
Qed.

Lemma match_here_in_range prev j s :
  match_here word prev (drop j s) = true -> j < String.length s.
Proof.
  intros H. rewrite match_here_word in H.
  apply andb_prop in H. destruct H as [H _].
  apply andb_prop in H. destruct H as [_ H].
  apply drop_nonempty. intros E. rewrite E in H.
  destruct word; [contradiction|discriminate].
Qed.

Lemma occurrences_In s : forall pos prev a b,
  In (a, b) (occurrences word pos prev s) <->
  exists j, a = pos + j /\ b = pos + j + String.length word
            /\ match_here word (prev_at j prev s) (drop j s) = true.
Proof.
  induction s as [|c t IH]; intros pos prev a b.
  - cbn [occurrences]. rewrite app_nil_r. split.
    + destruct (match_here word prev "") eqn:Hm; [|intros []].
      intros [[= <- <-]|[]]. exists 0. rewrite !Nat.add_0_r. auto.
    + intros (j & -> & -> & Hm).
      pose proof (match_here_in_range _ _ _ Hm) as Hj. simpl in Hj. lia.
  - cbn [occurrences]. rewrite in_app_iff, IH. split.
    + intros [H|H].
      * destruct (match_here word prev (String c t)) eqn:Hm; [|destruct H].
        destruct H as [[= <- <-]|[]]. exists 0. rewrite !Nat.add_0_r. auto.
      * destruct H as (j & -> & -> & Hm). exists (S j).
        split; [lia|]. split; [lia|].
        cbn [drop]. destruct j; exact Hm.
    + intros (j & -> & -> & Hm). destruct j as [|j].
      * left. cbn [prev_at drop] in Hm. rewrite Hm.
        left. rewrite !Nat.add_0_r. reflexivity.
      * right. exists j. split; [lia|]. split; [lia|].
        cbn [drop] in Hm. destruct j; exact Hm.
Qed.

Lemma match_here_whole_word line_text j :
  match_here word (prev_at j None line_text) (drop j line_text) = true <->
  whole_word_at word line_text j.
Proof.
  rewrite match_here_word, !andb_true_iff, !negb_true_iff.
  unfold whole_word_at.
  rewrite prefix_ci_upper, <- substring_drop.
  rewrite drop_drop, first_char_drop.
  assert (H1 : is_word_opt (prev_at j None line_text) = false <->
               match j with
               | O => True
               | S j' => match String.get j' line_text with
                         | Some c => is_word c = false
                         | None => True
                         end
               end).
  { destruct j as [|j']; simpl; [tauto|].
    destruct (String.get j' line_text); simpl; tauto. }
  assert (H2 : is_word_opt (String.get (j + String.length word) line_text)
               = false <->
               match String.get (j + String.length word) line_text with
               | Some c => is_word c = false
               | None => True
               end).
  { destruct (String.get (j + String.length word) line_text); simpl; tauto. }
  rewrite H1, H2. tauto.
Qed.

(** The spans that [finditer] returns on a line are those of the whole-word
    occurrences. *)
Lemma finditer_whole_word line_text a b :
  In (a, b) (finditer true (re_keyword word) line_text) <->
  whole_word_at word line_text a /\ b = a + String.length word.
Proof.
  unfold finditer.
  rewrite finditer_occurrences by (intros; lia).
  rewrite occurrences_In. split.
  - intros (j & -> & -> & Hm). simpl. split; [|reflexivity].
    now apply match_here_whole_word.
  - intros [H ->]. exists a. simpl. repeat split.
    now apply match_here_whole_word.
Qed.

Lemma occurrences_ge s : forall pos prev a b,
  In (a, b) (occurrences word pos prev s) -> pos <= a.
Proof.
  intros pos prev a b H. apply occurrences_In in H.
  destruct H as (j & -> & _). lia.
Qed.

Lemma occurrences_NoDup s : forall pos prev,
  NoDup (occurrences word pos prev s).
Proof.
  induction s as [|c t IH]; intros pos prev; cbn [occurrences].
  - rewrite app_nil_r. destruct (match_here word prev "");
      repeat constructor. intros [].
  - destruct (match_here word prev (String c t)); cbn [app]; [|apply IH].
    constructor; [|apply IH].
    intros H. apply occurrences_ge in H. lia.
Qed.

Lemma finditer_NoDup line_text :
  NoDup (finditer true (re_keyword word) line_text).
Proof.
  unfold finditer. rewrite finditer_occurrences by (intros; lia).
  apply occurrences_NoDup.
Qed.

End Keyword.

(** *** The word under the cursor *)

Lemma word_start_spec line_text : forall n,
  word_start line_text n <= n
  /\ forall j, word_start line_text n <= j < n ->
               is_word_opt (String.get j line_text) = true.
Proof.
  induction n as [|n [IH1 IH2]]; [simpl; split; [lia|intros; lia]|].
  cbn [word_start]. destruct (String.get n line_text) as [c|] eqn:G.
  - destruct (is_ident_char c) eqn:Hc.
    + split; [lia|]. intros j Hj.
      destruct (Nat.eq_dec j n) as [->|Hne].
      * rewrite G. exact Hc.
      * apply IH2. lia.
    + split; [lia|intros; lia].
  - split; [lia|intros; lia].
Qed.

Lemma word_end_spec rest : forall e,
  e <= word_end rest e
  /\ forall j, j < word_end rest e - e ->
               is_word_opt (String.get j rest) = true.
Proof.
  induction rest as [|c t IH]; intros e; cbn [word_end].
  - split; [lia|intros; lia].
  - destruct (is_ident_char c) eqn:Hc.
    + destruct (IH (S e)) as [IH1 IH2]. split; [lia|].
      intros [|j] Hj; [exact Hc|]. simpl. apply IH2. lia.
    + split; [lia|intros; lia].
Qed.

Lemma all_ident_substring_0 n : forall s,
  (forall j, j < n -> is_word_opt (String.get j s) = true) ->
  all_ident (substring 0 n s) = true.
Proof.
  induction n as [|n IH]; intros s H.
  - now rewrite substring_0_0.
  - destruct s as [|c t]; [reflexivity|].
    cbn [substring all_ident]. apply andb_true_intro. split.
    + exact (H 0 ltac:(lia)).
    + apply IH. intros j Hj. exact (H (S j) ltac:(lia)).
Qed.

Lemma all_ident_substring a n s :
  (forall j, a <= j < a + n -> is_word_opt (String.get j s) = true) ->
  all_ident (substring a n s) = true.
Proof.
  intros H. rewrite substring_drop. apply all_ident_substring_0.
  intros j Hj. rewrite <- get_drop. apply H. lia.
Qed.

(** The word that the reference search looks for is made of letters,
    digits and underscores. *)
Lemma get_word_all_ident text l c :
  all_ident (_get_word_at_position text l c) = true.
Proof.
  unfold _get_word_at_position.
  destruct (nth_error (split_on "010" text) l) as [lt|]; [|reflexivity].
  set (c' := if Nat.ltb (String.length lt) c then String.length lt else c).
  destruct (word_start_spec lt c') as [Hs1 Hs2].
  destruct (word_end_spec (drop c' lt) c') as [He1 He2].
  apply all_ident_substring. intros j Hj.
  destruct (Nat.lt_ge_cases j c') as [Hlt|Hge].
  - apply Hs2. lia.
  - replace j with (c' + (j - c')) by lia. rewrite get_drop.
    apply He2. lia.
Qed.

(** *** The loop over the lines *)

Lemma references_loop_In r pattern : forall ls i,
  In r (references_loop pattern ls i) <->
  exists k line_text a b,
    nth_error ls k = Some line_text
    /\ In (a, b) (finditer true pattern line_text)
    /\ r = mkRange (mkPosition (i + k) a) (mkPosition (i + k) b).
Proof.
  induction ls as [|lt ls IH]; intros i; cbn [references_loop].
  - split; [intros []|]. intros (k & x & a & b & H & _).
    destruct k; discriminate.
  - rewrite in_app_iff, in_map_iff, IH. split.
    + intros [H|H].
      * destruct H as ([a b] & <- & Hin). exists 0, lt, a, b.
        rewrite Nat.add_0_r. auto.
      * destruct H as (k & x & a & b & Hn & Hin & ->).
        exists (S k), x, a, b.
        replace (i + S k) with (S i + k) by lia. auto.
    + intros (k & x & a & b & Hn & Hin & ->). destruct k as [|k].
      * left. injection Hn as ->. exists (a, b).
        rewrite Nat.add_0_r. auto.
      * right. exists k, x, a, b. simpl in Hn.
        replace (i + S k) with (S i + k) by lia. auto.
Qed.

Lemma references_loop_ge r pattern ls i :
  In r (references_loop pattern ls i) -> i <= line (range_start r).
Proof.
  intros H. apply references_loop_In in H.
  destruct H as (k & x & a & b & _ & _ & ->). simpl. lia.
Qed.

Lemma NoDup_map_injective {A B : Type} (f : A -> B) (l : list A) :
  (forall x y, f x = f y -> x = y) -> NoDup l -> NoDup (map f l).
Proof.
  intros Hinj H. induction H as [|x l Hx H IH]; simpl; constructor; auto.
  intros Hin. apply in_map_iff in Hin. destruct Hin as (y & Hy & Hin).
  apply Hinj in Hy. now subst.
Qed.

Lemma references_loop_NoDup pattern :
  (forall line_text, NoDup (finditer true pattern line_text)) ->
  forall ls i, NoDup (references_loop pattern ls i).
Proof.
  intros Hnd. induction ls as [|lt ls IH]; intros i;
    cbn [references_loop]; [constructor|].
  apply NoDup_app.
  - apply NoDup_map_injective; [|apply Hnd].
    intros [a b] [a' b'] [= -> ->]. reflexivity.
  - apply IH.
  - intros r H1 H2. apply in_map_iff in H1.
    destruct H1 as ([a b] & <- & _).
    apply references_loop_ge in H2. simpl in H2. lia.
Qed.

Lemma is_empty_spec s : is_empty s = true <-> s = "".
Proof. destruct s; simpl; split; congruence. Qed.

(** C6: for every document and cursor, with [word] the word under the
    cursor, the reference search returns one range for each place where
    [word] stands as a whole word, case ignored, and nothing else: a range
    is in the result exactly when it is the span [j .. j + len word] on a
    line (lines and offsets counted from 0) at which [word] occurs between
    word boundaries, and no range is returned twice.  An occurrence inside
    a longer identifier is no whole-word occurrence: on [doc_count] the
    search for [count] finds [count], [Count] and [(count)], and skips
    [accounting] and [COUNT_2]. *)
Theorem C6_references_whole_word (text : string) (position : LSPPosition) :
  let word :=
    _get_word_at_position text (line position) (character position) in
  let result := _handle_references text position in
  (forall r,
     In r result <->
     word <> ""
     /\ exists i line_text j,
          nth_error (split_on "010" text) i = Some line_text
          /\ whole_word_at word line_text j
          /\ r = mkRange (mkPosition i j)
                         (mkPosition i (j + String.length word)))
  /\ NoDup result
  /\ _get_word_at_position doc_count 0 5 = "count"
  /\ _handle_references doc_count (mkPosition 0 5)
     = [ mkRange (mkPosition 0 5) (mkPosition 0 10);
         mkRange (mkPosition 1 0) (mkPosition 1 5);
         mkRange (mkPosition 1 26) (mkPosition 1 31) ].
Proof.
  intros word result.
  assert (Hid : all_ident word = true) by apply get_word_all_ident.
  unfold result, _handle_references. fold word.
  destruct (is_empty word) eqn:E.
  - apply is_empty_spec in E. split; [|split; [constructor|]].
    + intros r. split; [intros []|]. intros [H _]. contradiction.
    + split; vm_compute; reflexivity.
  - assert (Hne : word <> "").
    { intros H. apply is_empty_spec in H. congruence. }
    split; [|split].
    + intros r. unfold reference_pattern. rewrite references_loop_In.
      split.
      * intros (k & lt & a & b & Hn & Hin & ->).
        apply (finditer_whole_word word Hid Hne) in Hin.
        destruct Hin as [Hw ->]. split; [exact Hne|].
        exists k, lt, a. auto.
      * intros (_ & i & lt & j & Hn & Hw & ->).
        exists i, lt, j, (j + String.length word).
        split; [exact Hn|]. split; [|reflexivity].
        apply (finditer_whole_word word Hid Hne). auto.
    + apply references_loop_NoDup. intros lt.
      apply (finditer_NoDup word Hid Hne).
    + split; vm_compute; reflexivity.
Qed.

(** The statement at [doc_count]: [Count] at the head of line 1 is a
    whole-word occurrence of [count], hence in the result. *)
Lemma C6_references_whole_word_witness :
  In (mkRange (mkPosition 1 0) (mkPosition 1 5))
     (_handle_references doc_count (mkPosition 0 5)).
Proof.
  apply (proj1 (C6_references_whole_word doc_count (mkPosition 0 5))).
  split; [vm_compute; discriminate|].
  exists 1, "Count accounting COUNT_2 (count)", 0.
  split; [vm_compute; reflexivity|].
  split; [|vm_compute; reflexivity].
  unfold whole_word_at. vm_compute. repeat split.
Defined.

(** * Further properties of the code *)

(** ** The symbol table: declarations and scopes *)

Lemma string_app_length_neq (p s : string) :
  p <> "" -> (p ++ s)%string <> s.
Proof.
  intros Hp H. apply (f_equal String.length) in H.
  rewrite length_app_string in H. destruct p; [contradiction|simpl in H; lia].
Qed.

(** X1: a declaration that [add_dcl] stores is the one [get_dcl] finds
    under its name, with the current scope recorded in it: inside a module
    always, and at global scope provided the table has no key
    [GLOBAL.name]. *)
Theorem add_dcl_get_dcl (m : ChillSemanticModel) (d : DclDefinition) :
  (current_scope m = "GLOBAL" ->
   Dict.get (dcls m) ("GLOBAL." ++ d_name d)%string = None) ->
  get_dcl (add_dcl m d) (d_name d)
  = Some (set_parent_scope d (current_scope m)).
Proof.
  intros Hg. unfold get_dcl, add_dcl, Dict.mem.
  cbn [dcls set_dcls current_scope d_name set_parent_scope].
  destruct (String.eqb (current_scope m) "GLOBAL") eqn:E; cbv [negb].
  - apply String.eqb_eq in E. rewrite E in *.
    assert (Hne : d_name d <> ("GLOBAL" ++ "." ++ d_name d)%string).
    { intros H. symmetry in H. revert H.
      change ("GLOBAL" ++ "." ++ d_name d)%string
        with ("GLOBAL." ++ d_name d)%string.
      apply string_app_length_neq. discriminate. }
    rewrite !(dict_get_set_ne _ _ _ _ Hne).
    change ("GLOBAL" ++ "." ++ d_name d)%string
      with ("GLOBAL." ++ d_name d)%string.
    rewrite (Hg eq_refl). rewrite dict_get_set_eq. reflexivity.
  - rewrite dict_get_set_eq. reflexivity.
Qed.

Lemma add_dcl_get_dcl_witness :
  get_dcl (add_dcl new_model (new_field "x" BOOL)) "x"
  = Some (set_parent_scope (new_field "x" BOOL) "GLOBAL").
Proof.
  apply (add_dcl_get_dcl new_model (new_field "x" BOOL)).
  intros _. reflexivity.
Defined.

(** X2: [pop_scope] undoes [push_scope], whatever the model and the
    name, and does nothing when no scope was pushed. *)
Theorem pop_push_scope (m : ChillSemanticModel) (name : string) :
  pop_scope (push_scope m name) = m
  /\ (scope_stack m = [] -> pop_scope m = m).
Proof.
  split.
  - destruct m. unfold pop_scope, push_scope. cbn [scope_stack current_scope].
    rewrite rev_app_distr. cbn [rev app]. rewrite rev_involutive. reflexivity.
  - intros H. unfold pop_scope. rewrite H. reflexivity.
Qed.

Lemma pop_push_scope_witness : pop_scope new_model = new_model.
Proof.
  exact (proj2 (pop_push_scope new_model "m") eq_refl).
Defined.

(** ** The scanner and the scope *)

Lemma parse_module_scope line_text line_num m :
  exists ext,
    scope_stack (_parse_module line_text line_num m) = scope_stack m ++ ext.
Proof.
  unfold _parse_module. destruct (re_match true re_module line_text).
  - eexists. reflexivity.
  - exists []. now rewrite app_nil_r.
Qed.

Lemma parse_newmode_scope line_text line_num m m' :
  _parse_newmode line_text line_num m = Ok m' ->
  scope_stack m' = scope_stack m /\ current_scope m' = current_scope m.
Proof.
  unfold _parse_newmode.
  destruct (re_match true re_newmode line_text) as [mt|]; [|now intros [= <-]].
  destruct (_infer_base_mode _); [|discriminate]. cbn [bind].
  destruct (match re_match true re_range _ with
            | Some _ => _ | None => _ end) as [[lo hi]|]; [|discriminate].
  cbn [bind].
  destruct (match re_match true re_struct _ with
            | Some s => _ | None => _ end); [|discriminate].
  cbn [bind]. intros [= <-]. split; reflexivity.
Qed.

Lemma parse_dcl_scope line_text line_num m m' :
  _parse_dcl line_text line_num m = Ok m' ->
  scope_stack m' = scope_stack m /\ current_scope m' = current_scope m.
Proof.
  unfold _parse_dcl.
  destruct (re_match true re_dcl line_text) as [mt|]; [|now intros [= <-]].
  destruct (_mode_str_to_enum _); [|discriminate]. cbn [bind].
  destruct (_is_builtin_mode _); [|discriminate]. cbn [bind].
  intros [= <-]. split; reflexivity.
Qed.

Lemma parse_line_scope ls i line_text m m' :
  _parse_line ls i line_text m = Ok m' ->
  (exists ext, scope_stack m' = scope_stack m ++ ext)
  /\ (startswith (upper (strip line_text)) "MODULE" = false ->
      scope_stack m' = scope_stack m /\ current_scope m' = current_scope m).
Proof.
  unfold _parse_line.
  destruct (startswith (upper (strip line_text)) "MODULE").
  { intros [= <-]. split; [apply parse_module_scope|discriminate]. }
  assert (Hsame : (scope_stack m' = scope_stack m
                   /\ current_scope m' = current_scope m) ->
                  (exists ext, scope_stack m' = scope_stack m ++ ext)
                  /\ (false = false ->
                      scope_stack m' = scope_stack m
                      /\ current_scope m' = current_scope m)).
  { intros [H1 H2]. split; [exists []; now rewrite app_nil_r|auto]. }
  destruct (startswith (upper (strip line_text)) "NEWMODE"
            || startswith (upper (strip line_text)) "SYNMODE").
  { intros H. apply Hsame. eapply parse_newmode_scope; eassumption. }
  destruct (startswith (upper (strip line_text)) "DCL").
  { intros H. apply Hsame. eapply parse_dcl_scope; eassumption. }
  destruct (startswith (upper (strip line_text)) "SYN").
  { intros [= <-]. apply Hsame. unfold _parse_syn.
    destruct (re_match true re_syn _); split; reflexivity. }
  destruct (is_match false re_is_proc (upper (strip line_text))).
  { intros [= <-]. apply Hsame. unfold _parse_proc.
    destruct (re_match true re_proc _); split; reflexivity. }
  destruct (is_match false re_is_process (upper (strip line_text))).
  { intros [= <-]. apply Hsame. unfold _parse_process.
    destruct (re_match true re_process _); split; reflexivity. }
  destruct (startswith (upper (strip line_text)) "SIGNAL").
  { intros [= <-]. apply Hsame. unfold _parse_signal.
    destruct (re_match true re_signal _); split; reflexivity. }
  intros [= <-]. apply Hsame. split; reflexivity.
Qed.

(** X3: the scanner opens scopes and never closes one.  Whatever the
    lines, the scope stack of the model it leaves extends the stack it
    started from; and lines without a module header leave the stack and
    the current scope alone.  A declaration that follows the [END] of a
    module is therefore still qualified by the module's name: on
    [doc_after_module] the keys are [x] and [A.x]. *)
Theorem scanner_never_closes_scope
        (ls rest : list string) (i : nat) (m : ChillSemanticModel) :
  let m' := fst (_parse_declarations_loop ls rest i m) in
  (exists ext, scope_stack m' = scope_stack m ++ ext)
  /\ (no_module_line rest ->
      scope_stack m' = scope_stack m /\ current_scope m' = current_scope m)
  /\ Dict.keys (dcls (parsed doc_after_module)) = ["x"; "A.x"].
Proof.
  cbv zeta. split; [|split; [|vm_compute; reflexivity]].
  - revert i m. induction rest as [|l rest IH]; intros i m; cbn.
    + exists []. now rewrite app_nil_r.
    + destruct (_parse_line ls i l m) as [m1|e] eqn:E; cbn.
      * destruct (proj1 (parse_line_scope _ _ _ _ _ E)) as [e1 H1].
        destruct (IH (S i) m1) as [e2 H2].
        exists (e1 ++ e2). rewrite H2, H1, app_assoc. reflexivity.
      * exists []. now rewrite app_nil_r.
  - revert i m. induction rest as [|l rest IH]; intros i m Hn; cbn.
    + split; reflexivity.
    + inversion Hn as [|? ? Hl Hrest]; subst.
      destruct (_parse_line ls i l m) as [m1|e] eqn:E; cbn.
      * destruct (proj2 (parse_line_scope _ _ _ _ _ E) Hl) as [H1 H2].
        destruct (IH (S i) m1 Hrest) as [H3 H4].
        split; congruence.
      * split; reflexivity.
Qed.

Lemma scanner_never_closes_scope_witness :
  current_scope (fst (_parse_declarations_loop
                        ["DCL x INT;"] ["DCL x INT;"] 0
                        (push_scope new_model "M")))
  = "M".
Proof.
  apply (proj1 (proj2 (scanner_never_closes_scope
                         ["DCL x INT;"] ["DCL x INT;"] 0
                         (push_scope new_model "M")))).
  repeat constructor.
Defined.

(** ** Exceptions of the scanner *)

Lemma is_space_upper c : is_space (upper_char c) = is_space c.
Proof. all_chars c. Qed.

Lemma upper_char_idem c : upper_char (upper_char c) = upper_char c.
Proof. all_chars c. Qed.

Lemma upper_idem s : upper (upper s) = upper s.
Proof. induction s; simpl; [reflexivity|]. now rewrite upper_char_idem, IHs. Qed.

Lemma all_space_upper s : all_space (upper s) = all_space s.
Proof. induction s; simpl; [reflexivity|]. now rewrite is_space_upper, IHs. Qed.

Lemma is_empty_upper s : is_empty (upper s) = is_empty s.
Proof. destruct s; reflexivity. Qed.

Lemma split_ws_nil s : split_ws s = [] <-> all_space s = true.
Proof.
  induction s as [|c t IH]; cbn [split_ws all_space]; [tauto|].
  destruct (is_space c); cbn [andb]; [exact IH|].
  split; [|discriminate].
  destruct t as [|c' t']; [discriminate|].
  destruct (is_space c'); [discriminate|].
  destruct (split_ws (String c' t')); discriminate.
Qed.

Lemma split_ws_tokens s : Forall (fun t => all_space t = false) (split_ws s).
Proof.
  induction s as [|c t IH]; cbn [split_ws]; [constructor|].
  destruct (is_space c) eqn:Hc; [exact IH|].
  assert (Ht : forall h, all_space (String c h) = false)
    by (intros h; cbn [all_space]; now rewrite Hc).
  destruct t as [|c' t']; [repeat constructor; apply Ht|].
  destruct (is_space c').
  - constructor; [apply Ht|exact IH].
  - destruct (split_ws (String c' t')) as [|h r].
    + repeat constructor. apply Ht.
    + inversion IH; subst. constructor; [apply Ht|assumption].
Qed.

Lemma all_space_lstrip s : all_space (lstrip_by is_space s) = all_space s.
Proof.
  induction s as [|c t IH]; [reflexivity|]. cbn [lstrip_by all_space].
  destruct (is_space c) eqn:Hc; [exact IH|].
  cbn [all_space]. now rewrite Hc.
Qed.

Lemma all_space_rstrip s : all_space (rstrip_by is_space s) = all_space s.
Proof.
  induction s as [|c t IH]; [reflexivity|]. cbn [rstrip_by all_space].
  destruct (is_empty (rstrip_by is_space t)) eqn:He;
    destruct (is_space c) eqn:Hc; cbn [andb all_space];
    rewrite ?Hc; cbn [andb]; try reflexivity; try exact IH.
  apply is_empty_spec in He. rewrite He in IH. now rewrite <- IH.
Qed.

Lemma all_space_strip s : all_space (strip s) = all_space s.
Proof. unfold strip. now rewrite all_space_rstrip, all_space_lstrip. Qed.

Lemma lstrip_all_space s : all_space s = true -> lstrip_by is_space s = "".
Proof.
  induction s as [|c t IH]; [reflexivity|]. cbn [all_space lstrip_by].
  intros H. apply andb_prop in H. destruct H as [-> H]. auto.
Qed.

Lemma strip_all_space s : all_space s = true -> strip s = "".
Proof. intros H. unfold strip. now rewrite (lstrip_all_space _ H). Qed.

(** A stripped text is empty as soon as it is blank. *)
Lemma strip_blank_empty s : all_space (strip s) = true -> strip s = "".
Proof. rewrite all_space_strip. apply strip_all_space. Qed.

Lemma mode_str_to_enum_raises s :
  (exists e, _mode_str_to_enum s = Raise e) <->
  s <> "" /\ all_space s = true.
Proof.
  unfold _mode_str_to_enum. destruct s as [|c t].
  - cbn. split; [intros [e H]; discriminate|intros [H _]; congruence].
  - cbn [is_empty negb].
    destruct (split_ws (strip (upper (String c t)))) as [|f r] eqn:E.
    + cbn [bind]. split; [|intros _; eexists; reflexivity]. intros _.
      split; [discriminate|].
      apply split_ws_nil in E.
      now rewrite all_space_strip, all_space_upper in E.
    + cbn [bind]. split; [intros [e H]; discriminate|].
      intros [_ H]. exfalso.
      assert (Hn : split_ws (strip (upper (String c t))) = []).
      { apply split_ws_nil.
        now rewrite all_space_strip, all_space_upper. }
      congruence.
Qed.

Lemma is_builtin_mode_raises s :
  (exists e, _is_builtin_mode s = Raise e) <-> all_space s = true.
Proof.
  unfold _is_builtin_mode. destruct (split_ws (upper s)) as [|f r] eqn:E.
  - split; [|intros _; eexists; reflexivity]. intros _.
    apply split_ws_nil in E. now rewrite all_space_upper in E.
  - split; [intros [e H]; discriminate|]. intros H. exfalso.
    assert (Hn : split_ws (upper s) = [])
      by (apply split_ws_nil; now rewrite all_space_upper).
    congruence.
Qed.

Lemma is_builtin_mode_exn s e :
  _is_builtin_mode s = Raise e -> e = IndexError.
Proof.
  unfold _is_builtin_mode. destruct (split_ws (upper s)); [|discriminate].
  now intros [= <-].
Qed.

Lemma mode_str_to_enum_exn s e :
  _mode_str_to_enum s = Raise e -> e = IndexError.
Proof.
  unfold _mode_str_to_enum. destruct (negb (is_empty s)); [|discriminate].
  destruct (split_ws (strip (upper s))); cbn [bind]; [|discriminate].
  now intros [= <-].
Qed.

(** X4: the two mode look-ups raise exactly on blank input:
    [_is_builtin_mode] on every text without a visible character, the
    empty one included, [_mode_str_to_enum] on the same texts but the
    empty one, which it answers with [USER]. *)
Theorem mode_lookups_raise_on_blank (mode_str : string) :
  (_is_builtin_mode mode_str = Raise IndexError <-> all_space mode_str = true)
  /\ (_mode_str_to_enum mode_str = Raise IndexError <->
      mode_str <> "" /\ all_space mode_str = true)
  /\ _mode_str_to_enum "" = Ok USER_DEFINED.
Proof.
  split; [|split; [|reflexivity]].
  - rewrite <- is_builtin_mode_raises. split; [eauto|].
    intros [e H]. now rewrite <- (is_builtin_mode_exn _ _ H).
  - rewrite <- mode_str_to_enum_raises. split; [eauto|].
    intros [e H]. now rewrite <- (mode_str_to_enum_exn _ _ H).
Qed.

Lemma mode_lookups_raise_on_blank_witness :
  _is_builtin_mode "  " = Raise IndexError.
Proof.
  exact (proj2 (proj1 (mode_lookups_raise_on_blank "  ")) eq_refl).
Defined.

Lemma mode_str_to_enum_ok_stripped s :
  exists md, _mode_str_to_enum (strip s) = Ok md.
Proof.
  destruct (_mode_str_to_enum (strip s)) as [md|e] eqn:E; [eauto|].
  exfalso.
  destruct (proj1 (mode_str_to_enum_raises (strip s)) (ex_intro _ e E))
    as [Hne Hb].
  apply strip_blank_empty in Hb. contradiction.
Qed.

Lemma mode_str_to_enum_ok_token t :
  all_space t = false -> exists md, _mode_str_to_enum t = Ok md.
Proof.
  intros Ht. destruct (_mode_str_to_enum t) as [md|e] eqn:E; [eauto|].
  exfalso.
  destruct (proj1 (mode_str_to_enum_raises t) (ex_intro _ e E)) as [_ Hb].
  congruence.
Qed.

Lemma infer_base_mode_ok s : exists md, _infer_base_mode s = Ok md.
Proof.
  unfold _infer_base_mode.
  repeat match goal with
         | |- context [if ?b then Ok ?x else _] =>
             destruct b; [eexists; reflexivity|]
         end.
  apply mode_str_to_enum_ok_stripped.
Qed.

Lemma last_in_tokens (parts : list string) :
  parts <> [] -> In (last parts "") parts.
Proof.
  induction parts as [|a [|b r] IH]; [congruence|simpl; auto|].
  intros _. right. apply IH. discriminate.
Qed.

Lemma parse_struct_fields_loop_ok fields : forall acc,
  exists d, _parse_struct_fields_loop fields acc = Ok d.
Proof.
  induction fields as [|f fields IH]; intros acc; cbn [_parse_struct_fields_loop].
  - eauto.
  - destruct (Nat.leb 2 (List.length (split_ws (strip f)))) eqn:E; [|apply IH].
    apply Nat.leb_le in E.
    assert (Hlt : Nat.ltb 1 (List.length (split_ws (strip f))) = true)
      by (apply Nat.ltb_lt; lia).
    rewrite Hlt.
    assert (Hne : split_ws (strip f) <> [])
      by (destruct (split_ws (strip f)); [simpl in E; lia|discriminate]).
    pose proof (last_in_tokens _ Hne) as Hin.
    pose proof (split_ws_tokens (strip f)) as Htok.
    rewrite Forall_forall in Htok.
    destruct (mode_str_to_enum_ok_token _ (Htok _ Hin)) as [md Hmd].
    rewrite Hmd. cbn [bind]. apply IH.
Qed.

Lemma parse_struct_fields_match_ok (mode_def : string) :
  exists fields,
    match re_match true re_struct mode_def with
    | Some struct_match =>
        _parse_struct_fields Dict.empty (group' struct_match 1)
    | None => Ok Dict.empty
    end = Ok fields.
Proof.
  destruct (re_match true re_struct mode_def) as [st|]; [|eauto].
  apply parse_struct_fields_loop_ok.
Qed.

(** [_parse_newmode] raises on the ranges that [int] refuses, and what it
    raises is [ValueError]. *)
Lemma parse_newmode_raises line_text line_num m e :
  _parse_newmode line_text line_num m = Raise e <->
  e = ValueError /\ long_range_mode line_text = true.
Proof.
  unfold _parse_newmode, long_range_mode, range_too_long.
  destruct (re_match true re_newmode line_text) as [mt|];
    [|split; [discriminate|intros [_ H]; discriminate]].
  destruct (infer_base_mode_ok (strip (rstrip_char ";" (group' mt 2))))
    as [md ->].
  cbn [bind].
  destruct (parse_struct_fields_match_ok
              (strip (rstrip_char ";" (group' mt 2)))) as [fields Hf].
  destruct (re_match true re_range _) as [rm|]; unfold int_of_str.
  - destruct (Nat.ltb max_str_digits
                      (String.length (int_digits (group' rm 1)))); cbn [bind orb].
    + split; [now intros [= <-]|now intros [-> _]].
    + destruct (Nat.ltb max_str_digits
                        (String.length (int_digits (group' rm 2))));
        cbn [bind].
      * split; [now intros [= <-]|now intros [-> _]].
      * rewrite Hf. cbn [bind].
        split; [discriminate|intros [_ H]; discriminate].
  - cbn [bind]. rewrite Hf. cbn [bind].
    split; [discriminate|intros [_ H]; discriminate].
Qed.

Lemma parse_dcl_raises line_text line_num m :
  (exists e, _parse_dcl line_text line_num m = Raise e) <->
  match re_match true re_dcl line_text with
  | Some mt => is_empty (strip (group' mt 2))
  | None => false
  end = true.
Proof.
  unfold _parse_dcl.
  destruct (re_match true re_dcl line_text) as [mt|].
  - destruct (mode_str_to_enum_ok_stripped (group' mt 2)) as [md ->].
    cbn [bind].
    destruct (_is_builtin_mode (strip (group' mt 2))) as [b|e] eqn:E;
      cbn [bind].
    + split; [intros [e H]; discriminate|]. intros H. exfalso.
      apply is_empty_spec in H.
      assert (Hr : exists e, _is_builtin_mode (strip (group' mt 2)) = Raise e).
      { apply is_builtin_mode_raises. rewrite H. reflexivity. }
      destruct Hr as [e He]. congruence.
    + split; [|eauto]. intros _. apply is_empty_spec.
      apply strip_blank_empty. apply is_builtin_mode_raises. eauto.
  - split; [intros [e H]; discriminate|discriminate].
Qed.

Lemma parse_dcl_exn line_text line_num m e :
  _parse_dcl line_text line_num m = Raise e -> e = IndexError.
Proof.
  unfold _parse_dcl.
  destruct (re_match true re_dcl line_text) as [mt|]; [|discriminate].
  destruct (_mode_str_to_enum _) as [md|e1] eqn:E1; cbn [bind].
  - destruct (_is_builtin_mode _) as [b|e2] eqn:E2; cbn [bind];
      [discriminate|].
    intros [= <-]. exact (is_builtin_mode_exn _ _ E2).
  - intros [= <-]. exact (mode_str_to_enum_exn _ _ E1).
Qed.

Lemma parse_line_raises ls i line_text m e :
  _parse_line ls i line_text m = Raise e <-> raising_line line_text = Some e.
Proof.
  unfold _parse_line, raising_line, blank_mode_dcl, long_range_newmode.
  destruct (startswith (upper (strip line_text)) "MODULE"); cbn [negb andb].
  { split; discriminate. }
  destruct (startswith (upper (strip line_text)) "NEWMODE"
            || startswith (upper (strip line_text)) "SYNMODE");
    cbn [negb andb].
  { rewrite parse_newmode_raises.
    destruct (long_range_mode (strip line_text)).
    - split; [now intros [-> _]|now intros [= <-]].
    - split; [intros [_ H]; discriminate|discriminate]. }
  destruct (startswith (upper (strip line_text)) "DCL"); cbn [andb].
  { pose proof (parse_dcl_raises (strip line_text) (i + 1) m) as R.
    destruct (match re_match true re_dcl (strip line_text) with
              | Some mt => is_empty (strip (group' mt 2))
              | None => false
              end).
    - destruct (proj2 R eq_refl) as [e' He'].
      rewrite He'. rewrite (parse_dcl_exn _ _ _ _ He').
      split; intros [= <-]; reflexivity.
    - split; [|discriminate]. intros H.
      assert (Hf : false = true) by (apply R; eauto). discriminate. }
  split; [|discriminate]. intros H.
  repeat match type of H with
         | (if ?b then _ else _) = _ => destruct b
         end; discriminate.
Qed.

Lemma parse_loop_raises ls : forall rest i m,
  (forall e, snd (_parse_declarations_loop ls rest i m) = Raise e <->
             first_raise rest = Some e)
  /\ (snd (_parse_declarations_loop ls rest i m) = Ok tt <->
      first_raise rest = None).
Proof.
  induction rest as [|l rest IH]; intros i m;
    cbn [_parse_declarations_loop first_raise].
  - cbn. split; [intros e|]; split; try discriminate; reflexivity.
  - pose proof (parse_line_raises ls i l m) as R.
    destruct (_parse_line ls i l m) as [m1|e1] eqn:E.
    + destruct (raising_line l) as [e2|].
      * assert (H : @Ok ChillSemanticModel m1 = Raise e2) by (now apply R).
        discriminate.
      * apply IH.
    + rewrite (proj1 (R e1) eq_refl). cbn [snd].
      split; [intros e|]; split; congruence.
Qed.

(** X6: on ASCII text [parse] raises exactly when some line of the cleaned
    source is a declaration with a blank mode text or a mode definition
    with a range bound of more than 4300 digits; the first such line
    decides what is raised, [IndexError] for the declaration and
    [ValueError] for the range; on every other text [parse] returns a
    model. *)
Theorem parse_raises_iff (self : ChillParser) (source : string) :
  is_ascii_text source = true ->
  (forall e, snd (parse self source) = Raise e <->
             first_raise (split_on "010" (_preprocess source)) = Some e)
  /\ ((exists m, snd (parse self source) = Ok m) <->
      first_raise (split_on "010" (_preprocess source)) = None).
Proof.
  intros _. unfold parse. cbn [model lines current_line].
  unfold _parse_declarations.
  destruct (parse_loop_raises (split_on "010" (_preprocess source))
              (split_on "010" (_preprocess source)) 0 new_model) as [H1 H2].
  destruct (_parse_declarations_loop _ _ 0 new_model) as [m r].
  cbn [snd] in *. split.
  - intros e. rewrite <- H1. destruct r as [[]|e']; split; congruence.
  - rewrite <- H2. destruct r as [[]|e']; cbn [model].
    + split; [reflexivity|eauto].
    + split; [intros [x Hx]; discriminate|discriminate].
Qed.

Lemma parse_raises_iff_witness :
  exists m, snd (parse new_parser "DCL x ;
NEWMODE r = RANGE(0:9);") = Ok m.
Proof.
  apply (proj2 (parse_raises_iff new_parser "DCL x ;
NEWMODE r = RANGE(0:9);" eq_refl)).
  vm_compute. reflexivity.
Defined.

(** X5: a mode definition makes the scanner fail in one way only.
    [_infer_base_mode] returns a mode on every text and
    [_parse_struct_fields] a dictionary, although both go through
    [_mode_str_to_enum], which raises on blank text; [_parse_newmode]
    raises exactly on a line that its pattern matches and whose mode text
    is a range with a bound of more than 4300 digits, which [int] refuses,
    and what it raises is [ValueError]; on every other line it returns a
    model.  Such a line exists: a bound of 4301 nines. *)
Theorem newmode_raises_only_on_long_range
        (mode_str line_text : string) (line_num : nat) (m : ChillSemanticModel) :
  (exists md, _infer_base_mode mode_str = Ok md)
  /\ (exists fields,
        _parse_struct_fields Dict.empty mode_str = Ok fields)
  /\ (forall e, _parse_newmode line_text line_num m = Raise e <->
                e = ValueError /\ long_range_mode line_text = true)
  /\ ((exists m', _parse_newmode line_text line_num m = Ok m') <->
      long_range_mode line_text = false)
  /\ _parse_newmode ("NEWMODE big = RANGE(0:" ++ nines 4300 ++ ");")
                    line_num m
     <> Raise ValueError
  /\ _parse_newmode ("NEWMODE big = RANGE(0:" ++ nines 4301 ++ ");")
                    line_num m
     = Raise ValueError.
Proof.
  split; [apply infer_base_mode_ok|].
  split; [apply parse_struct_fields_loop_ok|].
  split; [intros e; apply parse_newmode_raises|].
  split; [|split].
  - pose proof (fun e => parse_newmode_raises line_text line_num m e) as R.
    destruct (_parse_newmode line_text line_num m) as [m'|e] eqn:E.
    + split; [intros _|eauto].
      destruct (long_range_mode line_text); [|reflexivity].
      assert (H : @Ok ChillSemanticModel m' = Raise ValueError)
        by (apply R; auto).
      discriminate.
    + destruct (proj1 (R e) eq_refl) as [_ ->].
      split; [intros [m' H]; discriminate|discriminate].
  - intros H. apply parse_newmode_raises in H. destruct H as [_ H].
    vm_compute in H. discriminate.
  - apply parse_newmode_raises. split; [reflexivity|].
    vm_compute. reflexivity.
Qed.

(** ** The extent of a body: bounds *)

Lemma line_delta_end l :
  line_delta l = (-1)%Z ->
  startswith (upper (strip l)) "END" = true
  /\ is_match false re_nested (upper (strip l)) = false.
Proof.
  unfold line_delta.
  destruct (is_match false re_nested (upper (strip l))); cbn [orb];
    [discriminate|].
  destruct (startswith (upper (strip l)) "BEGIN"); [discriminate|].
  destruct (startswith (upper (strip l)) "END"); [auto|discriminate].
Qed.

Lemma find_end_loop_bounds rest : forall i d start_idx,
  _find_end_loop rest i d start_idx = start_idx + 1
  \/ (i < _find_end_loop rest i d start_idx <= i + List.length rest
      /\ exists l,
           nth_error rest (_find_end_loop rest i d start_idx - 1 - i) = Some l
           /\ startswith (upper (strip l)) "END" = true
           /\ is_match false re_nested (upper (strip l)) = false).
Proof.
  induction rest as [|l rest IH]; intros i d start_idx; [left; reflexivity|].
  rewrite find_end_loop_step.
  destruct ((line_delta l =? -1)%Z && (d + line_delta l =? 0)%Z) eqn:E.
  - right. apply andb_prop in E. destruct E as [E _].
    apply Z.eqb_eq in E. split; [simpl; lia|].
    exists l. replace (i + 1 - 1 - i) with 0 by lia.
    split; [reflexivity|]. now apply line_delta_end.
  - destruct (IH (S i) (d + line_delta l)%Z start_idx)
      as [H|(Hb & l' & Hn & He)]; [left; exact H|].
    right. split; [simpl; lia|]. exists l'. split; [|exact He].
    replace (_find_end_loop rest (S i) (d + line_delta l) start_idx - 1 - i)
      with (S (_find_end_loop rest (S i) (d + line_delta l) start_idx
               - 1 - S i)) by lia.
    exact Hn.
Qed.

(** The value of [_find_end] lies between the header line and the last
    line, and names a closing line when it is not the header line. *)
Lemma find_end_in_range
        (all_lines : list string) (start_idx : nat) (construct : string) :
  let line_end := _find_end all_lines start_idx construct in
  start_idx + 1 <= line_end
  /\ line_end <= Nat.max (start_idx + 1) (List.length all_lines)
  /\ (line_end <> start_idx + 1 ->
      exists l,
        nth_error all_lines (line_end - 1) = Some l
        /\ startswith (upper (strip l)) "END" = true
        /\ is_match false re_nested (upper (strip l)) = false).
Proof.
  cbv zeta. unfold _find_end.
  pose proof (length_skipn (start_idx + 1) all_lines) as Hlen.
  destruct (find_end_loop_bounds (skipn (start_idx + 1) all_lines)
              (start_idx + 1) 1%Z start_idx) as [H|(Hb & l & Hn & He)].
  - rewrite H. split; [lia|]. split; [lia|]. intros Hc. contradiction.
  - split; [lia|]. split; [lia|]. intros _. exists l. split; [|exact He].
    rewrite nth_error_skipn in Hn. rewrite <- Hn. f_equal. lia.
Qed.

(** X7: the end line that [_find_end] returns is never before the header
    line and never past the last line of the text (or the header line,
    when the header index lies outside the text); and when it is not the
    header line itself, it is the number of a line that begins with [END]
    and is no header of a nested construct. *)
Theorem find_end_bounds
        (all_lines : list string) (start_idx : nat) (construct : string) :
  let line_end := _find_end all_lines start_idx construct in
  start_idx + 1 <= line_end
  /\ line_end <= Nat.max (start_idx + 1) (List.length all_lines)
  /\ (line_end <> start_idx + 1 ->
      exists l,
        nth_error all_lines (line_end - 1) = Some l
        /\ startswith (upper (strip l)) "END" = true
        /\ is_match false re_nested (upper (strip l)) = false).
Proof. exact (find_end_in_range all_lines start_idx construct). Qed.

Lemma find_end_bounds_witness :
  exists l,
    nth_error lines_nested_block
              (_find_end lines_nested_block 0 "PROC" - 1) = Some l
    /\ startswith (upper (strip l)) "END" = true
    /\ is_match false re_nested (upper (strip l)) = false.
Proof.
  apply (proj2 (proj2 (find_end_bounds lines_nested_block 0 "PROC"))).
  vm_compute. discriminate.
Defined.

(** ** Lexical cleanup: what it keeps and what it removes *)

Lemma split_on_join ls :
  ls <> [] ->
  Forall (fun l => has_char "010" l = false) ls ->
  split_on "010" (join (String "010" "") ls) = ls.
Proof.
  induction ls as [|l ls IH]; [congruence|].
  intros _ H. inversion H as [|? ? Hl Hls]; subst.
  destruct ls as [|l' ls].
  - cbn [join]. now apply split_on_no_sep.
  - change (join (String "010" "") (l :: l' :: ls))
      with (l ++ String "010" (join (String "010" "") (l' :: ls)))%string.
    rewrite split_on_app_sep by exact Hl.
    f_equal. apply IH; [discriminate|exact Hls].
Qed.

(** The lines of the cleaned text are the lines of the text without its
    block comments, each cut at its first [--]. *)
Lemma preprocess_lines (source : string) :
  split_on "010" (_preprocess source)
  = map cut_line_comment
        (split_on "010" (sub_del false re_block_comment source)).
Proof.
  unfold _preprocess. fold cut_line_comment.
  change (fun line_text : string =>
            if contains "--" line_text then before "--" line_text
            else line_text) with cut_line_comment.
  apply split_on_join.
  - pose proof (split_on_length_pos "010"
                  (sub_del false re_block_comment source)) as H.
    destruct (split_on "010" (sub_del false re_block_comment source));
      [simpl in H; lia|discriminate].
  - apply Forall_map.
    eapply Forall_impl; [|apply split_on_parts_no_sep].
    intros l Hl. unfold cut_line_comment.
    destruct (contains "--" l); [|exact Hl]. now apply before_no_char.
Qed.

Lemma prefix_dashes_cons c s :
  String.prefix "--" (String c s) = true ->
  c = "-"%char /\ exists s', s = String "-" s'.
Proof.
  cbn [String.prefix]. destruct (ascii_dec "-" c) as [<-|]; [|discriminate].
  destruct s as [|c' s']; cbn [String.prefix]; [discriminate|].
  destruct (ascii_dec "-" c') as [<-|]; [|discriminate]. eauto.
Qed.

Lemma before_dashes_clean l : contains "--" (before "--" l) = false.
Proof.
  induction l as [|c t IH]; [reflexivity|].
  cbn [before].
  destruct (String.prefix "--" (String c t)) eqn:P; [reflexivity|].
  cbn [contains]. rewrite IH, orb_false_r.
  destruct (String.prefix "--" (String c (before "--" t))) eqn:Q;
    [|reflexivity].
  exfalso. apply prefix_dashes_cons in Q. destruct Q as [-> [s' Hs]].
  destruct t as [|c' t'].
  - cbn in Hs. discriminate.
  - cbn [before] in Hs.
    destruct (String.prefix "--" (String c' t')); [discriminate|].
    injection Hs as -> _. cbn in P.
    destruct t'; discriminate.
Qed.

Lemma preprocess_lines_without_block_comment source :
  contains "/*" source = false ->
  split_on "010" (_preprocess source)
  = map cut_line_comment (split_on "010" source).
Proof.
  intros H. rewrite preprocess_lines. unfold sub_del.
  now rewrite (sub_del_no_opener _ _ _ H).
Qed.

(** X8: on a text in which no block comment opens the cleanup works line
    by line: the lines of the result are the lines of the source, each
    with its line comment cut, and the number of lines is kept. *)
Theorem cleanup_line_by_line (source : string) :
  contains "/*" source = false ->
  split_on "010" (_preprocess source)
  = map cut_line_comment (split_on "010" source)
  /\ line_count (_preprocess source) = line_count source.
Proof.
  intros H. split.
  - now apply preprocess_lines_without_block_comment.
  - now apply preprocess_keeps_lines_without_block_comment.
Qed.

Lemma cleanup_line_by_line_witness :
  split_on "010" (_preprocess "n := 1; -- start
DCL n INT;")
  = map cut_line_comment (split_on "010" "n := 1; -- start
DCL n INT;")
  /\ line_count (_preprocess "n := 1; -- start
DCL n INT;") = line_count "n := 1; -- start
DCL n INT;".
Proof.
  apply (cleanup_line_by_line "n := 1; -- start
DCL n INT;").
  vm_compute. reflexivity.
Defined.

(** X9: after the cleanup no line holds a line-comment marker; a line
    that had none is kept as it was once the block comments are gone. *)
Theorem preprocess_removes_line_comments (source : string) :
  Forall (fun l => contains "--" l = false)
         (split_on "010" (_preprocess source))
  /\ (forall l, contains "--" l = false -> cut_line_comment l = l).
Proof.
  split.
  - rewrite preprocess_lines. apply Forall_map. apply Forall_forall.
    intros l _. unfold cut_line_comment.
    destruct (contains "--" l) eqn:E; [apply before_dashes_clean|exact E].
  - intros l H. unfold cut_line_comment. now rewrite H.
Qed.

Lemma preprocess_removes_line_comments_witness :
  cut_line_comment "DCL x INT;" = "DCL x INT;".
Proof.
  apply (proj2 (preprocess_removes_line_comments "")). reflexivity.
Defined.

(** ** The document outline *)

Lemma insert_by_line_perm x l : Permutation (insert_by_line x l) (x :: l).
Proof.
  induction l as [|y l IH]; cbn [insert_by_line]; [reflexivity|].
  destruct (Nat.leb (sym_line x) (sym_line y)); [reflexivity|].
  rewrite IH. apply perm_swap.
Qed.

Lemma sorted_by_line_perm l : Permutation (sorted_by_line l) l.
Proof.
  induction l as [|x l IH]; cbn; [reflexivity|].
  rewrite insert_by_line_perm. now constructor.
Qed.

Lemma insert_by_line_sorted x l :
  Sorted by_line l -> Sorted by_line (insert_by_line x l).
Proof.
  induction l as [|y l IH]; intros H; cbn [insert_by_line].
  - repeat constructor.
  - destruct (Nat.leb (sym_line x) (sym_line y)) eqn:E.
    + constructor; [exact H|]. constructor. apply Nat.leb_le in E. exact E.
    + apply Nat.leb_gt in E. inversion H as [|? ? Hs Hh]; subst.
      constructor; [apply IH; exact Hs|].
      destruct l as [|z l]; cbn [insert_by_line].
      * constructor. unfold by_line. lia.
      * destruct (Nat.leb (sym_line x) (sym_line z)).
        -- constructor. unfold by_line. lia.
        -- inversion Hh; subst. constructor. assumption.
Qed.

Lemma sorted_by_line_sorted l : Sorted by_line (sorted_by_line l).
Proof.
  induction l as [|x l IH]; cbn; [constructor|].
  now apply insert_by_line_sorted.
Qed.

(** X10: the document outline is ordered by start line and lists, once
    each, the entries of the seven tables, the scope-qualified keys of the
    declaration table left out: it is a permutation of the listing table
    by table. *)
Theorem get_all_symbols_sorted (m : ChillSemanticModel) :
  Sorted by_line (get_all_symbols m)
  /\ Permutation (get_all_symbols m) (unsorted_symbols m)
  /\ List.length (get_all_symbols m)
     = List.length (Dict.items (modes m))
       + List.length (filter (fun '(name, _) => negb (has_char "." name))
                             (Dict.items (dcls m)))
       + List.length (Dict.items (synonyms m))
       + List.length (Dict.items (procs m))
       + List.length (Dict.items (processes m))
       + List.length (Dict.items (modules m))
       + List.length (Dict.items (signals m)).
Proof.
  assert (E : get_all_symbols m = sorted_by_line (unsorted_symbols m))
    by reflexivity.
  rewrite E. split; [apply sorted_by_line_sorted|].
  split; [apply sorted_by_line_perm|].
  rewrite (Permutation_length (sorted_by_line_perm _)).
  unfold unsorted_symbols. rewrite !length_app, !length_map. lia.
Qed.

(** ** Hover texts *)

Lemma prefix_app (p s : string) : String.prefix p (p ++ s) = true.
Proof.
  induction p as [|c p IH]; cbn; [destruct s; reflexivity|].
  destruct (ascii_dec c c); [exact IH|contradiction].
Qed.

Lemma prefix_app_more (p a b : string) :
  String.prefix p a = true -> String.prefix p (a ++ b) = true.
Proof.
  revert a. induction p as [|c p IH]; intros a H.
  - destruct (a ++ b)%string; reflexivity.
  - destruct a as [|x a]; [discriminate|]. cbn in *.
    destruct (ascii_dec c x); [auto|discriminate].
Qed.

(** The six texts that [get_hover_info] builds share their first part. *)
Lemma hover_text_begins_with_word (m : ChillSemanticModel) (word text : string) :
  get_hover_info m word = Some text ->
  startswith text ("**" ++ word ++ "** - ") = true.
Proof.
  assert (H0 : forall rest : string,
             String.prefix ("**" ++ word ++ "** - ")
                           ("**" ++ word ++ "** - " ++ rest) = true).
  { intros rest.
    replace ("**" ++ word ++ "** - " ++ rest)%string
      with (("**" ++ word ++ "** - ") ++ rest)%string
      by (cbn; f_equal; f_equal; now rewrite app_string_assoc).
    apply prefix_app. }
  unfold get_hover_info, startswith.
  destruct (in_set (upper word) CHILL_RESERVED_WORDS).
  { intros [= <-]. exact (H0 "CHILL reserved word"). }
  destruct (in_set (upper word) CHILL_PREDEFINED).
  { intros [= <-]. exact (H0 "CHILL predefined name"). }
  destruct (get_dcl m word) as [d|].
  { intros [= <-]. unfold hover_dcl.
    destruct (truthy (d_initial_value d)), (truthy (d_mode_name d));
      repeat first [ exact (H0 ("DCL " ++ mode_value (d_mode d))%string)
                   | apply prefix_app_more ]. }
  destruct (get_mode m word) as [md|].
  { intros [= <-]. unfold hover_mode.
    destruct (negb (Dict.is_empty (n_fields md))), (n_range_low md),
             (n_enum_values md);
      repeat first
        [ exact (H0 ("NEWMODE " ++ mode_value (n_base_mode md))%string)
        | apply prefix_app_more ]. }
  destruct (get_proc m word) as [pr|].
  { intros [= <-]. unfold hover_proc.
    destruct (truthy (p_returns_mode pr));
      repeat first
        [ match goal with
          | |- String.prefix _ (_ ++ _ ++ "** - PROC(" ++ ?r) = true =>
              exact (H0 ("PROC(" ++ r)%string)
          end
        | apply prefix_app_more ]. }
  destruct (Dict.get (synonyms m) word) as [sy|]; [|discriminate].
  intros [= <-]. exact (H0 ("SYN = " ++ s_value sy)%string).
Qed.

(** X11: every hover text begins with the word in bold followed by a
    dash, [**word** - ], whichever table answered. *)
Theorem hover_text_header (m : ChillSemanticModel) (word text : string) :
  get_hover_info m word = Some text ->
  startswith text ("**" ++ word ++ "** - ") = true.
Proof. exact (hover_text_begins_with_word m word text). Qed.

Lemma hover_text_header_witness :
  startswith "**module** - CHILL reserved word" "**module** - " = true.
Proof.
  exact (hover_text_header new_model "module" _ eq_refl).
Defined.

(** ** Parameter lists *)

Lemma split_ws_are_tokens s : Forall is_token (split_ws s).
Proof.
  induction s as [|c t IH]; cbn [split_ws]; [constructor|].
  destruct (is_space c) eqn:Hc; [exact IH|].
  destruct t as [|c' t'].
  - repeat constructor; [discriminate|]. cbn. now rewrite Hc.
  - destruct (is_space c') eqn:Hc'.
    + constructor; [|exact IH]. split; [discriminate|]. cbn. now rewrite Hc.
    + destruct (split_ws (String c' t')) as [|h r].
      * repeat constructor; [discriminate|]. cbn. now rewrite Hc.
      * inversion IH as [|? ? [_ Hh] Hr]; subst. constructor; [|exact Hr].
        split; [discriminate|]. cbn [no_space]. now rewrite Hc, Hh.
Qed.

Lemma hd_token parts : parts <> [] -> Forall is_token parts ->
  is_token (hd "" parts).
Proof. destruct parts; [congruence|]. intros _ H. now inversion H. Qed.

Lemma last_token parts : parts <> [] -> Forall is_token parts ->
  is_token (last parts "").
Proof.
  intros Hne H. rewrite Forall_forall in H. apply H.
  now apply last_in_tokens.
Qed.

Lemma prefix_cons_inv a p s :
  String.prefix (String a p) s = true ->
  exists t, s = String a t /\ String.prefix p t = true.
Proof.
  destruct s as [|c t]; cbn [String.prefix]; [discriminate|].
  destruct (ascii_dec a c) as [<-|]; [eauto|discriminate].
Qed.

Lemma contains_inout_out u :
  contains "INOUT" u = true -> contains "OUT" u = true.
Proof.
  induction u as [|c u IH]; [discriminate|].
  cbn [contains]. intros H. apply orb_prop in H. destruct H as [H|H].
  - apply prefix_cons_inv in H. destruct H as (t1 & [= -> ->] & H).
    apply prefix_cons_inv in H. destruct H as (t2 & -> & H).
    apply prefix_cons_inv in H. destruct H as (t3 & -> & H).
    apply prefix_cons_inv in H. destruct H as (t4 & -> & H).
    apply prefix_cons_inv in H. destruct H as (t5 & -> & H).
    destruct t5; vm_compute; reflexivity.
  - rewrite (IH H). apply orb_true_r.
Qed.

Lemma parse_parameters_entry_ok e :
  Forall parameter_ok (_parse_parameters_entry e)
  /\ List.length (_parse_parameters_entry e) <= 1
  /\ (contains "OUT" (upper (strip e)) = false ->
      Forall (fun p => snd p = "IN") (_parse_parameters_entry e)).
Proof.
  unfold _parse_parameters_entry.
  destruct (is_empty (strip e)); [repeat split; simpl; auto|].
  set (choice :=
         if contains "INOUT" (upper (strip e))
         then ("INOUT", sub_del true (re_keyword "INOUT") (strip e))
         else if contains "OUT" (upper (strip e))
         then ("OUT", sub_del true (re_keyword "OUT") (strip e))
         else if contains "IN" (upper (strip e))
         then ("IN", sub_del true (re_keyword "IN") (strip e))
         else ("IN", strip e)).
  assert (Hdir : fst choice = "IN" \/ fst choice = "OUT"
                 \/ fst choice = "INOUT").
  { unfold choice.
    destruct (contains "INOUT" (upper (strip e))); [cbn; auto|].
    destruct (contains "OUT" (upper (strip e))); [cbn; auto|].
    destruct (contains "IN" (upper (strip e))); cbn; auto. }
  assert (Hin : contains "OUT" (upper (strip e)) = false ->
                fst choice = "IN").
  { intros H. unfold choice.
    destruct (contains "INOUT" (upper (strip e))) eqn:E.
    - apply contains_inout_out in E. congruence.
    - rewrite H. destruct (contains "IN" (upper (strip e))); reflexivity. }
  destruct choice as [direction rest]. cbn [fst] in Hdir, Hin.
  pose proof (split_ws_are_tokens (strip rest)) as Htok.
  destruct (Nat.leb 2 (List.length (split_ws (strip rest)))) eqn:E2.
  - assert (Hne : split_ws (strip rest) <> [])
      by (apply Nat.leb_le in E2; destruct (split_ws (strip rest));
          [simpl in E2; lia|discriminate]).
    split; [|split; [simpl; lia|]].
    + constructor; [|constructor]. unfold parameter_ok.
      split; [now apply hd_token|].
      split; [now apply last_token|exact Hdir].
    + intros H. constructor; [|constructor]. cbn. auto.
  - destruct (Nat.eqb (List.length (split_ws (strip rest))) 1) eqn:E1.
    + assert (Hne : split_ws (strip rest) <> [])
        by (apply Nat.eqb_eq in E1; destruct (split_ws (strip rest));
            [simpl in E1; lia|discriminate]).
      split; [|split; [simpl; lia|]].
      * constructor; [|constructor]. unfold parameter_ok.
        split; [now apply hd_token|].
        split; [split; [discriminate|reflexivity]|exact Hdir].
      * intros H. constructor; [|constructor]. cbn. auto.
    + repeat split; simpl; auto.
Qed.

(** X12: every parameter that [_parse_parameters] extracts has a name and
    a mode that are tokens (not empty, no white space; the mode is
    [UNKNOWN] when the entry has one token) and one of the three
    directions; there is at most one parameter per comma-separated entry;
    and an entry in whose upper-cased text the letters [OUT] do not occur
    gets direction [IN]. *)
Theorem parse_parameters_wellformed (params_str : string) :
  Forall parameter_ok (_parse_parameters params_str)
  /\ List.length (_parse_parameters params_str)
     <= List.length (split_on "," params_str)
  /\ (Forall (fun e => contains "OUT" (upper (strip e)) = false)
             (split_on "," params_str) ->
      Forall (fun p => snd p = "IN") (_parse_parameters params_str)).
Proof.
  unfold _parse_parameters.
  induction (split_on "," params_str) as [|e es (IH1 & IH2 & IH3)];
    cbn [flat_map]; [repeat split; simpl; auto|].
  destruct (parse_parameters_entry_ok e) as (H1 & H2 & H3).
  split; [apply Forall_app; auto|].
  split; [rewrite length_app; simpl; lia|].
  intros H. inversion H; subst. apply Forall_app. auto.
Qed.

Lemma parse_parameters_wellformed_witness :
  Forall (fun p => snd p = "IN") (_parse_parameters "a INT, b BOOL").
Proof.
  apply (proj2 (proj2 (parse_parameters_wellformed "a INT, b BOOL"))).
  vm_compute. repeat constructor.
Defined.

(** ** Module names *)

Lemma upper_substring a : forall n s,
  upper (substring a n s) = substring a n (upper s).
Proof.
  induction a as [|a IHa]; intros n s.
  - revert s. induction n as [|n IHn]; intros [|c s]; cbn; auto.
    now rewrite IHn.
  - destruct s as [|c s]; cbn; [reflexivity|apply IHa].
Qed.

Lemma group_of_upper_subject r s n :
  forall mt, re_match true r (upper s) = Some mt ->
  upper (group' mt n) = group' mt n.
Proof.
  intros mt H. unfold re_match in H.
  destruct (rmatch true r Some _) as [st|]; [|discriminate].
  injection H as <-. unfold group', group. cbn [r_caps r_subject].
  destruct (lookup_cap n (m_caps st)) as [[b e]|]; [|reflexivity].
  now rewrite upper_substring, upper_idem.
Qed.

(** X13: a module header is read from the upper-cased line, so the name
    under which the module is stored, which becomes the current scope and
    the qualifier of the declarations that follow, is in upper case
    whatever the case of the source; the header's line is recorded and the
    scope that was current is pushed on the stack. *)
Theorem module_names_upper_case
        (ls : list string) (i : nat) (line_text : string)
        (m m' : ChillSemanticModel) :
  startswith (upper (strip line_text)) "MODULE" = true ->
  _parse_line ls i line_text m = Ok m' ->
  m' = m
  \/ (exists name module,
        upper name = name
        /\ current_scope m' = name
        /\ module_name m' = Some name
        /\ Dict.get (modules m') name = Some module
        /\ md_name module = name
        /\ md_line_start module = i + 1
        /\ scope_stack m' = scope_stack m ++ [current_scope m]).
Proof.
  intros Hm. unfold _parse_line. rewrite Hm. intros [= <-].
  unfold _parse_module.
  destruct (re_match true re_module (upper (strip line_text))) as [mt|] eqn:E;
    [|left; reflexivity].
  right. exists (group' mt 1). eexists.
  split; [eapply group_of_upper_subject; exact E|].
  split; [reflexivity|]. split; [reflexivity|].
  split; [cbn [push_scope set_module_name add_module modules];
          apply dict_get_set_eq|].
  repeat split.
Qed.

Lemma module_names_upper_case_witness :
  exists m', _parse_line ["module Lib;"] 0 "module Lib;" new_model = Ok m'
             /\ current_scope m' = "LIB".
Proof.
  eexists. split; [reflexivity|].
  destruct (module_names_upper_case ["module Lib;"] 0 "module Lib;"
              new_model _ eq_refl eq_refl) as [H|(n & md & _ & H & _)].
  - vm_compute in H. discriminate H.
  - vm_compute. reflexivity.
Defined.

(** ** Mode names and case *)

(** X20: the mode look-ups ignore the case of the mode text. *)
Theorem mode_lookups_ignore_case (mode_str : string) :
  _mode_str_to_enum (upper mode_str) = _mode_str_to_enum mode_str
  /\ _is_builtin_mode (upper mode_str) = _is_builtin_mode mode_str
  /\ _infer_base_mode (upper mode_str) = _infer_base_mode mode_str.
Proof.
  unfold _mode_str_to_enum, _is_builtin_mode, _infer_base_mode.
  rewrite is_empty_upper, upper_idem. repeat split.
Qed.

(** ** The word under the cursor: extent *)

Lemma word_start_max line_text : forall n,
  0 < word_start line_text n ->
  is_word_opt (String.get (word_start line_text n - 1) line_text) = false.
Proof.
  induction n as [|n IH]; cbn [word_start]; [lia|].
  destruct (String.get n line_text) as [c|] eqn:G.
  - destruct (is_ident_char c) eqn:Hc; [exact IH|].
    intros _. replace (S n - 1) with n by lia. rewrite G. exact Hc.
  - intros _. replace (S n - 1) with n by lia. now rewrite G.
Qed.

Lemma word_end_max rest : forall e,
  is_word_opt (String.get (word_end rest e - e) rest) = false
  /\ word_end rest e - e <= String.length rest.
Proof.
  induction rest as [|c t IH]; intros e; cbn [word_end].
  - rewrite Nat.sub_diag. split; [reflexivity|simpl; lia].
  - destruct (is_ident_char c) eqn:Hc.
    + destruct (IH (S e)) as [H1 H2].
      pose proof (proj1 (word_end_spec t (S e))) as Hge.
      replace (word_end t (S e) - e) with (S (word_end t (S e) - S e)) by lia.
      split; [exact H1|simpl; lia].
    + rewrite Nat.sub_diag. split; [exact Hc|simpl; lia].
Qed.

Lemma length_drop n : forall s, String.length (drop n s) = String.length s - n.
Proof.
  induction n as [|n IH]; intros [|c s]; cbn; auto.
Qed.

(** X14: the word under the cursor is the maximal run of letters, digits
    and underscores around the cursor offset (clamped to the length of the
    line): a stretch [start .. e] of the line that contains the offset,
    made of such characters only, with no such character just before it
    or just after it.  Past the last line the word is empty. *)
Theorem get_word_at_position_extent (text : string) (l c : nat) :
  (nth_error (split_on "010" text) l = None ->
   _get_word_at_position text l c = "")
  /\ (forall line_text,
        nth_error (split_on "010" text) l = Some line_text ->
        exists start e,
          _get_word_at_position text l c
          = substring start (e - start) line_text
          /\ start <= Nat.min c (String.length line_text)
          /\ Nat.min c (String.length line_text) <= e
          /\ e <= String.length line_text
          /\ (forall j, start <= j < e ->
                        is_word_opt (String.get j line_text) = true)
          /\ (0 < start ->
              is_word_opt (String.get (start - 1) line_text) = false)
          /\ is_word_opt (String.get e line_text) = false).
Proof.
  unfold _get_word_at_position. split; [intros ->; reflexivity|].
  intros lt ->.
  set (c' := if Nat.ltb (String.length lt) c then String.length lt else c).
  assert (Hc' : c' = Nat.min c (String.length lt)).
  { unfold c'. destruct (Nat.ltb (String.length lt) c) eqn:E.
    - apply Nat.ltb_lt in E. lia.
    - apply Nat.ltb_ge in E. lia. }
  destruct (word_start_spec lt c') as [Hs1 Hs2].
  destruct (word_end_spec (drop c' lt) c') as [He1 He2].
  destruct (word_end_max (drop c' lt) c') as [Hm1 Hm2].
  rewrite length_drop in Hm2.
  exists (word_start lt c'), (word_end (drop c' lt) c').
  split; [reflexivity|]. rewrite <- Hc'.
  split; [exact Hs1|]. split; [exact He1|]. split; [lia|].
  split.
  { intros j Hj. destruct (Nat.lt_ge_cases j c') as [Hlt|Hge].
    - apply Hs2. lia.
    - replace j with (c' + (j - c')) by lia. rewrite get_drop.
      apply He2. lia. }
  split; [apply word_start_max|].
  rewrite <- get_drop in Hm1.
  replace (c' + (word_end (drop c' lt) c' - c'))
    with (word_end (drop c' lt) c') in Hm1 by lia.
  exact Hm1.
Qed.

Lemma get_word_at_position_extent_witness :
  _get_word_at_position "a b" 5 0 = "".
Proof.
  apply (proj1 (get_word_at_position_extent "a b" 5 0)). reflexivity.
Defined.

(** ** What the patterns capture as a name *)

Lemma id_first_spec c :
  class_matches true id_first c = is_ident_char c && negb (is_digit c).
Proof. all_chars c. Qed.

Lemma id_next_spec c : class_matches true id_next c = is_ident_char c.
Proof. all_chars c. Qed.

Lemma drop_step n : forall s c t, drop n s = String c t -> drop (S n) s = t.
Proof.
  induction n as [|n IH]; intros [|x s] c t H; cbn in *; try discriminate.
  - now injection H.
  - eapply IH. exact H.
Qed.

Lemma star_greedy_inv ic cl k rest : forall pos prev caps res,
  star_greedy ic cl k pos prev rest caps = Some res ->
  exists n prev',
    (forall j, j < n ->
               exists c, String.get j rest = Some c
                         /\ class_matches ic cl c = true)
    /\ k (MState (pos + n) prev' (drop n rest) caps) = Some res.
Proof.
  induction rest as [|c t IH]; intros pos prev caps res H;
    cbn [star_greedy] in H.
  - exists 0, prev. rewrite Nat.add_0_r. split; [intros; lia|exact H].
  - destruct (class_matches ic cl c) eqn:Hc.
    + destruct (star_greedy ic cl k (S pos) (Some c) t caps) as [r|] eqn:E.
      * injection H as ->. destruct (IH _ _ _ _ E) as (n & p' & Hn & Hk).
        exists (S n), p'. split.
        -- intros [|j] Hj; [exists c; auto|]. apply Hn. lia.
        -- replace (pos + S n) with (S pos + n) by lia. exact Hk.
      * exists 0, prev. rewrite Nat.add_0_r. split; [intros; lia|exact H].
    + exists 0, prev. rewrite Nat.add_0_r. split; [intros; lia|exact H].
Qed.

Lemma star_lazy_inv ic cl k rest : forall pos prev caps res,
  star_lazy ic cl k pos prev rest caps = Some res ->
  exists n prev', k (MState (pos + n) prev' (drop n rest) caps) = Some res.
Proof.
  induction rest as [|c t IH]; intros pos prev caps res H;
    cbn [star_lazy] in H.
  - destruct (k (MState pos prev "" caps)) eqn:E; [|discriminate].
    exists 0, prev. rewrite Nat.add_0_r. cbn [drop]. congruence.
  - destruct (k (MState pos prev (String c t) caps)) eqn:E.
    + exists 0, prev. rewrite Nat.add_0_r. cbn [drop]. congruence.
    + destruct (class_matches ic cl c); [|discriminate].
      destruct (IH _ _ _ _ H) as (n & p' & Hk).
      exists (S n), p'. replace (pos + S n) with (S pos + n) by lia.
      exact Hk.
Qed.

Lemma one_char_inv ic cl k st res :
  one_char ic cl k st = Some res ->
  exists c t,
    m_rest st = String c t /\ class_matches ic cl c = true
    /\ k (MState (S (m_pos st)) (Some c) t (m_caps st)) = Some res.
Proof.
  unfold one_char. destruct (m_rest st) as [|c t]; [discriminate|].
  destruct (class_matches ic cl c) eqn:E; [|discriminate]. eauto.
Qed.

Lemma at_offset_advance s st n prev' :
  at_offset s st ->
  at_offset s (MState (m_pos st + n) prev' (drop n (m_rest st)) (m_caps st)).
Proof.
  unfold at_offset. cbn [m_rest m_pos]. intros ->. apply drop_drop.
Qed.

Section PatternNames.
Variable s : string.

(** A step that captures nothing keeps what is known of the name. *)
Lemma keep_name (k : kont) st st' res :
  k st' = Some res -> at_offset s st' -> m_caps st' = m_caps st ->
  name_captured s st ->
  exists st1, k st1 = Some res /\ at_offset s st1 /\ name_captured s st1
              /\ (has_name st -> has_name st1).
Proof.
  intros Hk Ho Hc Hn. exists st'.
  unfold name_captured, has_name in *. rewrite Hc. auto.
Qed.

Lemma ident_span_identifier pos c t n :
  drop pos s = String c t ->
  class_matches true id_first c = true ->
  (forall j, j < n -> exists x, String.get j t = Some x
                                /\ class_matches true id_next x = true) ->
  is_identifier (substring pos (S n) s).
Proof.
  intros Hd Hc Hn. rewrite substring_drop, Hd. cbn [substring].
  rewrite id_first_spec in Hc. apply andb_prop in Hc. destruct Hc as [H1 H2].
  split.
  - cbn [all_ident]. rewrite H1. cbn [andb].
    apply all_ident_substring_0. intros j Hj.
    destruct (Hn j Hj) as (x & -> & Hx). cbn.
    now rewrite <- is_ident_char_word, <- id_next_spec.
  - now apply negb_true_iff.
Qed.

Ltac finish_keep x :=
  exists x; split; [assumption|]; split; [assumption|];
  split; [assumption|]; split; [assumption|];
  let Hb := fresh "Hb" in intros Hb; inversion Hb.

Lemma rmatch_inv r :
  names_by_ident r ->
  forall (k : kont) st res,
    rmatch true r k st = Some res ->
    at_offset s st -> name_captured s st ->
    exists st',
      k st' = Some res /\ at_offset s st' /\ name_captured s st'
      /\ (has_name st -> has_name st')
      /\ (binds_name r -> has_name st').
Proof.
  intros Hr.
  induction Hr as [ | n r Hn Hr IH | | l | cl | cl | cl | cl | | | r Hr IH
                  | r1 r2 H1 IH1 H2 IH2 | r1 r2 H1 IH1 H2 IH2 ];
    intros k st res Hm Ho Hc.
  - (* the name group *)
    cbn [rmatch] in Hm. unfold ident in Hm. cbn [rmatch] in Hm.
    apply one_char_inv in Hm. destruct Hm as (c & t & Hrest & Hcl & Hm).
    cbn [m_pos m_prev m_rest m_caps] in Hm.
    apply star_greedy_inv in Hm. destruct Hm as (n & p' & Hchars & Hk).
    cbn [m_pos m_prev m_rest m_caps] in Hk.
    eexists. split; [exact Hk|].
    assert (Hd : drop (m_pos st) s = String c t)
      by (rewrite <- Hrest; symmetry; exact Ho).
    split.
    { unfold at_offset. cbn [m_rest m_pos].
      rewrite <- (drop_step _ _ _ _ Hd), drop_drop. reflexivity. }
    split.
    { intros b e. cbn [m_caps lookup_cap Nat.eqb]. intros [= <- <-].
      match goal with
      | |- is_identifier (substring _ ?x _) => replace x with (S n) by lia
      end.
      eapply ident_span_identifier; eassumption. }
    split; intros _; unfold has_name; cbn [m_caps lookup_cap Nat.eqb];
      discriminate.
  - (* another group *)
    cbn [rmatch] in Hm.
    destruct (IH _ _ _ Hm Ho Hc) as (st1 & Hk & Ho1 & Hc1 & Hh1 & _).
    assert (E : Nat.eqb 1 n = false) by (apply Nat.eqb_neq; congruence).
    eexists. split; [exact Hk|].
    split; [exact Ho1|]. unfold name_captured, has_name.
    cbn [m_caps lookup_cap]. rewrite E.
    split; [exact Hc1|]. split; [exact Hh1|].
    intros Hb. inversion Hb; subst. contradiction.
  - destruct (keep_name k st st res Hm Ho eq_refl Hc) as (x & ? & ? & ? & ?).
    finish_keep x.
  - cbn [rmatch] in Hm. rewrite lit_match_spec in Hm.
    destruct (prefix_ci l (m_rest st)); [|discriminate].
    destruct (keep_name k st _ res Hm (at_offset_advance _ _ _ _ Ho)
                        eq_refl Hc) as (x & ? & ? & ? & ?).
    finish_keep x.
  - cbn [rmatch] in Hm. apply one_char_inv in Hm.
    destruct Hm as (c & t & Hrest & _ & Hk).
    assert (Ho' : at_offset s (MState (S (m_pos st)) (Some c) t (m_caps st))).
    { unfold at_offset in *. cbn [m_rest m_pos]. symmetry.
      eapply drop_step. rewrite <- Ho. exact Hrest. }
    destruct (keep_name k st _ res Hk Ho' eq_refl Hc) as (x & ? & ? & ? & ?).
    finish_keep x.
  - cbn [rmatch] in Hm. apply star_greedy_inv in Hm.
    destruct Hm as (n & p' & _ & Hk).
    destruct (keep_name k st _ res Hk (at_offset_advance _ _ n p' Ho)
                        eq_refl Hc) as (x & ? & ? & ? & ?).
    finish_keep x.
  - cbn [rmatch] in Hm. apply one_char_inv in Hm.
    destruct Hm as (c & t & Hrest & _ & Hk).
    cbn [m_pos m_prev m_rest m_caps] in Hk.
    apply star_greedy_inv in Hk. destruct Hk as (n & p' & _ & Hk).
    assert (Ho' : at_offset s (MState (S (m_pos st) + n) p' (drop n t)
                                      (m_caps st))).
    { unfold at_offset in *. cbn [m_rest m_pos].
      rewrite <- (drop_step (m_pos st) s c t), drop_drop; [reflexivity|].
      rewrite <- Ho. exact Hrest. }
    destruct (keep_name k st _ res Hk Ho' eq_refl Hc) as (x & ? & ? & ? & ?).
    finish_keep x.
  - cbn [rmatch] in Hm. apply star_lazy_inv in Hm.
    destruct Hm as (n & p' & Hk).
    destruct (keep_name k st _ res Hk (at_offset_advance _ _ n p' Ho)
                        eq_refl Hc) as (x & ? & ? & ? & ?).
    finish_keep x.
  - cbn [rmatch] in Hm. destruct (Nat.eqb (m_pos st) 0); [|discriminate].
    destruct (keep_name k st st res Hm Ho eq_refl Hc) as (x & ? & ? & ? & ?).
    finish_keep x.
  - cbn [rmatch] in Hm.
    destruct (xorb (word_before st) (word_after st)); [|discriminate].
    destruct (keep_name k st st res Hm Ho eq_refl Hc) as (x & ? & ? & ? & ?).
    finish_keep x.
  - cbn [rmatch] in Hm. destruct (rmatch true r k st) as [x|] eqn:E.
    + injection Hm as ->.
      destruct (IH _ _ _ E Ho Hc) as (st1 & ? & ? & ? & ? & _).
      finish_keep st1.
    + destruct (keep_name k st st res Hm Ho eq_refl Hc)
        as (x & ? & ? & ? & ?).
      finish_keep x.
  - cbn [rmatch] in Hm.
    destruct (IH1 _ _ _ Hm Ho Hc) as (st1 & Hk1 & Ho1 & Hc1 & Hh1 & Hb1).
    destruct (IH2 _ _ _ Hk1 Ho1 Hc1) as (st2 & Hk2 & Ho2 & Hc2 & Hh2 & Hb2).
    exists st2. split; [exact Hk2|]. split; [exact Ho2|].
    split; [exact Hc2|]. split; [auto|].
    intros Hb. inversion Hb; subst; auto.
  - cbn [rmatch] in Hm. destruct (rmatch true r1 k st) as [x|] eqn:E.
    + injection Hm as ->.
      destruct (IH1 _ _ _ E Ho Hc) as (st1 & ? & ? & ? & ? & _).
      finish_keep st1.
    + destruct (IH2 _ _ _ Hm Ho Hc) as (st1 & ? & ? & ? & ? & _).
      finish_keep st1.
Qed.

(** The name that a pattern captures in group 1 is an identifier. *)
Lemma matched_name_identifier r mt :
  names_by_ident r -> binds_name r ->
  re_match true r s = Some mt -> is_identifier (group' mt 1).
Proof.
  intros Hr Hb H. unfold re_match in H.
  destruct (rmatch true r Some (MState 0 None s [])) as [st|] eqn:E;
    [|discriminate].
  injection H as <-.
  destruct (rmatch_inv r Hr Some _ _ E) as (st' & [= ->] & _ & Hc & _ & Hh).
  - reflexivity.
  - intros b e. discriminate.
  - specialize (Hh Hb). unfold has_name in Hh.
    unfold group', group. cbn [r_caps r_subject].
    destruct (lookup_cap 1 (m_caps st)) as [[b e]|] eqn:L; [|contradiction].
    now apply Hc.
Qed.

End PatternNames.

Lemma identifier_no_dot t : is_identifier t -> has_char "." t = false.
Proof.
  intros [H _]. induction t as [|c t IH]; [reflexivity|].
  cbn [all_ident has_char] in *. apply andb_prop in H. destruct H as [Hc Ht].
  rewrite (IH Ht), orb_false_r.
  destruct (Ascii.eqb "." c) eqn:E; [|reflexivity].
  apply Ascii.eqb_eq in E. subst c. discriminate Hc.
Qed.

Lemma identifier_nonempty t : is_identifier t -> t <> "".
Proof. intros [_ H] ->. exact H. Qed.

Ltac pattern_shape :=
  unfold re_dcl, re_newmode, re_syn, re_proc, re_process, re_signal,
         re_module;
  repeat first [ apply nbi_name
               | apply nbi_grp; [discriminate|]
               | constructor ].

Lemma patterns_name_by_ident :
  names_by_ident re_dcl /\ names_by_ident re_newmode
  /\ names_by_ident re_syn /\ names_by_ident re_proc
  /\ names_by_ident re_process /\ names_by_ident re_signal
  /\ names_by_ident re_module.
Proof. repeat split; pattern_shape. Qed.

Ltac binds_shape :=
  unfold re_dcl, re_newmode, re_syn, re_proc, re_process, re_signal,
         re_module;
  repeat first [ apply bn_name | apply bn_cat_l; apply bn_name
               | apply bn_cat_r ].

Lemma patterns_bind_name :
  binds_name re_dcl /\ binds_name re_newmode /\ binds_name re_syn
  /\ binds_name re_proc /\ binds_name re_process /\ binds_name re_signal
  /\ binds_name re_module.
Proof. repeat split; binds_shape. Qed.

(** Group 1 of a header pattern is matched by the identifier pattern. *)
Lemma captured_name_identifier (line_text : string) (mt : mresult) :
  re_match true re_dcl line_text = Some mt
  \/ re_match true re_newmode line_text = Some mt
  \/ re_match true re_syn line_text = Some mt
  \/ re_match true re_proc line_text = Some mt
  \/ re_match true re_process line_text = Some mt
  \/ re_match true re_signal line_text = Some mt
  \/ re_match true re_module line_text = Some mt ->
  is_identifier (group' mt 1)
  /\ group' mt 1 <> ""
  /\ has_char "." (group' mt 1) = false.
Proof.
  destruct patterns_name_by_ident as (N1 & N2 & N3 & N4 & N5 & N6 & N7).
  destruct patterns_bind_name as (B1 & B2 & B3 & B4 & B5 & B6 & B7).
  intros H.
  assert (Hid : is_identifier (group' mt 1)).
  { destruct H as [H|[H|[H|[H|[H|[H|H]]]]]].
    - exact (matched_name_identifier _ _ _ N1 B1 H).
    - exact (matched_name_identifier _ _ _ N2 B2 H).
    - exact (matched_name_identifier _ _ _ N3 B3 H).
    - exact (matched_name_identifier _ _ _ N4 B4 H).
    - exact (matched_name_identifier _ _ _ N5 B5 H).
    - exact (matched_name_identifier _ _ _ N6 B6 H).
    - exact (matched_name_identifier _ _ _ N7 B7 H). }
  split; [exact Hid|].
  split; [now apply identifier_nonempty|now apply identifier_no_dot].
Qed.

(** X15: the name that each of the seven header patterns captures is an
    identifier: not empty, made of letters, digits and underscores, not
    beginning with a digit; in particular it holds no dot. *)
Theorem captured_names_are_identifiers (line_text : string) (mt : mresult) :
  re_match true re_dcl line_text = Some mt
  \/ re_match true re_newmode line_text = Some mt
  \/ re_match true re_syn line_text = Some mt
  \/ re_match true re_proc line_text = Some mt
  \/ re_match true re_process line_text = Some mt
  \/ re_match true re_signal line_text = Some mt
  \/ re_match true re_module line_text = Some mt ->
  is_identifier (group' mt 1)
  /\ group' mt 1 <> ""
  /\ has_char "." (group' mt 1) = false.
Proof. exact (captured_name_identifier line_text mt). Qed.

Lemma captured_names_are_identifiers_witness :
  has_char "." (group' (MResult "DCL count INT;" 14 [(2, (10, 13)); (1, (4, 9))]) 1)
  = false.
Proof.
  apply (captured_names_are_identifiers "DCL count INT;").
  left. vm_compute. reflexivity.
Defined.

(** ** What the scanner keeps true of the symbol table *)

Section DictSet.
Context {V : Type}.

Lemma dict_set_in (d : Dict.t V) k0 v0 k v :
  In (k, v) (Dict.items (Dict.set d k0 v0)) ->
  (k = k0 /\ v = v0) \/ In (k, v) (Dict.items d).
Proof.
  unfold Dict.items. induction d as [|[k' v'] d IH]; cbn [Dict.set].
  - intros [[= <- <-]|[]]. auto.
  - destruct (String.eqb k0 k') eqn:E.
    + apply String.eqb_eq in E. subst k'.
      intros [[= <- <-]|H]; [auto|right; right; exact H].
    + intros [H|H]; [right; left; exact H|].
      destruct (IH H) as [?|?]; [auto|right; right; assumption].
Qed.

Lemma dict_set_keys_mono (d : Dict.t V) k0 v0 k :
  In k (Dict.keys d) -> In k (Dict.keys (Dict.set d k0 v0)).
Proof.
  unfold Dict.keys. induction d as [|[k' v'] d IH]; cbn [Dict.set map];
    [intros []|].
  destruct (String.eqb k0 k'); cbn [map fst]; intros [H|H];
    [left; exact H|right; exact H|left; exact H|right; exact (IH H)].
Qed.

Lemma dict_set_key (d : Dict.t V) k0 v0 : In k0 (Dict.keys (Dict.set d k0 v0)).
Proof.
  apply (dict_get_key _ _ v0). apply dict_get_set_eq.
Qed.

End DictSet.

Lemma nth_error_skipn_cons {A : Type} (ls : list A) i l rest :
  skipn i ls = l :: rest ->
  nth_error ls i = Some l /\ skipn (S i) ls = rest /\ i < List.length ls.
Proof.
  revert ls. induction i as [|i IH]; intros [|x ls] H; cbn in *;
    try discriminate.
  - injection H as -> ->. repeat split. lia.
  - destruct (IH ls H) as (H1 & H2 & H3). repeat split; auto. lia.
Qed.

Section ScannerInvariant.
Variable ls : list string.

Lemma model_wf_new : model_wf ls new_model.
Proof.
  unfold model_wf. cbn.
  repeat match goal with |- _ /\ _ => split end; intros k v [].
Qed.

Lemma recorded_here test (name : string) i l :
  is_identifier name -> nth_error ls i = Some l ->
  test (upper (strip l)) = true ->
  recorded_at ls test name (i + 1).
Proof.
  intros Hid Hn Ht. split; [exact Hid|]. split; [lia|].
  exists l. replace (i + 1 - 1) with i by lia. auto.
Qed.

Lemma wf_add_dcl m d :
  model_wf ls m ->
  recorded_at ls (fun u => startswith u "DCL") (d_name d) (d_line_number d) ->
  model_wf ls (add_dcl m d).
Proof.
  intros (W1 & W) Hr. split; [|exact W].
  unfold add_dcl. cbn [dcls set_dcls]. intros k v Hin.
  set (d' := set_parent_scope d (current_scope m)) in *.
  assert (Hd' : d_name d' = d_name d /\ d_line_number d' = d_line_number d)
    by (split; reflexivity).
  destruct Hd' as [Hn Hl].
  cbn [d_name set_parent_scope] in Hin. fold d' in Hin.
  assert (Hkey : forall x, In x (Dict.keys (dcls m)) \/ x = d_name d ->
    In x (Dict.keys
            (Dict.set (Dict.set (dcls m) (d_name d) d')
               (if negb (String.eqb (current_scope m) "GLOBAL")
                then (current_scope m ++ "." ++ d_name d)%string
                else d_name d) d'))).
  { intros x [Hx| ->]; apply dict_set_keys_mono.
    - now apply dict_set_keys_mono.
    - apply dict_set_key. }
  apply dict_set_in in Hin. destruct Hin as [[-> ->]|Hin].
  - rewrite Hn, Hl. split; [exact Hr|]. split; [|apply Hkey; auto].
    destruct (negb (String.eqb (current_scope m) "GLOBAL")); eauto.
  - apply dict_set_in in Hin. destruct Hin as [[-> ->]|Hin].
    + rewrite Hn, Hl. split; [exact Hr|]. split; [auto|apply Hkey; auto].
    + destruct (W1 k v Hin) as (H1 & H2 & H3).
      split; [exact H1|]. split; [exact H2|apply Hkey; auto].
Qed.

Lemma wf_same_tables m m' :
  model_wf ls m ->
  dcls m' = dcls m -> modes m' = modes m -> synonyms m' = synonyms m ->
  procs m' = procs m -> processes m' = processes m ->
  modules m' = modules m -> signals m' = signals m ->
  model_wf ls m'.
Proof.
  unfold model_wf. intros W -> -> -> -> -> -> ->. exact W.
Qed.

Lemma wf_parse_dcl m m' i l :
  model_wf ls m -> nth_error ls i = Some l ->
  startswith (upper (strip l)) "DCL" = true ->
  _parse_dcl (strip l) (i + 1) m = Ok m' -> model_wf ls m'.
Proof.
  intros W Hn Ht. unfold _parse_dcl.
  destruct (re_match true re_dcl (strip l)) as [mt|] eqn:E;
    [|intros [= <-]; exact W].
  destruct (_mode_str_to_enum _); [|discriminate]. cbn [bind].
  destruct (_is_builtin_mode _); [|discriminate]. cbn [bind].
  intros [= <-]. apply wf_add_dcl; [exact W|]. cbn [d_name d_line_number].
  apply (recorded_here (fun u => startswith u "DCL") _ i l); auto.
  apply (captured_name_identifier (strip l)). auto.
Qed.

Lemma wf_add_mode m v :
  model_wf ls m ->
  recorded_at ls (fun u => startswith u "NEWMODE" || startswith u "SYNMODE")
              (n_name v) (n_line_number v) ->
  model_wf ls (add_mode m v).
Proof.
  intros (W1 & W2 & W) Hrec. split; [exact W1|]. split; [|exact W].
  unfold add_mode. cbn [modes]. intros k x Hin.
  apply dict_set_in in Hin. destruct Hin as [[-> ->]|Hin];
    [split; [reflexivity|exact Hrec]|apply W2; exact Hin].
Qed.

Lemma wf_parse_newmode m m' i l :
  model_wf ls m -> nth_error ls i = Some l ->
  startswith (upper (strip l)) "NEWMODE"
  || startswith (upper (strip l)) "SYNMODE" = true ->
  _parse_newmode (strip l) (i + 1) m = Ok m' -> model_wf ls m'.
Proof.
  intros W Hn Ht. unfold _parse_newmode.
  destruct (re_match true re_newmode (strip l)) as [mt|] eqn:E;
    [|intros [= <-]; exact W].
  destruct (_infer_base_mode _); [|discriminate]. cbn [bind].
  assert (Hrec : recorded_at ls
                   (fun u => startswith u "NEWMODE" || startswith u "SYNMODE")
                   (group' mt 1) (i + 1)).
  { apply (recorded_here (fun u => startswith u "NEWMODE"
                                   || startswith u "SYNMODE") _ i l); auto.
    apply (captured_name_identifier (strip l)). auto. }
  destruct (match re_match true re_range _ with
            | Some _ => _ | None => _ end) as [[lo hi]|]; [|discriminate].
  cbn [bind].
  destruct (match re_match true re_struct _ with
            | Some s => _ | None => _ end); [|discriminate].
  cbn [bind]. intros [= <-]. apply wf_add_mode; assumption.
Qed.

Lemma wf_parse_line m m' i l :
  model_wf ls m -> nth_error ls i = Some l ->
  _parse_line ls i l m = Ok m' -> model_wf ls m'.
Proof.
  intros W Hn. pose proof W as (W1 & W2 & W3 & W4 & W5 & W6 & W7).
  assert (Hi : i < List.length ls)
    by (apply nth_error_Some; congruence).
  unfold _parse_line.
  destruct (startswith (upper (strip l)) "MODULE") eqn:T1.
  { intros [= <-]. unfold _parse_module.
    destruct (re_match true re_module (upper (strip l))) as [mt|] eqn:E;
      [|exact W].
    unfold model_wf, push_scope, set_module_name, add_module.
    cbn [dcls modes synonyms procs processes modules signals md_name].
    repeat (split; [assumption|]). split; [|assumption].
    intros k v Hin. apply dict_set_in in Hin.
    destruct Hin as [[-> ->]|Hin]; [|apply W6; exact Hin].
    cbn [md_name md_line_start]. split; [reflexivity|].
    split; [|eapply group_of_upper_subject; exact E].
    apply (recorded_here (fun u => startswith u "MODULE") _ i l); auto.
    apply (captured_name_identifier (upper (strip l))). tauto. }
  destruct (startswith (upper (strip l)) "NEWMODE"
            || startswith (upper (strip l)) "SYNMODE") eqn:T2.
  { eapply wf_parse_newmode; eassumption. }
  destruct (startswith (upper (strip l)) "DCL") eqn:T3.
  { eapply wf_parse_dcl; eassumption. }
  destruct (startswith (upper (strip l)) "SYN") eqn:T4.
  { intros [= <-]. unfold _parse_syn.
    destruct (re_match true re_syn (strip l)) as [mt|] eqn:E; [|exact W].
    unfold model_wf, add_synonym.
    cbn [dcls modes synonyms procs processes modules signals s_name].
    split; [assumption|]. split; [assumption|].
    split; [|repeat (split; [assumption|]); assumption].
    intros k v Hin. apply dict_set_in in Hin.
    destruct Hin as [[-> ->]|Hin]; [|apply W3; exact Hin].
    cbn [s_name s_line_number]. split; [reflexivity|].
    apply (recorded_here (fun u => startswith u "SYN") _ i l); auto.
    apply (captured_name_identifier (strip l)). tauto. }
  destruct (is_match false re_is_proc (upper (strip l))) eqn:T5.
  { intros [= <-]. unfold _parse_proc.
    destruct (re_match true re_proc (strip l)) as [mt|] eqn:E; [|exact W].
    unfold model_wf, add_proc.
    cbn [dcls modes synonyms procs processes modules signals p_name].
    do 3 (split; [assumption|]).
    split; [|repeat (split; [assumption|]); assumption].
    intros k v Hin. apply dict_set_in in Hin.
    destruct Hin as [[-> ->]|Hin]; [|apply W4; exact Hin].
    cbn [p_name p_line_start p_line_end]. split; [reflexivity|].
    split.
    - apply (recorded_here (is_match false re_is_proc) _ i l); auto.
      apply (captured_name_identifier (strip l)). tauto.
    - destruct (find_end_in_range ls i "PROC") as (B1 & B2 & _). lia. }
  destruct (is_match false re_is_process (upper (strip l))) eqn:T6.
  { intros [= <-]. unfold _parse_process.
    destruct (re_match true re_process (strip l)) as [mt|] eqn:E; [|exact W].
    unfold model_wf, add_process.
    cbn [dcls modes synonyms procs processes modules signals ps_name].
    do 4 (split; [assumption|]).
    split; [|repeat (split; [assumption|]); assumption].
    intros k v Hin. apply dict_set_in in Hin.
    destruct Hin as [[-> ->]|Hin]; [|apply W5; exact Hin].
    cbn [ps_name ps_line_start ps_line_end]. split; [reflexivity|].
    split.
    - apply (recorded_here (is_match false re_is_process) _ i l); auto.
      apply (captured_name_identifier (strip l)). tauto.
    - destruct (find_end_in_range ls i "PROCESS") as (B1 & B2 & _). lia. }
  destruct (startswith (upper (strip l)) "SIGNAL") eqn:T7.
  { intros [= <-]. unfold _parse_signal.
    destruct (re_match true re_signal (strip l)) as [mt|] eqn:E; [|exact W].
    unfold model_wf, add_signal.
    cbn [dcls modes synonyms procs processes modules signals sg_name].
    do 6 (split; [assumption|]).
    intros k v Hin. apply dict_set_in in Hin.
    destruct Hin as [[-> ->]|Hin]; [|apply W7; exact Hin].
    cbn [sg_name sg_line_number]. split; [reflexivity|].
    apply (recorded_here (fun u => startswith u "SIGNAL") _ i l); auto.
    apply (captured_name_identifier (strip l)). tauto. }
  intros [= <-]. exact W.
Qed.

Lemma wf_loop rest : forall i m,
  skipn i ls = rest -> model_wf ls m ->
  model_wf ls (fst (_parse_declarations_loop ls rest i m)).
Proof.
  induction rest as [|l rest IH]; intros i m Hs W;
    cbn [_parse_declarations_loop]; [exact W|].
  destruct (nth_error_skipn_cons _ _ _ _ Hs) as (Hn & Hs' & _).
  destruct (_parse_line ls i l m) as [m1|e] eqn:E; [|exact W].
  apply IH; [exact Hs'|]. eapply wf_parse_line; eassumption.
Qed.

End ScannerInvariant.

(** The loop invariant [model_wf], carried through [parse]. *)
Lemma parse_keeps_model_wf (self : ChillParser) (source : string) :
  model_wf (split_on "010" (_preprocess source))
           (model (fst (parse self source)))
  /\ (forall m, snd (parse self source) = Ok m ->
                model_wf (split_on "010" (_preprocess source)) m).
Proof.
  assert (H : model_wf (split_on "010" (_preprocess source))
                       (model (fst (parse self source)))).
  { unfold parse, _parse_declarations. cbn [model lines current_line].
    pose proof (wf_loop (split_on "010" (_preprocess source))
                  (split_on "010" (_preprocess source)) 0 new_model
                  eq_refl (model_wf_new _)) as W.
    destruct (_parse_declarations_loop _ _ 0 new_model) as [m r].
    exact W. }
  split; [exact H|]. intros m Hm.
  unfold parse, _parse_declarations in *. cbn [model lines current_line] in *.
  destruct (_parse_declarations_loop _ _ 0 new_model) as [m1 r].
  cbn [fst snd model] in *. destruct r; [|discriminate].
  injection Hm as <-. exact H.
Qed.

(** X16: whatever the source, and whether [parse] returns or raises, the
    model the parser holds afterwards is well formed with respect to the
    lines of the cleaned text: every entity has an identifier for name and
    the number of a line of the cleaned text that begins with the keyword
    of its kind (a labelled header for a procedure); a mode, synonym,
    procedure, process, module or signal is stored under its own name; a
    declaration is stored under its name or under [scope.name], and its
    bare name is always a key; a procedure's end line is not before its
    start line and not past the last line; module names are in upper
    case. *)
Theorem parse_model_wf (self : ChillParser) (source : string) :
  model_wf (split_on "010" (_preprocess source))
           (model (fst (parse self source)))
  /\ (forall m, snd (parse self source) = Ok m ->
                model_wf (split_on "010" (_preprocess source)) m).
Proof. exact (parse_keeps_model_wf self source). Qed.

Lemma parse_model_wf_witness :
  model_wf (split_on "010" (_preprocess doc_two_x)) (parsed doc_two_x).
Proof.
  apply (proj2 (parse_model_wf new_parser doc_two_x)).
  vm_compute. reflexivity.
Defined.

(** X17: completion offers every declaration that the scanner recorded:
    for the model that [parse] leaves, each declaration in the table whose
    upper-cased name starts with the upper-cased prefix is in the result
    under its name, labelled [DCL] with the mode of the declaration that
    the bare name holds. *)
Theorem parsed_declarations_are_completed
        (self : ChillParser) (source line_text : string) (column : Z)
        (k : string) (d : DclDefinition) :
  let m := model (fst (parse self source)) in
  In (k, d) (Dict.items (dcls m)) ->
  startswith (upper (d_name d)) (upper (completion_prefix line_text column))
  = true ->
  exists d',
    Dict.get (dcls m) (d_name d) = Some d'
    /\ In (d_name d, ("DCL " ++ mode_value (d_mode d'))%string)
          (get_completions_at_position m line_text column).
Proof.
  intros m Hin Hp.
  destruct (proj1 (parse_keeps_model_wf self source)) as (W1 & _).
  fold m in W1. destruct (W1 k d Hin) as ((Hid & _) & _ & Hkey).
  unfold Dict.keys in Hkey. apply in_map_iff in Hkey.
  destruct Hkey as ([k' d'] & Hk & Hin'). cbn in Hk. subst k'.
  destruct (dict_in_get _ _ _ Hin') as (d2 & Hget).
  exists d2. split; [exact Hget|].
  apply completions_In. right; right; left. exists d2.
  split; [now apply dict_get_in|].
  split; [now apply identifier_no_dot|]. split; [exact Hp|reflexivity].
Qed.

Lemma parsed_declarations_are_completed_witness :
  exists d',
    Dict.get (dcls (model (fst (parse new_parser "DCL x INT;")))) "x" = Some d'
    /\ In ("x", ("DCL " ++ mode_value (d_mode d'))%string)
          (get_completions_at_position
             (model (fst (parse new_parser "DCL x INT;"))) "" 0).
Proof.
  apply (parsed_declarations_are_completed new_parser "DCL x INT;" "" 0 "x"
           (mkDcl "x" INT None None [] None false false false false 1 4%Z 5%Z
                  (Some "GLOBAL"))).
  - vm_compute. left. reflexivity.
  - vm_compute. reflexivity.
Defined.

(** ** The language server *)

Section DictDel.
Context {V : Type}.

Lemma dict_set_keys (d : Dict.t V) k v :
  Dict.keys (Dict.set d k v)
  = if Dict.mem d k then Dict.keys d else Dict.keys d ++ [k].
Proof.
  unfold Dict.keys, Dict.mem. induction d as [|[k' v'] d IH];
    cbn [Dict.set Dict.get map app]; [reflexivity|].
  destruct (String.eqb k k'); cbn [map fst]; [reflexivity|].
  rewrite IH. destruct (Dict.get d k); reflexivity.
Qed.

Lemma dict_set_NoDup (d : Dict.t V) k v :
  NoDup (Dict.keys d) -> NoDup (Dict.keys (Dict.set d k v)).
Proof.
  intros H. rewrite dict_set_keys. destruct (Dict.mem d k) eqn:E; [exact H|].
  apply NoDup_app; [exact H|repeat constructor; intros []|].
  intros x Hx [Hk|[]]. subst x. unfold Dict.mem in E.
  destruct (Dict.get d k) eqn:G; [discriminate|].
  exact (dict_get_none_not_key _ _ G Hx).
Qed.

Lemma dict_del_get_eq (d : Dict.t V) k :
  NoDup (Dict.keys d) -> Dict.get (Dict.del d k) k = None.
Proof.
  unfold Dict.keys. induction d as [|[k' v'] d IH]; cbn [Dict.del map];
    [reflexivity|].
  intros H. inversion H as [|? ? Hn Hd]; subst. cbn [fst] in Hn.
  destruct (String.eqb k k') eqn:E.
  - apply String.eqb_eq in E. subst k'.
    destruct (Dict.get d k) eqn:G; [|reflexivity].
    exfalso. apply Hn. exact (dict_get_key _ _ _ G).
  - cbn [Dict.get]. rewrite E. auto.
Qed.

Lemma dict_del_get_ne (d : Dict.t V) k k' :
  k <> k' -> Dict.get (Dict.del d k) k' = Dict.get d k'.
Proof.
  intros Hne. induction d as [|[k0 v0] d IH]; cbn [Dict.del]; [reflexivity|].
  destruct (String.eqb k k0) eqn:E.
  - apply String.eqb_eq in E. subst k0. cbn [Dict.get].
    destruct (String.eqb k' k) eqn:E'; [|reflexivity].
    apply String.eqb_eq in E'. congruence.
  - cbn [Dict.get]. destruct (String.eqb k' k0); auto.
Qed.

Lemma dict_del_NoDup (d : Dict.t V) k :
  NoDup (Dict.keys d) -> NoDup (Dict.keys (Dict.del d k)).
Proof.
  unfold Dict.keys. induction d as [|[k' v'] d IH]; cbn [Dict.del map];
    [auto|].
  intros H. inversion H as [|? ? Hn Hd]; subst.
  destruct (String.eqb k k'); [exact Hd|].
  cbn [map fst]. constructor; [|auto].
  intros Hin. apply Hn. cbn [fst].
  apply in_map_iff in Hin. destruct Hin as ([a b] & Ha & Hin). cbn in Ha.
  subst a. destruct (dict_in_get _ _ _ Hin) as (v & Hv).
  destruct (String.eqb k k') eqn:E.
  - apply String.eqb_eq in E. subst.
    rewrite (dict_del_get_eq _ _ Hd) in Hv. discriminate.
  - assert (Hne : k <> k') by (intros ->; rewrite String.eqb_refl in E;
                               discriminate).
    rewrite (dict_del_get_ne _ _ _ Hne) in Hv.
    exact (dict_get_key _ _ _ Hv).
Qed.

Lemma dict_mem_false_get (d : Dict.t V) k :
  Dict.mem d k = false -> Dict.get d k = None.
Proof. unfold Dict.mem. destruct (Dict.get d k); congruence. Qed.

End DictDel.

(** What [_handle_did_open] writes, by cases on the result of [parse]. *)
Lemma did_open_effect
        (self : ChillLSPServer) (uri text : string) :
  let after := fst (_handle_did_open self uri text) in
  Dict.get (documents after) uri = Some text
  /\ (forall u, u <> uri ->
                Dict.get (documents after) u = Dict.get (documents self) u
                /\ Dict.get (models after) u = Dict.get (models self) u)
  /\ (forall m, snd (parse new_parser text) = Ok m ->
                snd (_handle_did_open self uri text) = Ok tt
                /\ Dict.get (models after) uri = Some m)
  /\ (forall e, snd (parse new_parser text) = Raise e ->
                snd (_handle_did_open self uri text) = Raise e
                /\ models after = models self)
  /\ (forall changes,
        _handle_did_change self uri (changes ++ [Some text])
        = _handle_did_open self uri text)
  /\ _handle_did_change self uri [] = (self, Ok tt)
  /\ (server_wf self -> server_wf after).
Proof.
  cbv zeta. unfold _handle_did_open, _parse_document.
  cbn [documents models]. rewrite dict_get_set_eq.
  destruct (snd (parse new_parser text)) as [m|e] eqn:E;
    cbn [fst snd documents models].
  - split; [apply dict_get_set_eq|].
    split; [intros u Hu; split; apply dict_get_set_ne; congruence|].
    split; [intros m' [= <-]; split; [reflexivity|apply dict_get_set_eq]|].
    split; [discriminate|].
    split.
    { intros changes. unfold _handle_did_change, _parse_document.
      destruct (changes ++ [Some text]) eqn:Hc;
        [destruct changes; discriminate|].
      rewrite <- Hc, last_last. cbn [documents models].
      rewrite dict_get_set_eq, E. reflexivity. }
    split; [reflexivity|].
    intros [H1 H2]. split; cbn [documents models]; now apply dict_set_NoDup.
  - split; [apply dict_get_set_eq|].
    split; [intros u Hu; split; [apply dict_get_set_ne; congruence
                                |reflexivity]|].
    split; [discriminate|].
    split; [intros e' [= <-]; split; reflexivity|].
    split.
    { intros changes. unfold _handle_did_change, _parse_document.
      destruct (changes ++ [Some text]) eqn:Hc;
        [destruct changes; discriminate|].
      rewrite <- Hc, last_last. cbn [documents models].
      rewrite dict_get_set_eq, E. reflexivity. }
    split; [reflexivity|].
    intros [H1 H2]. split; cbn [documents models];
      [now apply dict_set_NoDup|exact H2].
Qed.

(** X18: opening a document stores its text under the URI and leaves the
    other documents and models alone; when the parse returns, the model
    stored under the URI is the one [parse] gives for the text; when the
    parse raises, the text is stored all the same and the models are as
    before, so the model under the URI, if there was one, is that of an
    earlier text.  A change list counts by its last entry only, and an
    empty one changes nothing. *)
Theorem did_open_stores_text_and_model
        (self : ChillLSPServer) (uri text : string) :
  let after := fst (_handle_did_open self uri text) in
  Dict.get (documents after) uri = Some text
  /\ (forall u, u <> uri ->
                Dict.get (documents after) u = Dict.get (documents self) u
                /\ Dict.get (models after) u = Dict.get (models self) u)
  /\ (forall m, snd (parse new_parser text) = Ok m ->
                snd (_handle_did_open self uri text) = Ok tt
                /\ Dict.get (models after) uri = Some m)
  /\ (forall e, snd (parse new_parser text) = Raise e ->
                snd (_handle_did_open self uri text) = Raise e
                /\ models after = models self)
  /\ (forall changes,
        _handle_did_change self uri (changes ++ [Some text])
        = _handle_did_open self uri text)
  /\ _handle_did_change self uri [] = (self, Ok tt)
  /\ (server_wf self -> server_wf after).
Proof. exact (did_open_effect self uri text). Qed.

Lemma did_open_stores_text_and_model_witness :
  models (fst (_handle_did_open new_server "file:///a.chl" "DCL x  ;"))
  = models new_server.
Proof.
  apply (proj1 (proj2 (proj2 (proj2
           (did_open_stores_text_and_model new_server "file:///a.chl"
                                           "DCL x  ;")))) IndexError).
  vm_compute. reflexivity.
Defined.

(** X19: closing a document removes its text and its model and keeps the
    others; so after an open and a close of one URI the server knows
    nothing of it. *)
Theorem did_close_forgets (self : ChillLSPServer) (uri text : string) :
  server_wf self ->
  let closed := _handle_did_close self uri in
  Dict.get (documents closed) uri = None
  /\ Dict.get (models closed) uri = None
  /\ (forall u, u <> uri ->
                Dict.get (documents closed) u = Dict.get (documents self) u
                /\ Dict.get (models closed) u = Dict.get (models self) u)
  /\ server_wf closed
  /\ (let reopened :=
        _handle_did_close (fst (_handle_did_open self uri text)) uri in
      Dict.get (documents reopened) uri = None
      /\ Dict.get (models reopened) uri = None).
Proof.
  assert (H : forall s, server_wf s ->
    Dict.get (documents (_handle_did_close s uri)) uri = None
    /\ Dict.get (models (_handle_did_close s uri)) uri = None
    /\ (forall u, u <> uri ->
          Dict.get (documents (_handle_did_close s uri)) u
          = Dict.get (documents s) u
          /\ Dict.get (models (_handle_did_close s uri)) u
             = Dict.get (models s) u)
    /\ server_wf (_handle_did_close s uri)).
  { intros s [H1 H2]. unfold _handle_did_close, server_wf.
    destruct (Dict.mem (documents s) uri) eqn:E1;
      cbn [documents models];
      destruct (Dict.mem (models s) uri) eqn:E2; cbn [documents models];
      repeat match goal with |- _ /\ _ => split end;
      try (intros u Hu; split);
      auto using dict_del_get_eq, dict_mem_false_get, dict_del_NoDup;
      try (apply dict_del_get_ne; congruence). }
  intros Hwf. cbv zeta.
  destruct (H self Hwf) as (A & B & C & D).
  split; [exact A|]. split; [exact B|]. split; [exact C|].
  split; [exact D|].
  pose proof (proj2 (proj2 (proj2 (proj2 (proj2 (proj2
     (did_open_effect self uri text)))))) Hwf) as Hwf'.
  destruct (H _ Hwf') as (A' & B' & _). auto.
Qed.

Lemma did_close_forgets_witness :
  Dict.get (documents
              (_handle_did_close
                 (fst (_handle_did_open new_server "u" "DCL x INT;")) "u"))
           "u" = None.
Proof.
  exact (proj1 (proj2 (proj2 (proj2 (proj2
           (did_close_forgets new_server "u" "DCL x INT;"
              (conj (NoDup_nil string) (NoDup_nil string)))))))).
Defined.

Lemma keyword_docs_are_known :
  forallb (fun k => in_set k CHILL_RESERVED_WORDS || in_set k CHILL_PREDEFINED)
          (Dict.keys KEYWORD_DOCS) = true.
Proof. vm_compute. reflexivity. Qed.

Lemma hover_text_nonempty m word text :
  get_hover_info m word = Some text -> is_empty text = false.
Proof.
  intros H. apply hover_text_begins_with_word in H. unfold startswith in H.
  destruct text; [|reflexivity]. discriminate H.
Qed.

(** X21: the keyword documentation of the server is never shown.  Every
    key of [KEYWORD_DOCS] is a reserved word or a predefined name, for
    which [get_hover_info] already has a text; so what [_handle_hover]
    answers is what [get_hover_info] says of the word under the cursor,
    and nothing when the document is not open or the cursor is on no
    word. *)
Theorem hover_never_shows_keyword_docs
        (self : ChillLSPServer) (uri : string) (position : LSPPosition) :
  _handle_hover self uri position
  = match Dict.get (documents self) uri with
    | None => None
    | Some text =>
        let word :=
          _get_word_at_position text (line position) (character position) in
        if is_empty word then None
        else get_hover_info (model_of self uri) word
    end.
Proof.
  unfold _handle_hover.
  destruct (Dict.get (documents self) uri) as [text|]; [|reflexivity].
  cbv zeta.
  destruct (is_empty (_get_word_at_position text (line position)
                                            (character position)));
    [reflexivity|].
  set (word := _get_word_at_position text (line position)
                                     (character position)).
  destruct (get_hover_info (model_of self uri) word) as [h|] eqn:E.
  - cbn [truthy]. rewrite (hover_text_nonempty _ _ _ E). reflexivity.
  - cbn [truthy].
    destruct (Dict.get KEYWORD_DOCS (upper word)) as [doc|] eqn:G;
      [|reflexivity].
    exfalso. apply dict_get_key in G.
    pose proof keyword_docs_are_known as K. rewrite forallb_forall in K.
    specialize (K _ G). unfold get_hover_info in E.
    destruct (in_set (upper word) CHILL_RESERVED_WORDS); [discriminate|].
    destruct (in_set (upper word) CHILL_PREDEFINED); discriminate.
Qed.

(** ** Go to definition *)

Lemma get_dcl_in m word d :
  get_dcl m word = Some d -> exists k, In (k, d) (Dict.items (dcls m)).
Proof.
  unfold get_dcl.
  destruct (Dict.mem (dcls m) (current_scope m ++ "." ++ word)).
  - intros H. eexists. apply dict_get_in. exact H.
  - destruct (Dict.mem (dcls m) word); [|discriminate].
    intros H. eexists. apply dict_get_in. exact H.
Qed.

Lemma recorded_line_in_text ls test name n :
  recorded_at ls test name n ->
  (0 <= Z.of_nat n - 1 < Z.of_nat (List.length ls))%Z.
Proof.
  intros (_ & Hn & l & Hl & _).
  assert (n - 1 < List.length ls) by (apply nth_error_Some; congruence).
  lia.
Qed.

(** The line that go-to-definition finds, on a well-formed model. *)
Lemma definition_line_of_parsed
        (self : ChillParser) (source word : string) (m : ChillSemanticModel) :
  snd (parse self source) = Ok m ->
  let ls := split_on "010" (_preprocess source) in
  (definition_line m word = None <->
   get_dcl m word = None /\ get_mode m word = None /\ get_proc m word = None
   /\ Dict.get (processes m) word = None
   /\ Dict.get (synonyms m) word = None)
  /\ (forall z, definition_line m word = Some z ->
                (0 <= z < Z.of_nat (List.length ls))%Z)
  /\ (forall d, get_dcl m word = Some d ->
        definition_line m word = Some (Z.of_nat (d_line_number d) - 1)%Z
        /\ exists l, nth_error ls (d_line_number d - 1) = Some l
                     /\ startswith (upper (strip l)) "DCL" = true).
Proof.
  intros Hm ls.
  destruct (proj2 (parse_keeps_model_wf self source) m Hm)
    as (W1 & W2 & W3 & W4 & W5 & _).
  fold ls in W1, W2, W3, W4, W5.
  split; [|split].
  - unfold definition_line, get_mode, get_proc.
    destruct (get_dcl m word); [split; [discriminate|intros [H _]; discriminate]|].
    destruct (Dict.get (modes m) word);
      [split; [discriminate|intros (_ & H & _); discriminate]|].
    destruct (Dict.get (procs m) word);
      [split; [discriminate|intros (_ & _ & H & _); discriminate]|].
    destruct (Dict.get (processes m) word);
      [split; [discriminate|intros (_ & _ & _ & H & _); discriminate]|].
    destruct (Dict.get (synonyms m) word);
      [split; [discriminate|intros (_ & _ & _ & _ & H); discriminate]|].
    tauto.
  - intros z. unfold definition_line, get_mode, get_proc.
    destruct (get_dcl m word) as [d|] eqn:E1.
    { intros [= <-]. destruct (get_dcl_in _ _ _ E1) as (k & Hin).
      destruct (W1 k d Hin) as (Hr & _).
      eapply recorded_line_in_text; exact Hr. }
    destruct (Dict.get (modes m) word) as [v|] eqn:E2.
    { intros [= <-]. destruct (W2 _ _ (dict_get_in _ _ _ E2)) as (_ & Hr).
      eapply recorded_line_in_text; exact Hr. }
    destruct (Dict.get (procs m) word) as [v|] eqn:E3.
    { intros [= <-].
      destruct (W4 _ _ (dict_get_in _ _ _ E3)) as (_ & Hr & _).
      eapply recorded_line_in_text; exact Hr. }
    destruct (Dict.get (processes m) word) as [v|] eqn:E4.
    { intros [= <-].
      destruct (W5 _ _ (dict_get_in _ _ _ E4)) as (_ & Hr & _).
      eapply recorded_line_in_text; exact Hr. }
    destruct (Dict.get (synonyms m) word) as [v|] eqn:E5; [|discriminate].
    intros [= <-]. destruct (W3 _ _ (dict_get_in _ _ _ E5)) as (_ & Hr).
    eapply recorded_line_in_text; exact Hr.
  - intros d Hd. unfold definition_line. rewrite Hd. split; [reflexivity|].
    destruct (get_dcl_in _ _ _ Hd) as (k & Hin).
    destruct (W1 k d Hin) as ((_ & _ & l & Hl & Ht) & _). eauto.
Qed.

(** X22: on the model that [parse] returns for a text, go-to-definition
    finds nothing exactly for the words that none of the five tables it
    consults knows (declarations, modes, procedures, processes,
    synonyms); what it finds is the index of a line of the cleaned text;
    and for a declared name it is the recorded line of the declaration,
    a line that begins with [DCL]. *)
Theorem definition_of_parsed_model
        (self : ChillParser) (source word : string) (m : ChillSemanticModel) :
  snd (parse self source) = Ok m ->
  let ls := split_on "010" (_preprocess source) in
  (definition_line m word = None <->
   get_dcl m word = None /\ get_mode m word = None /\ get_proc m word = None
   /\ Dict.get (processes m) word = None
   /\ Dict.get (synonyms m) word = None)
  /\ (forall z, definition_line m word = Some z ->
                (0 <= z < Z.of_nat (List.length ls))%Z)
  /\ (forall d, get_dcl m word = Some d ->
        definition_line m word = Some (Z.of_nat (d_line_number d) - 1)%Z
        /\ exists l, nth_error ls (d_line_number d - 1) = Some l
                     /\ startswith (upper (strip l)) "DCL" = true).
Proof. exact (definition_line_of_parsed self source word m). Qed.

Lemma definition_of_parsed_model_witness :
  definition_line (parsed doc_two_x) "x" = Some 2%Z.
Proof.
  destruct (definition_of_parsed_model new_parser doc_two_x "x"
              (parsed doc_two_x)) as (_ & _ & H).
  - vm_compute. reflexivity.
  - apply (H (mkDcl "x" BOOL None None [] None false false false false 3
                    4%Z 5%Z (Some "GLOBAL"))).
    vm_compute. reflexivity.
Defined.

(** X23: in a document without block comments whose model the server
    holds, if go-to-definition answers for a word that the model knows as
    a declaration, the answer is the whole line (columns 0 to 100) of the
    document on which the declaration was recorded, and that line of the
    document, once its line comment is cut, begins with [DCL]. *)
Theorem definition_lands_on_declaration
        (self : ChillLSPServer) (uri text : string) (m : ChillSemanticModel)
        (position : LSPPosition) (range : LSPRange) (d : DclDefinition) :
  contains "/*" text = false ->
  Dict.get (documents self) uri = Some text ->
  Dict.get (models self) uri = Some m ->
  snd (parse new_parser text) = Ok m ->
  _handle_definition self uri position = Some range ->
  get_dcl m (_get_word_at_position text (line position) (character position))
  = Some d ->
  range = mkRange (mkPosition (d_line_number d - 1) 0)
                  (mkPosition (d_line_number d - 1) 100)
  /\ exists l,
       nth_error (split_on "010" text) (d_line_number d - 1) = Some l
       /\ startswith (upper (strip (cut_line_comment l))) "DCL" = true.
Proof.
  intros Hnc Hdoc Hmod Hparse Hdef Hd.
  destruct (definition_line_of_parsed new_parser text
              (_get_word_at_position text (line position)
                                     (character position)) m Hparse)
    as (_ & Hrange & Hdcl).
  destruct (Hdcl d Hd) as (Hline & l & Hl & Ht).
  specialize (Hrange _ Hline).
  unfold _handle_definition, model_of in Hdef. rewrite Hdoc, Hmod in Hdef.
  destruct (is_empty _); [discriminate|].
  rewrite Hline in Hdef.
  destruct (Z.of_nat (d_line_number d) - 1 <? 0)%Z eqn:E; [discriminate|].
  injection Hdef as <-.
  replace (Z.to_nat (Z.of_nat (d_line_number d) - 1))
    with (d_line_number d - 1) by lia.
  split; [reflexivity|].
  rewrite (preprocess_lines_without_block_comment _ Hnc) in Hl.
  rewrite nth_error_map in Hl.
  destruct (nth_error (split_on "010" text) (d_line_number d - 1)) as [l0|];
    [|discriminate].
  injection Hl as <-. eauto.
Qed.

Lemma definition_lands_on_declaration_witness :
  exists l,
    nth_error (split_on "010" "n := 1; -- start
DCL n INT;") (2 - 1) = Some l
    /\ startswith (upper (strip (cut_line_comment l))) "DCL" = true.
Proof.
  refine (proj2 (definition_lands_on_declaration
           (fst (_handle_did_open new_server "u" "n := 1; -- start
DCL n INT;")) "u" "n := 1; -- start
DCL n INT;" (parsed "n := 1; -- start
DCL n INT;") (mkPosition 0 0)
           (mkRange (mkPosition 1 0) (mkPosition 1 100))
           (mkDcl "n" INT None None [] None false false false false 2 4%Z 5%Z
                  (Some "GLOBAL")) _ _ _ _ _ _));
    vm_compute; reflexivity.
Defined.

(** ** The columns of a declaration *)

Lemma prefix_refl_cons c (p s : string) :
  String.prefix (String c p) (String c s) = String.prefix p s.
Proof. cbn [String.prefix]. destruct (ascii_dec c c); congruence. Qed.

Lemma prefix_trans (p : string) : forall q s,
  String.prefix p q = true -> String.prefix q s = true ->
  String.prefix p s = true.
Proof.
  induction p as [|a p IH]; intros q s H1 H2; [now destruct s|].
  destruct q as [|b q]; [discriminate|]. destruct s as [|c s]; [discriminate|].
  cbn [String.prefix] in *.
  destruct (ascii_dec a b) as [->|]; [|discriminate].
  destruct (ascii_dec b c) as [->|]; [|discriminate].
  eauto.
Qed.

Lemma prefix_substring (s : string) : forall b n,
  String.prefix (substring b n s) (drop b s) = true.
Proof.
  induction s as [|c s IH]; intros b n.
  - destruct b, n; reflexivity.
  - destruct b as [|b].
    + destruct n as [|n]; [reflexivity|].
      cbn [substring drop]. rewrite prefix_refl_cons. apply (IH 0 n).
    + cbn [substring drop]. apply IH.
Qed.

Lemma length_upper s : String.length (upper s) = String.length s.
Proof. induction s; simpl; congruence. Qed.

(** [find] gives the first offset at which [sub] stands, when there is
    one. *)
Lemma find_from_first (sub : string) : forall s i b,
  String.prefix sub (drop b s) = true ->
  exists n,
    find_from sub s i = (i + Z.of_nat n)%Z /\ n <= b
    /\ String.prefix sub (drop n s) = true
    /\ forall j, j < n -> String.prefix sub (drop j s) = false.
Proof.
  induction s as [|c s IH]; intros i b Hb.
  - assert (E : String.prefix sub "" = true) by (now destruct b).
    exists 0. cbn [find_from]. rewrite E.
    repeat split; [lia|lia|exact E|intros; lia].
  - cbn [find_from]. destruct (String.prefix sub (String c s)) eqn:E.
    + exists 0. repeat split; [lia|lia|exact E|intros; lia].
    + destruct b as [|b]; [cbn [drop] in Hb; congruence|].
      cbn [drop] in Hb.
      destruct (IH (i + 1)%Z b Hb) as (n & Hn & Hle & Hp & Hmin).
      exists (S n). repeat split; [rewrite Hn; lia|lia|exact Hp|].
      intros [|j] Hj; [exact E|]. cbn [drop]. apply Hmin. lia.
Qed.

(** What [re.match] hands to [group]: a piece of the subject. *)
Lemma group_is_piece r s mt n :
  re_match true r s = Some mt ->
  exists b, String.prefix (group' mt n) (drop b s) = true.
Proof.
  unfold re_match. destruct (rmatch true r Some _) as [st|]; [|discriminate].
  intros [= <-]. unfold group', group. cbn [r_caps r_subject].
  destruct (lookup_cap n (m_caps st)) as [[b e]|].
  - exists b. apply prefix_substring.
  - exists 0. now destruct s.
Qed.

Lemma upper_prefix (p : string) : forall s,
  String.prefix p s = true -> String.prefix (upper p) (upper s) = true.
Proof.
  induction p as [|a p IH]; intros s H; [now destruct s|].
  destruct s as [|c s]; [discriminate|].
  cbn [String.prefix] in H. destruct (ascii_dec a c) as [->|]; [|discriminate].
  cbn [upper]. rewrite prefix_refl_cons. auto.
Qed.

Lemma upper_drop (n : nat) : forall s, upper (drop n s) = drop n (upper s).
Proof. induction n as [|n IH]; intros [|c s]; cbn; auto. Qed.

Lemma dcl_line_begins_with_keyword s mt :
  re_match true re_dcl s = Some mt -> String.prefix "DCL" (upper s) = true.
Proof.
  unfold re_match, re_dcl. cbn [rmatch]. rewrite lit_match_spec.
  cbn [m_rest]. destruct (prefix_ci "DCL" s) eqn:E; [|discriminate].
  intros _.
  apply prefix_ci_upper in E. rewrite upper_substring in E.
  apply prefix_correct. exact E.
Qed.

Lemma add_dcl_bare_key m d :
  Dict.get (dcls (add_dcl m d)) (d_name d)
  = Some (set_parent_scope d (current_scope m)).
Proof.
  unfold add_dcl. cbn [dcls set_dcls d_name set_parent_scope].
  destruct (negb (String.eqb (current_scope m) "GLOBAL")).
  - rewrite dict_get_set_ne; [apply dict_get_set_eq|].
    rewrite <- app_string_assoc. apply string_app_length_neq.
    destruct (current_scope m); discriminate.
  - apply dict_get_set_eq.
Qed.

(** X24: the columns that [_parse_dcl] records for a declaration span the
    first place of the line at which the name stands, case ignored: the
    start is an offset of the line, the end lies the length of the name
    further, the upper-cased line reads the upper-cased name between the
    two, and it does so at no smaller offset.  That place is not always
    the place of the name: when the name in upper case is [D], [DC] or
    [DCL], the start is 0, inside the keyword. *)
Theorem dcl_columns_span_first_occurrence
        (line_text : string) (line_num : nat) (m m' : ChillSemanticModel)
        (mt : mresult) :
  re_match true re_dcl line_text = Some mt ->
  _parse_dcl line_text line_num m = Ok m' ->
  exists d start,
    Dict.get (dcls m') (group' mt 1) = Some d
    /\ d_name d = group' mt 1
    /\ d_column_start d = Z.of_nat start
    /\ d_column_end d = Z.of_nat (start + String.length (d_name d))
    /\ substring start (String.length (d_name d)) (upper line_text)
       = upper (d_name d)
    /\ (forall j, j < start ->
          substring j (String.length (d_name d)) (upper line_text)
          <> upper (d_name d))
    /\ (String.prefix (upper (d_name d)) "DCL" = true -> start = 0).
Proof.
  intros Hm Hp.
  pose proof (dcl_line_begins_with_keyword _ _ Hm) as Hkw.
  destruct (group_is_piece _ _ _ 1 Hm) as (b & Hb).
  apply upper_prefix in Hb. rewrite upper_drop in Hb.
  unfold _parse_dcl in Hp. rewrite Hm in Hp.
  destruct (_mode_str_to_enum (strip (group' mt 2))) as [md|];
    [|discriminate].
  destruct (_is_builtin_mode (strip (group' mt 2))) as [bi|];
    [|discriminate].
  cbn [bind] in Hp. injection Hp as <-.
  destruct (find_from_first (upper (group' mt 1)) (upper line_text) 0 b Hb)
    as (n & Hn & Hle & Hpre & Hmin).
  eexists. exists n. split; [apply add_dcl_bare_key|].
  cbn [set_parent_scope d_name d_column_start d_column_end].
  unfold find. rewrite Hn.
  split; [reflexivity|]. split; [f_equal; lia|]. split; [lia|].
  split; [|split].
  - rewrite substring_drop, <- (length_upper (group' mt 1)).
    now apply prefix_correct.
  - intros j Hj H. specialize (Hmin j Hj).
    rewrite substring_drop, <- (length_upper (group' mt 1)) in H.
    apply prefix_correct in H. congruence.
  - intros H3.
    assert (H0 : String.prefix (upper (group' mt 1)) (drop 0 (upper line_text))
                 = true) by (exact (prefix_trans _ _ _ H3 Hkw)).
    destruct n as [|n]; [reflexivity|].
    rewrite (Hmin 0) in H0 by lia. discriminate.
Qed.

Lemma dcl_columns_span_first_occurrence_witness :
  exists d start,
    Dict.get (dcls (parsed "DCL d INT;")) "d" = Some d
    /\ d_name d = "d"
    /\ d_column_start d = Z.of_nat start
    /\ d_column_end d = Z.of_nat (start + String.length (d_name d))
    /\ substring start (String.length (d_name d)) (upper "DCL d INT;")
       = upper (d_name d)
    /\ (forall j, j < start ->
          substring j (String.length (d_name d)) (upper "DCL d INT;")
          <> upper (d_name d))
    /\ (String.prefix (upper (d_name d)) "DCL" = true -> start = 0).
Proof.
  apply (dcl_columns_span_first_occurrence
           "DCL d INT;" 1 new_model (parsed "DCL d INT;")
           (MResult "DCL d INT;" 10 [(2, (6, 9)); (1, (4, 5))]));
    vm_compute; reflexivity.
Defined.

(** ** Modes that the scanner never assigns *)

Lemma upper_lstrip s : upper (lstrip_by is_space s) = lstrip_by is_space (upper s).
Proof.
  induction s as [|c s IH]; [reflexivity|].
  cbn [lstrip_by upper]. rewrite is_space_upper.
  destruct (is_space c); [exact IH|reflexivity].
Qed.

Lemma upper_rstrip s : upper (rstrip_by is_space s) = rstrip_by is_space (upper s).
Proof.
  induction s as [|c s IH]; [reflexivity|].
  cbn [rstrip_by upper]. rewrite <- IH, is_empty_upper, is_space_upper.
  destruct (is_empty (rstrip_by is_space s) && is_space c); reflexivity.
Qed.

Lemma upper_strip s : upper (strip s) = strip (upper s).
Proof. unfold strip. now rewrite upper_rstrip, upper_lstrip. Qed.

Lemma split_ws_lstrip s : split_ws (lstrip_by is_space s) = split_ws s.
Proof.
  induction s as [|c s IH]; [reflexivity|].
  cbn [lstrip_by]. destruct (is_space c) eqn:E; [|reflexivity].
  rewrite IH. cbn [split_ws]. now rewrite E.
Qed.

Lemma rstrip_first c t s :
  rstrip_by is_space s = String c t -> exists t0, s = String c t0.
Proof.
  destruct s as [|a s]; [discriminate|]. cbn [rstrip_by].
  destruct (is_empty (rstrip_by is_space s) && is_space a); [discriminate|].
  intros [= -> _]. eauto.
Qed.

Lemma split_ws_rstrip s : split_ws (rstrip_by is_space s) = split_ws s.
Proof.
  induction s as [|c s IH]; [reflexivity|].
  cbn [rstrip_by].
  destruct (rstrip_by is_space s) as [|c' t'] eqn:R; cbn [is_empty andb].
  - destruct (is_space c) eqn:E.
    + cbn [split_ws]. rewrite E. exact IH.
    + cbn [split_ws]. rewrite E. destruct s as [|a s']; [reflexivity|].
      rewrite <- IH. cbn [split_ws] in IH.
      destruct (is_space a) eqn:Ea; [reflexivity|].
      destruct s' as [|a' s'']; [discriminate|].
      destruct (is_space a'); [discriminate|].
      destruct (split_ws (String a' s'')); discriminate.
  - destruct (rstrip_first _ _ _ R) as (t0 & ->).
    cbn [split_ws] in *. destruct (is_space c); [exact IH|].
    destruct (is_space c'); now rewrite IH.
Qed.

Lemma split_ws_strip s : split_ws (strip s) = split_ws s.
Proof. unfold strip. now rewrite split_ws_rstrip, split_ws_lstrip. Qed.

(** The first field of [split] begins the text once the blanks before it
    are gone. *)
Lemma first_token_prefix s : forall t r,
  split_ws s = t :: r -> String.prefix t (lstrip_by is_space s) = true.
Proof.
  induction s as [|c s IH]; intros t r H; [discriminate|].
  cbn [split_ws lstrip_by] in *.
  destruct (is_space c) eqn:E; [eauto|].
  destruct s as [|c' s'].
  - injection H as <- _. now rewrite prefix_refl_cons.
  - destruct (is_space c') eqn:E'.
    + injection H as <- _. now rewrite prefix_refl_cons.
    + destruct (split_ws (String c' s')) as [|h r'] eqn:S.
      * injection H as <- _. now rewrite prefix_refl_cons.
      * injection H as <- _. rewrite prefix_refl_cons.
        specialize (IH h r' eq_refl). cbn [lstrip_by] in IH.
        now rewrite E' in IH.
Qed.

(** A text free of blanks that begins [s] still begins it once the
    blanks at the end of [s] are cut. *)
Lemma prefix_rstrip (p : string) : forall s,
  no_space p = true -> String.prefix p s = true ->
  String.prefix p (rstrip_by is_space s) = true.
Proof.
  induction p as [|a p IH]; intros s Hn H.
  - now destruct (rstrip_by is_space s).
  - destruct s as [|c s]; [discriminate|].
    cbn [String.prefix] in H. destruct (ascii_dec a c) as [->|]; [|discriminate].
    cbn [no_space] in Hn. apply andb_true_iff in Hn as [Hc Hn].
    apply negb_true_iff in Hc.
    cbn [rstrip_by]. rewrite Hc, andb_false_r, prefix_refl_cons. auto.
Qed.

Lemma first_token_begins_stripped (s t : string) (r : list string) (p : string) :
  split_ws (strip (upper (strip (upper s)))) = t :: r ->
  no_space p = true -> String.prefix p t = true ->
  startswith (strip (upper s)) p = true.
Proof.
  intros H Hn Hp. rewrite upper_strip, upper_idem, !split_ws_strip in H.
  apply first_token_prefix in H.
  unfold startswith, strip. apply prefix_rstrip; [exact Hn|].
  exact (prefix_trans _ _ _ Hp H).
Qed.

(** X25: two members of [ChillMode] are never assigned.  No text has
    [UNKNOWN] for mode, neither as the mode of a declaration nor as the
    base of a mode definition: the word [UNKNOWN] itself, like the empty
    text, is a user-defined mode.  And no mode definition has [PROCESS]
    for base: a definition that begins with [PROCESS] begins with [PROC],
    which is tested first. *)
Theorem modes_never_assigned (mode_str : string) :
  _mode_str_to_enum mode_str <> Ok UNKNOWN
  /\ _infer_base_mode mode_str <> Ok UNKNOWN
  /\ _infer_base_mode mode_str <> Ok PROCESS.
Proof.
  assert (U : forall s, _mode_str_to_enum s <> Ok UNKNOWN).
  { intros s. unfold _mode_str_to_enum.
    destruct (if negb (is_empty s) then _ else _) as [w|]; [|discriminate].
    cbn [bind].
    repeat match goal with
           | |- context [String.eqb ?a ?b] => destruct (String.eqb a b)
           end; discriminate. }
  split; [apply U|].
  unfold _infer_base_mode.
  destruct (startswith (strip (upper mode_str)) "PROC") eqn:P.
  - repeat match goal with
           | |- context [if ?b then _ else _] => destruct b
           end; split; discriminate.
  - repeat match goal with
           | |- context [if startswith ?a ?b then _ else _] =>
               destruct (startswith a b)
           end; try (split; discriminate).
    split; [apply U|].
    unfold _mode_str_to_enum.
    destruct (negb (is_empty (strip (upper mode_str)))).
    + destruct (split_ws (strip (upper (strip (upper mode_str)))))
        as [|w r] eqn:S; [discriminate|].
      cbn [bind].
      destruct (String.eqb w "PROCESS") eqn:E.
      * apply String.eqb_eq in E. subst w.
        rewrite (first_token_begins_stripped _ _ _ "PROC" S) in P;
          [discriminate|reflexivity|reflexivity].
      * repeat match goal with
               | |- context [String.eqb ?a ?b] => destruct (String.eqb a b)
               end; discriminate.
    + cbn. discriminate.
Qed.

(** ** The order of the references *)

Lemma StronglySorted_app {A : Type} (R : A -> A -> Prop) (l1 l2 : list A) :
  StronglySorted R l1 -> StronglySorted R l2 ->
  (forall x y, In x l1 -> In y l2 -> R x y) ->
  StronglySorted R (l1 ++ l2).
Proof.
  intros H1 H2 H. induction H1 as [|a l1 Hs IH Ha]; [exact H2|].
  cbn [app]. constructor.
  - apply IH. intros x y Hx Hy. apply H; [now right|exact Hy].
  - apply Forall_app. split; [exact Ha|].
    apply Forall_forall. intros y Hy. apply H; [now left|exact Hy].
Qed.

Lemma StronglySorted_map {A B : Type} (R : A -> A -> Prop)
      (Q : B -> B -> Prop) (f : A -> B) (l : list A) :
  (forall x y, R x y -> Q (f x) (f y)) ->
  StronglySorted R l -> StronglySorted Q (map f l).
Proof.
  intros Hf H. induction H as [|a l Hs IH Ha]; cbn [map]; constructor; auto.
  apply Forall_map. revert Ha. apply Forall_impl. auto.
Qed.

(** No whole-word occurrence begins among the characters of another. *)
Lemma occurrences_apart (word : string) :
  all_ident word = true -> word <> "" ->
  forall s pos prev,
    StronglySorted span_precedes (occurrences word pos prev s).
Proof.
  intros Hid Hne. induction s as [|c t IH]; intros pos prev;
    cbn [occurrences].
  - rewrite app_nil_r. destruct (match_here word prev ""); repeat constructor.
  - destruct (match_here word prev (String c t)) eqn:Hm; cbn [app];
      [|apply IH].
    constructor; [apply IH|].
    apply Forall_forall. intros [a b] Hin. unfold span_precedes. cbn [fst snd].
    apply (occurrences_In word Hid Hne) in Hin.
    destruct Hin as (j & -> & _ & Hj).
    destruct (Nat.lt_ge_cases j (String.length word)) as [Hlt|Hge]; [|lia].
    exfalso. rewrite (match_here_word word Hid Hne) in Hm, Hj.
    apply andb_prop in Hm. destruct Hm as [Hm _].
    apply andb_prop in Hm. destruct Hm as [_ Hp].
    apply andb_prop in Hj. destruct Hj as [Hj _].
    apply andb_prop in Hj. destruct Hj as [Hj _].
    pose proof (prefix_ci_word_chars word _ j Hid Hp Hlt) as Hw.
    replace (prev_at j (Some c) t) with (String.get j (String c t)) in Hj
      by (destruct j; reflexivity).
    rewrite Hw in Hj. discriminate.
Qed.

Lemma references_loop_in_order pattern :
  (forall line_text,
     StronglySorted span_precedes (finditer true pattern line_text)) ->
  forall ls i, StronglySorted range_precedes (references_loop pattern ls i).
Proof.
  intros Hs. induction ls as [|lt ls IH]; intros i;
    cbn [references_loop]; [constructor|].
  apply StronglySorted_app.
  - apply (StronglySorted_map span_precedes); [|apply Hs].
    intros [a b] [a' b'] H. right. cbn. split; [reflexivity|exact H].
  - apply IH.
  - intros x y Hx Hy. apply in_map_iff in Hx. destruct Hx as ([a b] & <- & _).
    apply references_loop_ge in Hy. left. cbn [line range_start]. lia.
Qed.

(** X26: the reference search lists its ranges in the order of the
    document and no two of them overlap: of two ranges of the result, the
    earlier one lies on an earlier line, or on the same line and ends no
    further than where the later one begins. *)
Theorem references_in_document_order (text : string) (position : LSPPosition) :
  StronglySorted range_precedes (_handle_references text position).
Proof.
  unfold _handle_references.
  destruct (is_empty _) eqn:E; [constructor|].
  apply references_loop_in_order. intros lt.
  unfold reference_pattern, finditer.
  assert (Hid : all_ident (_get_word_at_position text (line position)
                                                 (character position)) = true)
    by apply get_word_all_ident.
  assert (Hne : _get_word_at_position text (line position)
                                      (character position) <> "").
  { intros H. apply is_empty_spec in H. congruence. }
  rewrite (finditer_occurrences _ Hid Hne) by (intros; lia).
  now apply occurrences_apart.
Qed.

(** ** Process headers *)

(** A matcher succeeds at least where its continuation is replaced by one
    that succeeds more often. *)
Lemma lit_match_more ic (k1 k2 : kont) :
  (forall st, k1 st <> None -> k2 st <> None) ->
  forall lit pos prev rest caps,
    lit_match ic lit k1 pos prev rest caps <> None ->
    lit_match ic lit k2 pos prev rest caps <> None.
Proof.
  intros Hk. induction lit as [|a lit IH]; intros pos prev rest caps;
    cbn [lit_match]; [apply Hk|].
  destruct rest as [|c t]; [auto|]. destruct (char_eq ic a c); [apply IH|auto].
Qed.

Lemma star_greedy_more ic cl (k1 k2 : kont) :
  (forall st, k1 st <> None -> k2 st <> None) ->
  forall rest pos prev caps,
    star_greedy ic cl k1 pos prev rest caps <> None ->
    star_greedy ic cl k2 pos prev rest caps <> None.
Proof.
  intros Hk. induction rest as [|c t IH]; intros pos prev caps;
    cbn [star_greedy]; [apply Hk|].
  destruct (class_matches ic cl c); [|apply Hk].
  specialize (IH (S pos) (Some c) caps).
  destruct (star_greedy ic cl k1 (S pos) (Some c) t caps).
  - intros _. destruct (star_greedy ic cl k2 (S pos) (Some c) t caps);
      [discriminate|]. exfalso. apply IH; [discriminate|reflexivity].
  - intros H. destruct (star_greedy ic cl k2 (S pos) (Some c) t caps);
      [discriminate|]. now apply Hk.
Qed.

Lemma star_lazy_more ic cl (k1 k2 : kont) :
  (forall st, k1 st <> None -> k2 st <> None) ->
  forall rest pos prev caps,
    star_lazy ic cl k1 pos prev rest caps <> None ->
    star_lazy ic cl k2 pos prev rest caps <> None.
Proof.
  intros Hk. induction rest as [|c t IH]; intros pos prev caps;
    cbn [star_lazy]; specialize (Hk (MState pos prev "" caps)) as Hk0.
  - destruct (k1 (MState pos prev "" caps)); [|congruence].
    intros _. destruct (k2 (MState pos prev "" caps)); [discriminate|].
    exfalso. apply Hk0; [discriminate|reflexivity].
  - clear Hk0. specialize (Hk (MState pos prev (String c t) caps)) as Hk0.
    destruct (k2 (MState pos prev (String c t) caps)); [discriminate|].
    destruct (k1 (MState pos prev (String c t) caps)).
    + intros _. exfalso. apply Hk0; [discriminate|reflexivity].
    + destruct (class_matches ic cl c); [apply IH|auto].
Qed.

Lemma one_char_more ic cl (k1 k2 : kont) :
  (forall st, k1 st <> None -> k2 st <> None) ->
  forall st, one_char ic cl k1 st <> None -> one_char ic cl k2 st <> None.
Proof.
  intros Hk st. unfold one_char. destruct (m_rest st) as [|c t]; [auto|].
  destruct (class_matches ic cl c); [apply Hk|auto].
Qed.

Lemma rmatch_more ic (r : regex) : forall k1 k2 : kont,
  (forall st, k1 st <> None -> k2 st <> None) ->
  forall st, rmatch ic r k1 st <> None -> rmatch ic r k2 st <> None.
Proof.
  induction r as [ | l | cl | cl | cl | cl | r IH | r1 IH1 r2 IH2
                 | r1 IH1 r2 IH2 | n r IH | | ];
    intros k1 k2 Hk st; cbn [rmatch].
  - apply Hk.
  - now apply lit_match_more.
  - now apply one_char_more.
  - now apply star_greedy_more.
  - apply one_char_more. intros st1. now apply star_greedy_more.
  - now apply star_lazy_more.
  - specialize (IH k1 k2 Hk st).
    destruct (rmatch ic r k1 st).
    + intros _. destruct (rmatch ic r k2 st); [discriminate|].
      exfalso. apply IH; [discriminate|reflexivity].
    + intros H. destruct (rmatch ic r k2 st); [discriminate|]. now apply Hk.
  - apply IH1. intros st1. now apply IH2.
  - specialize (IH1 k1 k2 Hk st). specialize (IH2 k1 k2 Hk st).
    destruct (rmatch ic r1 k1 st).
    + intros _. destruct (rmatch ic r1 k2 st); [discriminate|].
      exfalso. apply IH1; [discriminate|reflexivity].
    + intros H. destruct (rmatch ic r1 k2 st); [discriminate|]. now apply IH2.
  - apply IH. intros st1. apply Hk.
  - destruct (Nat.eqb (m_pos st) 0); [apply Hk|auto].
  - destruct (xorb (word_before st) (word_after st)); [apply Hk|auto].
Qed.

Lemma cat_tail_more ic (r t1 t2 : regex) (k : kont) :
  (forall st, rmatch ic t1 k st <> None -> rmatch ic t2 k st <> None) ->
  forall st, rmatch ic (Cat r t1) k st <> None ->
             rmatch ic (Cat r t2) k st <> None.
Proof. intros H st. cbn [rmatch]. now apply rmatch_more. Qed.

(** A line that the classifier of process headers accepts is accepted by
    the classifier of procedure headers, which is asked first. *)
Lemma process_header_is_proc_header (s : string) :
  is_match false re_is_process s = true -> is_match false re_is_proc s = true.
Proof.
  unfold is_match, re_match.
  assert (H : rmatch false re_is_process Some (MState 0 None s []) <> None ->
              rmatch false re_is_proc Some (MState 0 None s []) <> None).
  { unfold re_is_process, re_is_proc. repeat apply cat_tail_more.
    intros st. cbn [rmatch].
    destruct (m_rest st) as [|c1 [|c2 [|c3 [|c4 r]]]]; cbn [lit_match];
      repeat match goal with
             | |- context [char_eq false ?a ?c] => destruct (char_eq false a c)
             end; try congruence; discriminate. }
  destruct (rmatch false re_is_process Some _); [|discriminate].
  intros _. destruct (rmatch false re_is_proc Some _); [reflexivity|].
  exfalso. apply H; [discriminate|reflexivity].
Qed.

Lemma parse_line_processes ls i line_text m m' :
  _parse_line ls i line_text m = Ok m' -> processes m' = processes m.
Proof.
  unfold _parse_line.
  destruct (startswith (upper (strip line_text)) "MODULE").
  { intros [= <-]. unfold _parse_module.
    destruct (re_match true re_module _); reflexivity. }
  destruct (startswith (upper (strip line_text)) "NEWMODE"
            || startswith (upper (strip line_text)) "SYNMODE").
  { unfold _parse_newmode.
    destruct (re_match true re_newmode _) as [mt|]; [|now intros [= <-]].
    destruct (_infer_base_mode _); [|discriminate]. cbn [bind].
    destruct (match re_match true re_range _ with
              | Some _ => _ | None => _ end) as [[lo hi]|]; [|discriminate].
    cbn [bind].
    destruct (match re_match true re_struct _ with
              | Some _ => _ | None => _ end); [|discriminate].
    cbn [bind]. now intros [= <-]. }
  destruct (startswith (upper (strip line_text)) "DCL").
  { unfold _parse_dcl.
    destruct (re_match true re_dcl _) as [mt|]; [|now intros [= <-]].
    destruct (_mode_str_to_enum _); [|discriminate]. cbn [bind].
    destruct (_is_builtin_mode _); [|discriminate]. cbn [bind].
    now intros [= <-]. }
  destruct (startswith (upper (strip line_text)) "SYN").
  { intros [= <-]. unfold _parse_syn.
    destruct (re_match true re_syn _); reflexivity. }
  destruct (is_match false re_is_proc (upper (strip line_text))) eqn:P.
  { intros [= <-]. unfold _parse_proc.
    destruct (re_match true re_proc _); reflexivity. }
  destruct (is_match false re_is_process (upper (strip line_text))) eqn:Q.
  { apply process_header_is_proc_header in Q. congruence. }
  destruct (startswith (upper (strip line_text)) "SIGNAL").
  { intros [= <-]. unfold _parse_signal.
    destruct (re_match true re_signal _); reflexivity. }
  now intros [= <-].
Qed.

Lemma parse_loop_processes ls : forall rest i m,
  processes (fst (_parse_declarations_loop ls rest i m)) = processes m.
Proof.
  induction rest as [|l rest IH]; intros i m; cbn [_parse_declarations_loop];
    [reflexivity|].
  destruct (_parse_line ls i l m) as [m1|e] eqn:E; [|reflexivity].
  rewrite IH. exact (parse_line_processes _ _ _ _ _ E).
Qed.

(** X27: the scanner records no process.  A line that the test for a
    process header accepts is accepted by the test for a procedure header,
    which comes first, so that [_parse_process] is never called: whatever
    the source, the table of processes is empty in the model that [parse]
    leaves in the parser and in the one it returns. *)
Theorem scanner_records_no_process (self : ChillParser) (source : string) :
  (forall l, is_match false re_is_process (upper (strip l)) = true ->
             is_match false re_is_proc (upper (strip l)) = true)
  /\ processes (model (fst (parse self source))) = Dict.empty
  /\ (forall m, snd (parse self source) = Ok m -> processes m = Dict.empty).
Proof.
  split; [intros l; apply process_header_is_proc_header|].
  assert (H : processes (model (fst (parse self source))) = Dict.empty).
  { unfold parse, _parse_declarations. cbn [model lines current_line].
    pose proof (parse_loop_processes (split_on "010" (_preprocess source))
                  (split_on "010" (_preprocess source)) 0 new_model) as P.
    destruct (_parse_declarations_loop _ _ 0 new_model) as [m r].
    exact P. }
  split; [exact H|]. intros m Hm.
  unfold parse, _parse_declarations in *. cbn [model lines current_line] in *.
  destruct (_parse_declarations_loop _ _ 0 new_model) as [m1 r].
  cbn [fst snd model] in *. destruct r; [|discriminate].
  injection Hm as <-. exact H.
Qed.

Lemma scanner_records_no_process_witness :
  processes (parsed "w: PROCESS();
END w;") = Dict.empty.
Proof.
  apply (proj2 (proj2 (scanner_records_no_process new_parser "w: PROCESS();
END w;"))).
  vm_compute. reflexivity.
Defined.
